(** * PyCDE module builder ([pycde/module.py]): a shallow embedding

    The development follows the source file top to bottom: the module-name
    mangler, the parameterization cache key, the block context, the port
    proxy, the class scanner, the generator context, instantiation,
    generation and the [modparams] decorator.  Python objects that the
    source mutates in place (port markers, the current-block-context
    variable, the module cache) are modelled as explicit state. *)

From Stdlib Require Import Ascii String List ZArith Lia OrderedTypeEx.
From stdpp Require Import base option list strings functions gmap pretty sorting.

Local Open Scope string_scope.
Local Open Scope nat_scope.

(* ================================================================== *)
(** * Part I: the embedding *)
(* ================================================================== *)

(** ** Exceptions *)

(** The exceptions [module.py] raises, with the data their messages are
    built from. *)
Inductive exn :=
  | PortError_not_found (name : string)
      (* f"Input port {name} not found in module" *)
  | PortError_none (name : string)
      (* f"Port {name} cannot be None (disconnected ports only allowed ..." *)
  | PortError_output_type (name : option string)
      (* _set_output: f"Input port {port.name} expected type ..." *)
  | PortError_no_output (name : string)
      (* _set_outputs: f"Could not find output port '{name}'" *)
  | ValueError_wrong_type (name : string)
      (* f"Wrong type on input signal '{name}'. Got ..." *)
  | ValueError_missing (missing : list string)
      (* f"Missing input signals for ports: {', '.join(missing)}" *)
  | ValueError_generator_returned
      (* "Generators must not return a value" *)
  | ValueError_not_module
      (* "Parameterization function must return Module class" *)
  | UnconnectedSignalError (mod_name : string) (ports : list (option string))
  | TypeError_not_iterable
  | TypeError_bind
  | TypeError_signature
      (* "Module parameter definitions cannot have **kwargs" / "... *args" *)
  | TypeError_join
  | TypeError_item_assignment
  | TypeError_unhashable
      (* "unhashable type: ..." *)
  | AssertionError
  | IndexError
  | AttributeError
  | UserException (tag : nat).
      (* anything raised by user code or by an external collaborator *)

Inductive result (A : Type) :=
  | Ok (a : A)
  | Raise (e : exn).
Arguments Ok {A} a.
Arguments Raise {A} e.

Definition is_PortError (e : exn) : bool :=
  match e with
  | PortError_not_found _ | PortError_none _
  | PortError_output_type _ | PortError_no_output _ => true
  | _ => false
  end.

(** ** [_BlockContext] *)

Module BlockContext.

(** [self.symbols: set[str]]. *)
Record _BlockContext := mk { symbols : gset string }.

(** [f"{sym}_{ctr}"]. *)
Definition suffixed (sym : string) (ctr : nat) : string :=
  sym +:+ "_" +:+ pretty ctr.

(** The [while ret in self.symbols] loop of [uniquify_symbol]; [fuel]
    bounds the number of iterations. *)
Fixpoint uniquify_loop (fuel : nat) (syms : gset string) (sym : string)
    (ctr : nat) (ret : string) : option string :=
  if decide (ret ∈ syms) then
    match fuel with
    | 0 => None
    | S fuel' =>
        let ctr := ctr + 1 in
        uniquify_loop fuel' syms sym ctr (suffixed sym ctr)
    end
  else Some ret.

(** [uniquify_symbol]: the loop, then [self.symbols.add(ret)].  The loop
    tries at most [size symbols + 1] candidates. *)
Definition uniquify_symbol (bc : _BlockContext) (sym : string)
    : option (string * _BlockContext) :=
  match uniquify_loop (size (symbols bc)) (symbols bc) sym 0 sym with
  | Some ret => Some (ret, mk ({[ ret ]} ∪ symbols bc))
  | None => None
  end.

(** The names the loop tries, in order: [sym], [sym_1], [sym_2], ... *)
Definition candidate (sym : string) (n : nat) : string :=
  match n with 0 => sym | S _ => suffixed sym n end.

End BlockContext.

(** ** [_create_module_name] and the builder's [name] *)

(** Characters are code points below 256; [isalnum] is Python's
    [str.isalnum] on that range (ASCII digits and letters, and the Latin-1
    letters, superscript digits and vulgar fractions). *)
Definition isalnum (c : ascii) : bool :=
  let n := N_of_ascii c in
  ((48 <=? n) && (n <=? 57) || (65 <=? n) && (n <=? 90) ||
   (97 <=? n) && (n <=? 122) || (n =? 170) || (178 <=? n) && (n <=? 179) ||
   (n =? 181) || (185 <=? n) && (n <=? 186) || (188 <=? n) && (n <=? 190) ||
   (192 <=? n) && (n <=? 214) || (216 <=? n) && (n <=? 246) ||
   (248 <=? n))%N.

Definition underscore : ascii := "_"%char.
Definition double_quote : ascii := ascii_of_nat 34.

(** The characters of the string literal that [c not in ...] tests
    against: ! > [ ] , and the double quote. *)
Definition dropped_chars : list ascii :=
  ["!"%char; ">"%char; "["%char; "]"%char; ","%char; double_quote].

Definition is_dropped (c : ascii) : bool := bool_decide (c ∈ dropped_chars).

(** [s.replace(old, new)] for a non-empty [old]: occurrences are replaced
    left to right without overlap.  [skip] counts the characters of the
    occurrence just replaced that are still to be passed over. *)
Fixpoint str_replace_go (old new : string) (skip : nat) (s : string) : string :=
  match s with
  | EmptyString => EmptyString
  | String c s' =>
      match skip with
      | S k => str_replace_go old new k s'
      | 0 =>
          if String.prefix old s
          then new +:+ str_replace_go old new (String.length old - 1) s'
          else String c (str_replace_go old new 0 s')
      end
  end.

Definition str_replace (old new s : string) : string :=
  str_replace_go old new 0 s.

(** Python compares strings code point by code point. *)
Definition string_le (s1 s2 : string) : Prop := String.leb s1 s2 = true.

#[global] Instance string_le_dec s1 s2 : Decision (string_le s1 s2).
Proof. unfold string_le. apply _. Defined.

(** [sorted(param_strings)]. *)
Definition sorted (l : list string) : list string := merge_sort string_le l.

(** One iteration of [for c in name] in [_create_module_name]; [ret] is
    the string built so far. *)
Definition sanitize_step (ret : list ascii) (c : ascii) : list ascii :=
  if isalnum c then ret ++ [c]
  else if negb (is_dropped c) && (0 <? length ret)
          && negb (bool_decide (last ret = Some underscore))
       then ret ++ [underscore]
       else ret.

(** The guard of the [elif] fails for want of an underscore to emit:
    nothing has been emitted yet, or the last character emitted is one. *)
Definition blocked (ret : list ascii) : bool :=
  negb ((0 <? length ret) && negb (bool_decide (last ret = Some underscore))).

Fixpoint lstrip (c : ascii) (l : list ascii) : list ascii :=
  match l with
  | x :: l' => if bool_decide (x = c) then lstrip c l' else l
  | [] => []
  end.

(** [s.strip(c)] for a single character [c]. *)
Definition strip (c : ascii) (l : list ascii) : list ascii :=
  rev (lstrip c (rev (lstrip c l))).

Section naming.
(** [ir.Attribute] and the rendering [val_str] gives it through
    [create_type_string], [attribute_to_var] and [str], all defined
    outside this file. *)
Context {Attr : Type}.
Variable val_str : Attr → string.

(** The first two loops: [name += "_" + ps] for the sorted renderings
    [p.name + val_str(p.attr)]. *)
Definition param_strings (params : list (string * Attr)) : list string :=
  (λ p, p.1 +:+ val_str p.2) <$> params.

Definition with_params (name : string) (params : list (string * Attr)) : string :=
  fold_left (λ name ps, name +:+ "_" +:+ ps) (sorted (param_strings params)) name.

Definition _create_module_name (name : string)
    (params : list (string * Attr)) : string :=
  let name := with_params name params in
  let name := str_replace "!hw." "" name in
  let ret := fold_left sanitize_step (list_ascii_of_string name) [] in
  string_of_list_ascii (strip underscore ret).

End naming.

(** ** Python dictionaries *)

(** A [dict] keeps its keys in insertion order; assigning to a key that is
    already present keeps the key's position. *)
Fixpoint dict_set {K V} `{EqDecision K} (d : list (K * V)) (k : K) (v : V)
    : list (K * V) :=
  match d with
  | [] => [(k, v)]
  | (k', v') :: d' =>
      if decide (k' = k) then (k, v) :: d' else (k', v') :: dict_set d' k v
  end.

Fixpoint dict_get {K V} `{EqDecision K} (d : list (K * V)) (k : K) : option V :=
  match d with
  | [] => None
  | (k', v) :: d' => if decide (k' = k) then Some v else dict_get d' k
  end.

Definition dict_keys {K V} (d : list (K * V)) : list K := d.*1.

(** [{key(x): x for x in l}]. *)
Definition dict_of_list {K V} `{EqDecision K} (l : list (K * V)) : list (K * V) :=
  fold_left (λ d kv, dict_set d kv.1 kv.2) l [].

(** ** The error monad *)

#[global] Instance result_ret : MRet result := @Ok.
#[global] Instance result_bind : MBind result := λ A B f m,
  match m with Ok a => f a | Raise e => Raise e end.

(** A [for] loop whose body may raise. *)
Fixpoint for_each {S X} (body : S → X → result S) (s : S) (l : list X)
    : result S :=
  match l with
  | [] => Ok s
  | x :: l' => s' ← body s x; for_each body s' l'
  end.

(** ** Port markers, the class dictionary and the builder *)

(** Modelled from the spec: the marker classes of [pycde/common.py]
    ([ModuleDecl] and its subclasses), which [module.py] only imports.  The
    spec tags clock and reset roles by declared-thing subtype and lets only
    input ports carry one: [Clock] and [Reset] are kinds of [Input]. *)
Inductive decl_class := Input | Clock | Reset | Output.

Definition isinstance_Input (c : decl_class) : bool :=
  match c with Input | Clock | Reset => true | Output => false end.
Definition isinstance_Output (c : decl_class) : bool :=
  match c with Output => true | _ => false end.
Definition isinstance_Clock (c : decl_class) : bool :=
  match c with Clock => true | _ => false end.
Definition isinstance_Reset (c : decl_class) : bool :=
  match c with Reset => true | _ => false end.

(** Marker objects are mutated in place by the scanner, and one object may
    be bound to several attribute names: they live in a store and are
    named by reference. *)
Definition ref := nat.

Section builder.
(** Hardware types, raw IR values, Python literals, IR attributes and
    arbitrary Python objects: all defined outside [module.py]. *)
Context {Ty Val Const Attr PyObj : Type}.

Record ModuleDecl := mkDecl {
  port_class : decl_class;
  port_type : Ty;
  port_idx : option nat;
  port_name : option string;
}.

Local Abbreviation store := (ref → ModuleDecl).

(** A [Signal]: a typed IR value. *)
Record Signal := mkSignal { sig_type : Ty; sig_value : Val }.

(** What user code hands to an input or an output: a [Signal], [None],
    or anything else (taken as a constant literal). *)
Inductive py_value :=
  | VSignal (s : Signal)
  | VNone
  | VLiteral (c : Const).

(** A generation routine, as far as the builder can observe it: it
    assigns outputs through the proxy ([_set_output]), then returns
    [None], returns something else, or raises. *)
Inductive gen_stmt :=
  | SetOutput (idx : nat) (v : py_value).

Inductive gen_end :=
  | ReturnNone
  | ReturnValue
  | RaiseExn (e : exn).

Record Generator := mkGenerator {
  gen_func : list gen_stmt * gen_end;
  loc : nat;
}.

Record Constant := mkConstant { value : PyObj; const_type : Ty }.

(** An entry of the [Attributes] group, as the two comprehensions of
    [scan_cls] treat it: a [(name, value)] tuple, a bare name, or an
    object they refuse.  A tuple is indexed at [0] and at [1], and what
    becomes a key of [self.attributes] is hashed.  Objects that can be
    hashed are named by strings. *)
Inductive mod_attr :=
  | AttrTuple (key : string) (v : PyObj)
      (* a tuple of two items or more whose first item can be hashed *)
  | AttrFlag (key : string)
      (* an object that is no tuple and can be hashed: a bare name *)
  | AttrShortTuple
      (* the tuples () and (x,): mod_attr[0] or mod_attr[1] is out of range *)
  | AttrUnhashableKey (v : PyObj)
      (* a tuple of two items or more whose first item cannot be hashed *)
  | AttrUnhashable.
      (* an object that is no tuple and cannot be hashed, such as a list *)

(** The values of a class dictionary.  [AIterable] is an object that can
    be iterated over and yields the same entries each time it is (a list,
    a tuple, a set); [AOther] stands for everything else, none of which
    can be iterated over. *)
Inductive class_attr :=
  | APort (r : ref)
  | AGenerator (g : Generator)
  | AConstant (c : Constant)
  | AIterable (items : list mod_attr)
  | AOther.

(** The builder after [__init__].  [modcls_name] is [modcls.__name__] and
    [module_name] the class attribute of that name when the class has
    one.  The metaclass runs [go], hence [scan_cls], right after
    [__init__], so [generators] is never observed as [None]. *)
Record ModuleLikeBuilderBase := mkBuilder {
  modcls_name : string;
  module_name : option string;
  cls_dct : list (string * class_attr);
  ports : list ref;
  clocks : gset nat;
  resets : gset nat;
  generators : list (string * Generator);
  constants : list (string * Constant);
  parameters : option (list (string * Attr));
  attributes : list (string * Attr);
}.

Definition inputs (b : ModuleLikeBuilderBase) (st : store) : list ModuleDecl :=
  filter (λ p, isinstance_Input (port_class p) = true) (st <$> ports b).

Definition outputs (b : ModuleLikeBuilderBase) (st : store) : list ModuleDecl :=
  filter (λ p, isinstance_Output (port_class p) = true) (st <$> ports b).

(** *** [scan_cls] *)

Variable obj_to_attribute : PyObj → Attr.
Variable unit_attr : Attr.

(** The locals of [scan_cls], together with the marker store and
    [self.attributes], which the loop assigns directly. *)
Record scan_state := mkScan {
  s_ports : list ref;
  s_clock_ports : gset nat;
  s_reset_ports : gset nat;
  s_generators : list (string * Generator);
  s_constants : list (string * Constant);
  s_num_inputs : nat;
  s_num_outputs : nat;
  s_attributes : list (string * Attr);
  s_store : store;
}.

(** The two comprehensions that rebuild [self.attributes].  The first
    runs over the whole group and keeps the tuples: [mod_attr[0]] and
    [mod_attr[1]] raise [IndexError] on a tuple that is too short, and
    storing under a key that cannot be hashed raises [TypeError].  The
    second runs over the group again and keeps the entries that are no
    tuples, as keys; [update] then assigns them in the order of their
    first occurrence, which is what assigning them one by one gives. *)
Definition scan_attributes (items : list mod_attr)
    : result (list (string * Attr)) :=
  tuples ← for_each (λ d m,
      match m with
      | AttrTuple k v => Ok (dict_set d k (obj_to_attribute v))
      | AttrShortTuple => Raise IndexError
      | AttrUnhashableKey _ => Raise TypeError_unhashable
      | AttrFlag _ | AttrUnhashable => Ok d
      end) [] items;
  for_each (λ d m,
      match m with
      | AttrFlag k => Ok (dict_set d k unit_attr)
      | AttrUnhashable => Raise TypeError_unhashable
      | AttrTuple _ _ | AttrShortTuple | AttrUnhashableKey _ => Ok d
      end) tuples items.

(** The body of [for attr_name, attr in self.cls_dct.items()]. *)
Definition scan_attr (s : scan_state) (entry : string * class_attr)
    : result scan_state :=
  let '(attr_name, attr) := entry in
  if String.prefix "_" attr_name then Ok s
  else if decide (attr_name = "Attributes") then
    match attr with
    | AIterable items =>
        attributes ← scan_attributes items;
        Ok (mkScan (s_ports s) (s_clock_ports s) (s_reset_ports s)
              (s_generators s) (s_constants s) (s_num_inputs s)
              (s_num_outputs s) attributes (s_store s))
    | _ => Raise TypeError_not_iterable
    end
  else
    match attr with
    | APort r =>
        let d := s_store s r in
        let clock_ports :=
          if isinstance_Clock (port_class d)
          then {[ s_num_inputs s ]} ∪ s_clock_ports s else s_clock_ports s in
        let reset_ports :=
          if isinstance_Clock (port_class d) then s_reset_ports s
          else if isinstance_Reset (port_class d)
          then {[ s_num_inputs s ]} ∪ s_reset_ports s else s_reset_ports s in
        if isinstance_Input (port_class d) then
          Ok (mkScan (s_ports s ++ [r]) clock_ports reset_ports
                (s_generators s) (s_constants s) (s_num_inputs s + 1)
                (s_num_outputs s) (s_attributes s)
                (<[ r := mkDecl (port_class d) (port_type d)
                           (Some (s_num_inputs s)) (Some attr_name) ]>
                   (s_store s)))
        else if isinstance_Output (port_class d) then
          Ok (mkScan (s_ports s ++ [r]) clock_ports reset_ports
                (s_generators s) (s_constants s) (s_num_inputs s)
                (s_num_outputs s + 1) (s_attributes s)
                (<[ r := mkDecl (port_class d) (port_type d)
                           (Some (s_num_outputs s)) (Some attr_name) ]>
                   (s_store s)))
        else Ok s
    | AGenerator g =>
        Ok (mkScan (s_ports s) (s_clock_ports s) (s_reset_ports s)
              (dict_set (s_generators s) attr_name g) (s_constants s)
              (s_num_inputs s) (s_num_outputs s) (s_attributes s)
              (s_store s))
    | AConstant c =>
        Ok (mkScan (s_ports s) (s_clock_ports s) (s_reset_ports s)
              (s_generators s) (dict_set (s_constants s) attr_name c)
              (s_num_inputs s) (s_num_outputs s) (s_attributes s)
              (s_store s))
    | AIterable _ | AOther => Ok s
    end.

Definition scan_init (b : ModuleLikeBuilderBase) (st : store) : scan_state :=
  mkScan [] ∅ ∅ [] [] 0 0 (attributes b) st.

(** [scan_cls]: the loop, then the assignments to [self].  A scan that
    raises leaves no builder to speak of. *)
Definition scan_cls (b : ModuleLikeBuilderBase) (st : store)
    : result (ModuleLikeBuilderBase * store) :=
  s ← for_each scan_attr (scan_init b st) (cls_dct b);
  Ok (mkBuilder (modcls_name b) (module_name b) (cls_dct b)
        (s_ports s) (s_clock_ports s) (s_reset_ports s)
        (s_generators s) (s_constants s) (parameters b) (s_attributes s),
      s_store s).

(** *** The [name] property *)

Variable val_str : Attr → string.

Definition name (b : ModuleLikeBuilderBase) : string :=
  match module_name b with
  | Some n => n
  | None =>
      match parameters b with
      | Some params =>
          if 0 <? length (generators b)
          then _create_module_name val_str (modcls_name b) params
          else modcls_name b
      | None => modcls_name b
      end
  end.

End builder.

(** ** The port proxy, the generator context and [generate] *)

(** The context managers a generation enters, in the order
    [GeneratorCtxt.__enter__] enters them. *)
Inductive scope :=
  | SBlockContext | SBackedgeBuilder | SInsertionPoint | SLocation | SClock.

(** A call to [__enter__], or to [__exit__] with the exception (if any)
    that is leaving the [with] block. *)
Inductive event :=
  | Enter (s : scope)
  | Exit (s : scope) (exc : option exn).

Section generation.
Context {Ty Val Const Attr PyObj : Type} `{EqDecision Ty}.

Local Abbreviation Builder := (@ModuleLikeBuilderBase Ty Val Const Attr PyObj).
Local Abbreviation store := (ref → @ModuleDecl Ty).

(** [port.type(signal).value] for a literal: the conversion is the type
    algebra's, and raises when the literal does not fit. *)
Variable type_call : Ty → Const → result Val.
(** [hw.OutputOp(...)]: the IR builder may refuse the operation. *)
Variable OutputOp_error : list Val → option exn.
(** The arguments of the entry block, one per input port. *)
Variable block_arg : nat → Val.

(** What a generation touches outside the builder: the context variable
    [_current_block_context], the calls made to the scope managers, and
    the body of the module operation (its entry block and terminator). *)
Record world := mkWorld {
  current_block_context : option BlockContext._BlockContext;
  trace : list event;
  entry_block : bool;
  terminator : option (list Val);
}.

(** [PortProxyBase]; [proxy_name] is the class attribute [_name] of the
    synthesized subclass. *)
Record PortProxyBase := mkProxy {
  proxy_name : string;
  _block_args : option (list Val);
  _output_values : option (list (option (@Signal Ty Val)));
  _builder : option Builder;
}.

Definition PortProxyBase_init (block_args : list Val) (b : Builder) (st : store)
    : PortProxyBase :=
  mkProxy (modcls_name b) (Some block_args)
    (Some (replicate (length (outputs b st)) None)) (Some b).

Definition _set_output (st : store) (self : PortProxyBase) (idx : nat)
    (signal : @py_value Ty Val Const) : result PortProxyBase :=
  match signal with
  | VNone => Raise AssertionError
  | _ =>
    match _builder self with
    | None => Raise AttributeError
    | Some b =>
        match outputs b st !! idx with
        | None => Raise IndexError
        | Some port =>
            sig ← match signal with
                  | VSignal sg =>
                      if decide (port_type port ≠ sig_type sg)
                      then Raise (PortError_output_type (port_name port))
                      else Ok sg
                  | VLiteral c =>
                      v ← type_call (port_type port) c;
                      Ok (mkSignal (port_type port) v)
                  | VNone => Raise AssertionError
                  end;
            match _output_values self with
            | None => Raise TypeError_item_assignment
            | Some values =>
                if decide (idx < length values)
                then Ok (mkProxy (proxy_name self) (_block_args self)
                           (Some (<[ idx := Some sig ]> values))
                           (_builder self))
                else Raise IndexError
            end
        end
    end
  end.

(** The names [_check_unconnected_outputs] collects: those of the output
    ports whose slot is still [None], in slot order. *)
Definition unconnected_port_names (outs : list (@ModuleDecl Ty))
    (values : list (option (@Signal Ty Val))) : result (list (option string)) :=
  for_each (λ names iv,
      match iv.2 with
      | Some _ => Ok names
      | None =>
          match outs !! iv.1 with
          | Some port => Ok ((names ++ [port_name port])%list)
          | None => Raise IndexError
          end
      end) [] (imap (λ i v, (i, v)) values).

Definition _check_unconnected_outputs (st : store) (self : PortProxyBase)
    : result unit :=
  match _builder self, _output_values self with
  | Some b, Some values =>
      names ← unconnected_port_names (outputs b st) values;
      if 0 <? length names
      then Raise (UnconnectedSignalError (proxy_name self) names)
      else Ok ()
  | None, _ => Raise AssertionError
  | _, None => Raise TypeError_not_iterable
  end.

Definition _clear (self : PortProxyBase) : PortProxyBase :=
  mkProxy (proxy_name self) None None None.

(** [GeneratorCtxt]: the block context it creates, the implicit clock
    (if any), and the token [_BlockContext.__enter__] keeps.  The
    backedge builder, insertion point, location and clock scope are
    external objects: of them only the calls to [__enter__] and
    [__exit__] are recorded, and those calls are taken not to raise. *)
Record GeneratorCtxt := mkCtxt {
  bc : BlockContext._BlockContext;
  clk : option Val;
  _old_system_token : option (option BlockContext._BlockContext);
}.

Definition GeneratorCtxt_init (b : Builder) (ports : PortProxyBase)
    : result GeneratorCtxt :=
  clk ← (if decide (size (clocks b) = 1) then
           match elements (clocks b) !! 0, _block_args ports with
           | Some clk_port, Some args =>
               match args !! clk_port with
               | Some v => Ok (Some v)
               | None => Raise IndexError
               end
           | _, _ => Raise IndexError
           end
         else Ok None);
  Ok (mkCtxt (BlockContext.mk ∅) clk None).

Definition log (w : world) (evs : list event) : world :=
  mkWorld (current_block_context w) (trace w ++ evs) (entry_block w)
    (terminator w).

(** [__enter__]: the block context becomes current (the token remembers
    the previous one), then the other scopes are entered. *)
Definition GeneratorCtxt_enter (c : GeneratorCtxt) (w : world)
    : GeneratorCtxt * world :=
  let c' := mkCtxt (bc c) (clk c) (Some (current_block_context w)) in
  let w := mkWorld (Some (bc c)) (trace w) (entry_block w) (terminator w) in
  let w := log w [Enter SBlockContext; Enter SBackedgeBuilder;
                  Enter SInsertionPoint; Enter SLocation] in
  (c', match clk c with Some _ => log w [Enter SClock] | None => w end).

(** [_BlockContext.__exit__]: nothing is reset when an exception is
    passing through. *)
Definition BlockContext_exit (c : GeneratorCtxt) (exc : option exn)
    (w : world) : world :=
  let w := log w [Exit SBlockContext exc] in
  match exc with
  | Some _ => w
  | None =>
      match _old_system_token c with
      | Some old => mkWorld old (trace w) (entry_block w) (terminator w)
      | None => w
      end
  end.

Definition GeneratorCtxt_exit (c : GeneratorCtxt) (exc : option exn)
    (w : world) (ports : PortProxyBase) : world * PortProxyBase :=
  let w := match clk c with Some _ => log w [Exit SClock exc] | None => w end in
  let w := log w [Exit SLocation exc; Exit SInsertionPoint exc;
                  Exit SBackedgeBuilder exc] in
  (BlockContext_exit c exc w, _clear ports).

(** The statements of a generation routine, run until one raises. *)
Fixpoint run_stmts (st : store) (ports : PortProxyBase)
    (l : list (@gen_stmt Ty Val Const)) : PortProxyBase * option exn :=
  match l with
  | [] => (ports, None)
  | SetOutput idx v :: l' =>
      match _set_output st ports idx v with
      | Ok ports' => run_stmts st ports' l'
      | Raise e => (ports, Some e)
      end
  end.

(** The body of the [with] block in [generate]. *)
Definition generate_body (st : store) (g : @Generator Ty Val Const)
    (w : world) (ports : PortProxyBase) : world * PortProxyBase * option exn :=
  let '(ports, exc) := run_stmts st ports (gen_func g).1 in
  match exc with
  | Some e => (w, ports, Some e)
  | None =>
      match (gen_func g).2 with
      | RaiseExn e => (w, ports, Some e)
      | ReturnValue => (w, ports, Some ValueError_generator_returned)
      | ReturnNone =>
          match _check_unconnected_outputs st ports with
          | Raise e => (w, ports, Some e)
          | Ok _ =>
              match _output_values ports with
              | None => (w, ports, Some TypeError_not_iterable)
              | Some values =>
                  match mapM (fmap (M := option) sig_value) values with
                  | None => (w, ports, Some AttributeError)
                  | Some vals =>
                      match OutputOp_error vals with
                      | Some e => (w, ports, Some e)
                      | None =>
                          (mkWorld (current_block_context w) (trace w)
                             (entry_block w) (Some vals), ports, None)
                      end
                  end
              end
          end
      end
  end.

(** What [generate] leaves behind: the world, the proxy it created (if
    it got that far) and the exception that reaches the caller (if any). *)
Record outcome := mkOutcome {
  final_world : world;
  final_ports : option PortProxyBase;
  raised : option exn;
}.

Definition generate (b : Builder) (st : store) (w : world) : outcome :=
  if decide (length (generators b) = 1) then
    match generators b with
    | (_, g) :: _ =>
        let w := mkWorld (current_block_context w) (trace w) true
                   (terminator w) in
        let args := block_arg <$> seq 0 (length (inputs b st)) in
        let ports := PortProxyBase_init args b st in
        match GeneratorCtxt_init b ports with
        | Raise e => mkOutcome w (Some ports) (Some e)
        | Ok c =>
            let '(c, w) := GeneratorCtxt_enter c w in
            let '(w, ports, exc) := generate_body st g w ports in
            let '(w, ports) := GeneratorCtxt_exit c exc w ports in
            mkOutcome w (Some ports) exc
        end
    | [] => mkOutcome w None (Some AssertionError)
    end
  else mkOutcome w None (Some AssertionError).

Definition has_clk (c : GeneratorCtxt) : bool :=
  match clk c with Some _ => true | None => false end.

(** The proxy [generate] builds for [b]. *)
Definition fresh_ports (b : Builder) (st : store) : PortProxyBase :=
  PortProxyBase_init (block_arg <$> seq 0 (length (inputs b st))) b st.

(** The world in which the generation routine runs: the entry block
    added, the scopes of [c] entered. *)
Definition entered (c : GeneratorCtxt) (w : world) : world :=
  (GeneratorCtxt_enter c
     (mkWorld (current_block_context w) (trace w) true (terminator w))).2.

End generation.

(** ** [ModuleBuilder.instantiate] *)

Section instantiation.
Context {Ty Val Const Attr PyObj : Type} `{EqDecision Ty}.

Local Abbreviation Builder := (@ModuleLikeBuilderBase Ty Val Const Attr PyObj).
Local Abbreviation store := (ref → @ModuleDecl Ty).

Variable type_call : Ty → Const → result Val.
(** [create_const_zero(port.type).value]. *)
Variable create_const_zero : Ty → Val.

(** What [hw.InstanceBuilder] is given.  Materializing the callee
    ([self.circt_mod]), building the instance operation and verifying it
    are the IR library's business and are taken to succeed. *)
Record Instance := mkInstance {
  inst_module : string;
  inst_name : string;
  inst_inputs : list (string * Val);
  inst_parameters : list (string * Attr);
}.

(** [port_input_lookup = {port.name: port for port in self.inputs}]. *)
Definition port_input_lookup (b : Builder) (st : store)
    : list (option string * @ModuleDecl Ty) :=
  dict_of_list ((λ port, (port_name port, port)) <$> inputs b st).

(** The body of [for name, signal in inputs.items()]. *)
Definition resolve_input (b : Builder)
    (lookup : list (option string * @ModuleDecl Ty))
    (circt_inputs : list (string * Val))
    (entry : string * @py_value Ty Val Const) : result (list (string * Val)) :=
  let '(name, signal) := entry in
  match dict_get lookup (Some name) with
  | None => Raise (PortError_not_found name)
  | Some port =>
      match signal with
      | VSignal sg =>
          if decide (sig_type sg ≠ port_type port)
          then Raise (ValueError_wrong_type name)
          else Ok (dict_set circt_inputs name (sig_value sg))
      | VNone =>
          if 0 <? length (generators b)
          then Raise (PortError_none name)
          else Ok (dict_set circt_inputs name
                     (create_const_zero (port_type port)))
      | VLiteral c =>
          v ← type_call (port_type port) c;
          Ok (dict_set circt_inputs name v)
      end
  end.

Definition resolve_inputs (b : Builder) (st : store)
    (supplied : list (string * @py_value Ty Val Const))
    : result (list (string * Val)) :=
  for_each (resolve_input b (port_input_lookup b st)) [] supplied.

(** [missing]: the keys of [port_input_lookup] not in [circt_inputs]. *)
Definition missing_inputs (b : Builder) (st : store)
    (circt_inputs : list (string * Val)) : list (option string) :=
  filter (λ name, name ∉ Some <$> dict_keys circt_inputs)
         (dict_keys (port_input_lookup b st)).

Definition instantiate (b : Builder) (st : store)
    (supplied : list (string * @py_value Ty Val Const))
    (instance_name : string) : result Instance :=
  circt_inputs ← resolve_inputs b st supplied;
  let missing := missing_inputs b st circt_inputs in
  if 0 <? length missing then
    match mapM id missing with
    | Some names => Raise (ValueError_missing names)
    | None => Raise TypeError_join
    end
  else
    let params :=
      match parameters b with
      | Some ps => if length (generators b) =? 0 then ps else []
      | None => []
      end in
    Ok (mkInstance (modcls_name b) instance_name circt_inputs params).

End instantiation.

(** ** [modparams] and the module cache *)

(** [inspect.Parameter.kind]. *)
Inductive param_kind :=
  | POSITIONAL_ONLY | POSITIONAL_OR_KEYWORD | VAR_POSITIONAL
  | KEYWORD_ONLY | VAR_KEYWORD.

Section parameterization.
Context {Ty Val Const Attr PyObj : Type} `{Countable Attr}.

Local Abbreviation Builder := (@ModuleLikeBuilderBase Ty Val Const Attr PyObj).
Local Abbreviation DictAttr := (list (string * Attr)).

(** [_obj_to_attribute] on a dictionary of parameter values. *)
Variable obj_to_attribute : list (string * PyObj) → DictAttr.

Record sig_parameter := mkParameter {
  param_name : string;
  kind : param_kind;
  default : option PyObj;
}.

(** What running the body of a parameterization function on bound
    arguments gives: a freshly defined class that is a [Module] (with its
    builder), an object that is not, or an exception. *)
Inductive factory_result :=
  | FModule (b : Builder)
  | FNotModule
  | FRaise (e : exn).

(** A Python function: its identity, its signature and its body. *)
Record py_function := mkFunction {
  func_id : nat;
  sig : list sig_parameter;
  call : list (string * PyObj) → factory_result;
}.

(** [sig.bind] on the positional and keyword arguments of the call,
    followed by [apply_defaults()]: the arguments in the order of the
    signature. *)
Fixpoint bind (params : list sig_parameter) (args : list PyObj)
    (kwargs : list (string * PyObj)) : result (list (string * PyObj)) :=
  match params with
  | [] =>
      match args, kwargs with
      | [], [] => Ok []
      | _, _ => Raise TypeError_bind
      end
  | p :: ps =>
      match kind p, args with
      | (VAR_POSITIONAL | VAR_KEYWORD), _ => Raise TypeError_bind
      | (POSITIONAL_ONLY | POSITIONAL_OR_KEYWORD), a :: args' =>
          rest ← bind ps args' kwargs; Ok ((param_name p, a) :: rest)
      | KEYWORD_ONLY, _ :: _ => Raise TypeError_bind
      | k, [] =>
          match (if k is POSITIONAL_ONLY then None
                 else dict_get kwargs (param_name p)), default p with
          | Some v, _ =>
              rest ← bind ps []
                       (filter (λ kv, kv.1 ≠ param_name p) kwargs);
              Ok ((param_name p, v) :: rest)
          | None, Some d =>
              rest ← bind ps [] kwargs; Ok ((param_name p, d) :: rest)
          | None, None => Raise TypeError_bind
          end
      end
  end.

(** [modparams.__init__]: variadic parameters are refused. *)
Definition modparams_init (func : py_function) : result py_function :=
  _ ← for_each (λ (_ : unit) p,
         match kind p with
         | VAR_KEYWORD | VAR_POSITIONAL => Raise TypeError_signature
         | _ => Ok ()
         end) () (sig func);
  Ok func.

(** [_get_module_cache_key]: [params] is converted unless it already is
    a [DictAttr]. *)
Definition _get_module_cache_key (func : py_function)
    (params : list (string * PyObj) + DictAttr) : nat * DictAttr :=
  (func_id func,
   match params with inl d => obj_to_attribute d | inr a => a end).

(** The process-wide state: [_MODULE_CACHE], the class objects created
    so far (a class is named by its position) and, as a record of what
    happened, every execution of a factory body: the cache key of the call
    and whether the body returned a [Module] class. *)
Record cache_state := mkCache {
  _MODULE_CACHE : gmap (nat * DictAttr) ref;
  classes : list Builder;
  executions : list (nat * DictAttr * bool);
}.

Definition empty_cache : cache_state := mkCache ∅ [] [].

Definition executed (st : cache_state) (cache_key : nat * DictAttr)
    (returned_module : bool) : cache_state :=
  mkCache (_MODULE_CACHE st) (classes st)
    (executions st ++ [(cache_key, returned_module)]).

(** [modparams.__call__]. *)
Definition modparams_call (self : py_function) (st : cache_state)
    (args : list PyObj) (kwargs : list (string * PyObj))
    : cache_state * result ref :=
  match bind (sig self) args kwargs with
  | Raise e => (st, Raise e)
  | Ok arguments =>
      let params := filter (λ nv, String.prefix "_" nv.1 = false) arguments in
      let cache_key := _get_module_cache_key self (inl params) in
      match _MODULE_CACHE st !! cache_key with
      | Some cls => (st, Ok cls)
      | None =>
          match call self arguments with
          | FRaise e => (executed st cache_key false, Raise e)
          | FNotModule =>
              (executed st cache_key false, Raise ValueError_not_module)
          | FModule b =>
              let st := executed st cache_key true in
              let cls := length (classes st) in
              let b := mkBuilder (modcls_name b) (module_name b) (cls_dct b)
                         (ports b) (clocks b) (resets b) (generators b)
                         (constants b) (Some cache_key.2) (attributes b) in
              (mkCache (<[ cache_key := cls ]> (_MODULE_CACHE st))
                 (classes st ++ [b]) (executions st), Ok cls)
          end
      end
  end.

(** A sequence of calls, each to some decorated function. *)
Fixpoint run_calls (st : cache_state)
    (calls : list (py_function * list PyObj * list (string * PyObj)))
    : cache_state * list (result ref) :=
  match calls with
  | [] => (st, [])
  | (f, args, kwargs) :: rest =>
      let '(st, r) := modparams_call f st args kwargs in
      let '(st, rs) := run_calls st rest in
      (st, r :: rs)
  end.

(** The cache key a call computes, when its arguments bind. *)
Definition call_key (f : py_function) (args : list PyObj)
    (kwargs : list (string * PyObj)) : option (nat * DictAttr) :=
  match bind (sig f) args kwargs with
  | Ok arguments =>
      Some (_get_module_cache_key f
              (inl (filter (λ nv, String.prefix "_" nv.1 = false) arguments)))
  | Raise _ => None
  end.

(** How often the body of a factory ran for a cache key, and how often
    it returned a [Module] class. *)
Definition times_executed (st : cache_state) (key : nat * DictAttr) : nat :=
  length (filter (λ e, e.1 = key) (executions st)).

Definition times_defined (st : cache_state) (key : nat * DictAttr) : nat :=
  length (filter (λ e, e = (key, true)) (executions st)).

(** The executions that returned a [Module] class, per key: there is at
    most one, and none for a key that is not cached. *)
Definition defined_once (st : cache_state) : Prop :=
  ∀ k, times_defined st k ≤ 1 ∧
       (_MODULE_CACHE st !! k = None → times_defined st k = 0).

End parameterization.

(** ** What a scan registers *)

Section scan_summary.
Context {Ty Val Const PyObj : Type}.

(** The entries of a class dictionary that the scanner treats as ports:
    marker objects under a name that neither starts with an underscore
    nor is [Attributes]. *)
Definition registered (d : list (string * @class_attr Ty Val Const PyObj))
    : list (string * ref) :=
  omap (λ e, if String.prefix "_" e.1 then None
             else if decide (e.1 = "Attributes") then None
             else match e.2 with APort r => Some (e.1, r) | _ => None end) d.

(** The entries of an [Attributes] group that the comprehensions of
    [scan_cls] accept: tuples of two items or more and bare names, with
    keys that can be hashed. *)
Definition well_formed (m : @mod_attr PyObj) : bool :=
  match m with
  | AttrTuple _ _ | AttrFlag _ => true
  | AttrShortTuple | AttrUnhashableKey _ | AttrUnhashable => false
  end.


(** The class dictionaries on which the scan does not raise: every
    [Attributes] entry under a public name can be iterated over and holds
    entries of these two kinds only. *)
Definition scannable (d : list (string * @class_attr Ty Val Const PyObj)) : bool :=
  forallb (λ e, if String.prefix "_" e.1 then true
                else if decide (e.1 = "Attributes")
                then match e.2 with
                     | AIterable items => forallb well_formed items
                     | _ => false
                     end
                else true) d.

(** The assignments [attr.idx = ...; attr.name = ...] the scanner makes
    for these entries, in order, counting inputs from [n_in] and outputs
    from [n_out]. *)
Fixpoint writes (st : ref → @ModuleDecl Ty) (n_in n_out : nat)
    (entries : list (string * ref)) : list (ref * @ModuleDecl Ty) :=
  match entries with
  | [] => []
  | (n, r) :: es =>
      if isinstance_Input (port_class (st r)) then
        (r, mkDecl (port_class (st r)) (port_type (st r)) (Some n_in) (Some n))
          :: writes st (n_in + 1) n_out es
      else
        (r, mkDecl (port_class (st r)) (port_type (st r)) (Some n_out) (Some n))
          :: writes st n_in (n_out + 1) es
  end.

Definition apply_writes (ws : list (ref * @ModuleDecl Ty)) (st : ref → @ModuleDecl Ty)
    : ref → @ModuleDecl Ty :=
  fold_left (λ st w, <[ w.1 := w.2 ]> st) ws st.

(** The input indices the scanner adds to [clock_ports]. *)
Fixpoint clock_indices (st : ref → @ModuleDecl Ty) (n_in : nat)
    (entries : list (string * ref)) : list nat :=
  match entries with
  | [] => []
  | (_, r) :: es =>
      if isinstance_Clock (port_class (st r))
      then n_in :: clock_indices st (n_in + 1) es
      else if isinstance_Input (port_class (st r))
      then clock_indices st (n_in + 1) es
      else clock_indices st n_in es
  end.

(** The specification's invariant: the input ports carry the indices
    0..n_inputs-1 and the output ports 0..n_outputs-1, in the order of
    the port list. *)
Definition dense_indices {Attr} (b : @ModuleLikeBuilderBase Ty Val Const Attr PyObj)
    (st : ref → @ModuleDecl Ty) : Prop :=
  port_idx <$> inputs b st = Some <$> seq 0 (length (inputs b st)) ∧
  port_idx <$> outputs b st = Some <$> seq 0 (length (outputs b st)).

(** Two stores that agree on the class and type of every marker. *)
Definition same_kinds (st1 st2 : ref → @ModuleDecl Ty) : Prop :=
  ∀ r, port_class (st1 r) = port_class (st2 r) ∧
       port_type (st1 r) = port_type (st2 r).

(** What the loop of [scan_cls] has done to its locals and to the store
    once it has run over [l] without raising. *)
Definition scan_post {Attr} (l : list (string * @class_attr Ty Val Const PyObj))
    (s s' : @scan_state Ty Val Const Attr PyObj) : Prop :=
  s_ports s' = (s_ports s ++ (registered l).*2)%list ∧
  s_store s' =
    apply_writes
      (writes (s_store s) (s_num_inputs s) (s_num_outputs s) (registered l))
      (s_store s) ∧
  s_clock_ports s' =
    list_to_set (clock_indices (s_store s) (s_num_inputs s) (registered l))
    ∪ s_clock_ports s.

End scan_summary.

(** ** Display names as the specification words them *)

(** Each maximal run of non-alphanumeric characters becomes one
    underscore; [in_run] tells whether the previous character already
    belonged to such a run. *)
Fixpoint collapse_nonalnum (in_run : bool) (l : list ascii) : list ascii :=
  match l with
  | [] => []
  | c :: l' =>
      if isalnum c then c :: collapse_nonalnum false l'
      else if in_run then collapse_nonalnum true l'
      else underscore :: collapse_nonalnum true l'
  end.

Section display_names.
Context {Attr : Type}.
Variable val_str : Attr → string.

(** The derived name in the words of the specification: the base name,
    each parameter as [_name+valuestring] in sorted order, every
    non-alphanumeric character collapsed to a single underscore, leading
    and trailing underscores trimmed. *)
Definition spec_display_name (base : string) (params : list (string * Attr))
    : string :=
  string_of_list_ascii
    (strip underscore
       (collapse_nonalnum false
          (list_ascii_of_string (with_params val_str base params)))).

(** The same with what the code does besides: the substring [!hw.] is
    removed and the characters of [dropped_chars] are deleted before the
    runs are collapsed. *)
Definition display_name (base : string) (params : list (string * Attr))
    : string :=
  string_of_list_ascii
    (strip underscore
       (collapse_nonalnum false
          (filter (λ c, is_dropped c = false)
             (list_ascii_of_string
                (str_replace "!hw." "" (with_params val_str base params)))))).

End display_names.

(** ** What a generation leaves behind *)

Definition event_scope (e : event) : scope :=
  match e with Enter s | Exit s _ => s end.

(** The calls [GeneratorCtxt.__enter__] makes; the clock scope is entered
    only when there is an implicit clock. *)
Definition enter_events (has_clk : bool) : list event :=
  [Enter SBlockContext; Enter SBackedgeBuilder; Enter SInsertionPoint;
   Enter SLocation] ++ (if has_clk then [Enter SClock] else []).

(** The calls [GeneratorCtxt.__exit__] makes, each with the exception
    leaving the block. *)
Definition exit_events (has_clk : bool) (exc : option exn) : list event :=
  (if has_clk then [Exit SClock exc] else []) ++
  [Exit SLocation exc; Exit SInsertionPoint exc; Exit SBackedgeBuilder exc;
   Exit SBlockContext exc].

Section generation_summary.
Context {Ty Val : Type}.

(** The names of the output ports whose slot is still empty, in slot
    order. *)
Definition unassigned_outputs (outs : list (@ModuleDecl Ty))
    (values : list (option (@Signal Ty Val))) : list (option string) :=
  port_name <$> (filter (λ pv, pv.2 = None) (zip outs values)).*1.

(** The number of clock ports of a definition. *)
Definition n_clock_ports {Const Attr PyObj}
    (b : @ModuleLikeBuilderBase Ty Val Const Attr PyObj)
    (st : ref → @ModuleDecl Ty) : nat :=
  length (filter (λ p, isinstance_Clock (port_class p) = true) (st <$> ports b)).

(** The block context scope has been closed: the context that was
    current before the generation is current again. *)
Definition block_context_closed (before after : @world Val) : Prop :=
  current_block_context after = current_block_context before.

(** No module body is left without its terminator. *)
Definition no_unterminated_body (w : @world Val) : Prop :=
  entry_block w = true → terminator w ≠ None.

End generation_summary.

(** ** Concrete definitions *)

(** Hardware types are bit widths, IR values and literals are numbers,
    attributes and other Python objects are their text. *)
Module Examples.

Definition Builder := @ModuleLikeBuilderBase nat nat nat string string.

(** Markers 0..2 are inputs (0 a clock), marker 3 is an output, all
    eight bits wide and not scanned yet. *)
Definition markers : ref → @ModuleDecl nat := λ r,
  mkDecl (match r with 0 => Clock | 1 | 2 => Input | _ => Output end)
    8 None None.

(** [sum = lhs + rhs]: the routine assigns its only output. *)
Definition build : @Generator nat nat nat :=
  mkGenerator ([SetOutput 0 (VSignal (mkSignal 8 100))], ReturnNone) 0.

(** A routine that returns without assigning anything. *)
Definition build_nothing : @Generator nat nat nat :=
  mkGenerator ([], ReturnNone) 0.

Definition declare (cls_name : string)
    (dct : list (string * @class_attr nat nat nat string)) : Builder :=
  mkBuilder cls_name None dct [] ∅ ∅ [] [] None [].

Definition scan (b : Builder) : result (Builder * (ref → @ModuleDecl nat)) :=
  scan_cls (λ o : string, o) "unit" b markers.

Definition scanned_builder (b : Builder) : Builder :=
  match scan b with Ok (b', _) => b' | Raise _ => b end.

Definition scanned_store (b : Builder) : ref → @ModuleDecl nat :=
  match scan b with Ok (_, st') => st' | Raise _ => markers end.

Definition adder_dct (g : @Generator nat nat nat)
    : list (string * @class_attr nat nat nat string) :=
  [("clk", APort 0); ("lhs", APort 1); ("_scratch", APort 5);
   ("rhs", APort 2); ("sum", APort 3); ("build", AGenerator g);
   ("Attributes", AIterable [AttrFlag "keep"; AttrTuple "k" "v"])].

Definition Adder : Builder := declare "Adder" (adder_dct build).

(** The same marker object bound to two names: [a = Input(...); b = a]. *)
Definition Aliased : Builder :=
  declare "Aliased" [("a", APort 1); ("b", APort 1)].

(** The same class with a routine that assigns nothing. *)
Definition Silent : Builder := declare "Adder" (adder_dct build_nothing).

(** Literals convert to themselves, the IR builder accepts every
    terminator, and the arguments of the entry block are numbered from
    1000. *)
Definition type_call : nat → nat → result nat := λ _ c, Ok c.
Definition OutputOp_error : list nat → option exn := λ _, None.
Definition block_arg : nat → nat := λ i, 1000 + i.

Definition create_const_zero : nat → nat := λ _, 0.

(** A primitive: the same ports as the adder, no generation routine. *)
Definition Primitive : Builder :=
  declare "Primitive"
    [("clk", APort 0); ("lhs", APort 1); ("rhs", APort 2); ("sum", APort 3)].

(** Scan the class, then instantiate it. *)
Definition inst (b : Builder) (supplied : list (string * @py_value nat nat nat))
    : result (@Instance nat string) :=
  instantiate type_call create_const_zero
    (scanned_builder b) (scanned_store b) supplied "inst".

(** An eight-bit signal (what the ports expect) and a nine-bit one. *)
Definition byte (v : nat) : @py_value nat nat nat := VSignal (mkSignal 8 v).
Definition wide (v : nat) : @py_value nat nat nat := VSignal (mkSignal 9 v).

(** [def make_adder(width, _debug="no")]: a parameterization function
    that refuses the width 0 and otherwise defines a fresh adder class;
    and one that returns something that is no [Module] class. *)
Definition width_parameter : @sig_parameter string :=
  mkParameter "width" POSITIONAL_OR_KEYWORD None.
Definition debug_parameter : @sig_parameter string :=
  mkParameter "_debug" POSITIONAL_OR_KEYWORD (Some "no").

Definition make_adder : @py_function nat nat nat string string :=
  mkFunction 7 [width_parameter; debug_parameter]
    (λ args, match dict_get args "width" with
             | Some "0" => FRaise (UserException 0)
             | _ => FModule Adder
             end).

Definition make_nothing : @py_function nat nat nat string string :=
  mkFunction 8 [width_parameter] (λ _, FNotModule).

(** Parameter values are their own attributes. *)
Definition to_attr (d : list (string * string)) : list (string * string) := d.

(** The state after a sequence of calls made from the empty cache, and
    what the calls returned. *)
Definition after (calls : list (@py_function nat nat nat string string
                                 * list string * list (string * string))) :=
  run_calls to_attr empty_cache calls.

(** Nothing is being generated: no current block context, no body. *)
Definition idle : @world nat := mkWorld None [] false None.

(** Scan the class, then generate it. *)
Definition run (b : Builder) : @outcome nat nat nat string string :=
  generate type_call OutputOp_error block_arg
    (scanned_builder b) (scanned_store b) idle.

(** A parameterized definition with a generation routine and no
    [module_name]: its parameter [w] renders as a bracketed list. *)
Definition Widths : Builder :=
  mkBuilder "M" None [("build", AGenerator build)] [] ∅ ∅
    [("build", build)] [] (Some [("w", "[8]")]) [].

(** The parameters [{a: 1, b: 2}] in the two orders. *)
Definition AB : Builder :=
  mkBuilder "Adder" None [("build", AGenerator build)] [] ∅ ∅
    [("build", build)] [] (Some [("a", "1"); ("b", "2")]) [].
Definition BA : Builder :=
  mkBuilder "Adder" None [("build", AGenerator build)] [] ∅ ∅
    [("build", build)] [] (Some [("b", "2"); ("a", "1")]) [].

End Examples.

(** ** Identifiers *)

(** A name that can stand as an identifier in the emitted design:
    alphanumeric characters and underscores only, no underscore at either
    end and no two underscores in a row. *)
Fixpoint no_double_underscore (l : list ascii) : Prop :=
  match l with
  | c1 :: (c2 :: _) as l' =>
      ¬ (c1 = underscore ∧ c2 = underscore) ∧ no_double_underscore l'
  | _ => True
  end.

Definition clean_chars (l : list ascii) : Prop :=
  Forall (λ c, isalnum c = true ∨ c = underscore) l ∧
  head l ≠ Some underscore ∧ last l ≠ Some underscore ∧
  no_double_underscore l.

Definition clean_name (s : string) : Prop :=
  clean_chars (list_ascii_of_string s).

(** ** Sequences of [uniquify_symbol] calls *)

(** [uniquify_symbol] called on one block context for each symbol of
    [syms] in turn: the names returned, and the context afterwards. *)
Fixpoint uniquify_all (bc : BlockContext._BlockContext) (syms : list string)
    : option (list string * BlockContext._BlockContext) :=
  match syms with
  | [] => Some ([], bc)
  | sym :: syms' =>
      match BlockContext.uniquify_symbol bc sym with
      | Some (ret, bc') =>
          match uniquify_all bc' syms' with
          | Some (rets, bc'') => Some (ret :: rets, bc'')
          | None => None
          end
      | None => None
      end
  end.

(** ** [ModuleLikeBuilderBase.__init__] *)

Section builder_init.
Context {Ty Val Const Attr PyObj : Type}.
(** [hw.OutputFileAttr.get_from_filename(ir.StringAttr.get(name), False,
    True)]. *)
Variable output_file_attr : string → Attr.

(** The builder [__init__] makes for a class: no ports, clocks, resets
    or parameters yet, and the one attribute [output_file], named after the
    class.  [module_name] is the class attribute of that name, if any. *)
Definition ModuleLikeBuilderBase_init (cls_name : string)
    (module_name : option string)
    (cls_dct : list (string * @class_attr Ty Val Const PyObj))
    : @ModuleLikeBuilderBase Ty Val Const Attr PyObj :=
  mkBuilder cls_name module_name cls_dct [] ∅ ∅ [] [] None
    [("output_file", output_file_attr (cls_name +:+ ".sv"))].

End builder_init.

(** ** More of the port proxy, and [go] *)

(** What [_get_input] returns: [ClockSignal(val, ClockType())] or
    [_FromCirctValue(val)]. *)
Inductive input_signal {Val : Type} :=
  | ClockSignal (val : Val)
  | FromCirctValue (val : Val).

(** The outcome of [_get_input]: a signal, one of the exceptions above,
    or the [TypeError] of subscripting [None]. *)
Inductive get_input_result {Val : Type} :=
  | InputOk (s : @input_signal Val)
  | InputRaise (e : exn)
  | InputTypeError.

(** The attributes [create_port_proxy] gives the proxy class: a property
    with a getter only for each input port, a property with a setter only
    for each output port, and the two entries it adds last. *)
Inductive proxy_attr :=
  | InputProperty (idx : nat)     (* property(lambda self, idx=port.idx: ...) *)
  | OutputProperty (idx : nat)    (* property(fget=None, fset=fset) *)
  | OutputPortLookup (lookup : list (string * nat))
  | ProxyName (name : string).

(** [type(self.modcls.__name__ + "Ports", (PortProxyBase,), proxy_attrs)]. *)
Record PortProxyClass := mkProxyClass {
  proxy_cls_name : string;
  proxy_attrs : list (string * proxy_attr);
}.

Section port_proxy.
Context {Ty Val Const Attr PyObj : Type} `{EqDecision Ty}.

Local Abbreviation Builder := (@ModuleLikeBuilderBase Ty Val Const Attr PyObj).
Local Abbreviation store := (ref → @ModuleDecl Ty).
Local Abbreviation Proxy := (@PortProxyBase Ty Val Const Attr PyObj).

Variable type_call : Ty → Const → result Val.

Definition _get_input (self : Proxy) (idx : nat) : @get_input_result Val :=
  match _block_args self with
  | None => InputTypeError
  | Some block_args =>
      match block_args !! idx with
      | None => InputRaise IndexError
      | Some val =>
          match _builder self with
          | None => InputRaise AttributeError
          | Some b =>
              if decide (idx ∈ clocks b) then InputOk (ClockSignal val)
              else InputOk (FromCirctValue val)
          end
      end
  end.

(** The class attribute [_output_port_lookup], as an instance reads it. *)
Definition output_port_lookup (cls : PortProxyClass)
    : result (list (string * nat)) :=
  match dict_get (proxy_attrs cls) "_output_port_lookup" with
  | Some (OutputPortLookup lookup) => Ok lookup
  | _ => Raise AttributeError
  end.

(** [_set_outputs]: the entries of [signal_dict] in order, until one
    raises; the proxy keeps what was assigned before. *)
Fixpoint _set_outputs (cls : PortProxyClass) (st : store) (self : Proxy)
    (signal_dict : list (string * @py_value Ty Val Const))
    : Proxy * option exn :=
  match signal_dict with
  | [] => (self, None)
  | (name, signal) :: rest =>
      match output_port_lookup cls with
      | Raise e => (self, Some e)
      | Ok lookup =>
          match dict_get lookup name with
          | None => (self, Some (PortError_no_output name))
          | Some idx =>
              match _set_output type_call st self idx signal with
              | Ok self' => _set_outputs cls st self' rest
              | Raise e => (self, Some e)
              end
          end
      end
  end.

(** The two loops of [create_port_proxy] and the entries added after
    them. *)
Definition input_property (attrs : list (string * proxy_attr))
    (port : @ModuleDecl Ty) : result (list (string * proxy_attr)) :=
  match port_name port with
  | None => Raise AssertionError
  | Some name =>
      match port_idx port with
      | None => Raise AssertionError
      | Some idx => Ok (dict_set attrs name (InputProperty idx))
      end
  end.

Definition output_property
    (acc : list (string * proxy_attr) * list (string * nat))
    (port : @ModuleDecl Ty)
    : result (list (string * proxy_attr) * list (string * nat)) :=
  match port_name port with
  | None => Raise AssertionError
  | Some name =>
      match port_idx port with
      | None => Raise AssertionError
      | Some idx =>
          Ok (dict_set acc.1 name (OutputProperty idx), dict_set acc.2 name idx)
      end
  end.

Definition create_port_proxy (b : Builder) (st : store) : result PortProxyClass :=
  proxy_attrs ← for_each input_property [] (inputs b st);
  acc ← for_each output_property (proxy_attrs, []) (outputs b st);
  let proxy_attrs :=
    dict_set acc.1 "_output_port_lookup" (OutputPortLookup acc.2) in
  let proxy_attrs := dict_set proxy_attrs "_name" (ProxyName (modcls_name b)) in
  Ok (mkProxyClass (modcls_name b +:+ "Ports") proxy_attrs).

(** [add_external_port_accessors]: the dictionary [named_outputs] that
    the accessor it installs on the class closes over. *)
Definition add_external_port_accessors (b : Builder) (st : store)
    : result (list (string * @ModuleDecl Ty)) :=
  for_each (λ named_outputs port,
      match port_name port with
      | None => Raise AssertionError
      | Some name => Ok (dict_set named_outputs name port)
      end) [] (outputs b st).

End port_proxy.

Section go.
Context {Ty Val Const Attr PyObj : Type}.
Variable obj_to_attribute : PyObj → Attr.
Variable unit_attr : Attr.

(** [go]: the scan, then the proxy class (kept as
    [generator_port_proxy]) and the accessor for the outputs. *)
Definition go (b : @ModuleLikeBuilderBase Ty Val Const Attr PyObj)
    (st : ref → @ModuleDecl Ty)
    : result (@ModuleLikeBuilderBase Ty Val Const Attr PyObj
              * (ref → @ModuleDecl Ty) * PortProxyClass
              * list (string * @ModuleDecl Ty)) :=
  scanned ← scan_cls obj_to_attribute unit_attr b st;
  generator_port_proxy ← create_port_proxy scanned.1 scanned.2;
  named_outputs ← add_external_port_accessors scanned.1 scanned.2;
  Ok (scanned.1, scanned.2, generator_port_proxy, named_outputs).

End go.

(** ** [Module.__init__] *)

Section module_init.
Context {Ty Val Const Attr PyObj AppID : Type} `{EqDecision Ty}.

Local Abbreviation Builder := (@ModuleLikeBuilderBase Ty Val Const Attr PyObj).
Local Abbreviation store := (ref → @ModuleDecl Ty).

Variable type_call : Ty → Const → result Val.
Variable create_const_zero : Ty → Val.

(** An instance of a [Module] class once [__init__] has run: the
    instance operation, and the attribute [AppID.AttributeName] set on it
    when an [appid] was given ([AppID] stands for [appid._appid]). *)
Record ModuleInstance := mkModuleInstance {
  inst : @Instance Val Attr;
  inst_appid : option AppID;
}.

(** [Module.__init__] for a class built by [ModuleBuilder], whose
    [instantiate] has the parameters [module_inst], [inputs] and
    [instance_name]: of the two names the loop over the signature looks for
    it finds [instance_name] only.  [instance_name_attr] is the attribute
    [instance_name] of the object, when it has one.  Registering the new
    object with the current [System] is left out.  The result is [None]
    only when the loop of [uniquify_symbol] does not come to an end. *)
Definition Module_init (b : Builder) (st : store)
    (instance_name_attr : option string)
    (instance_name : option string) (appid : option AppID)
    (inputs : list (string * @py_value Ty Val Const)) (w : @world Val)
    : option (@world Val * result ModuleInstance) :=
  let instance_name :=
    match instance_name with
    | Some n => n
    | None =>
        match instance_name_attr with
        | Some n => n
        | None => modcls_name b
        end
    end in
  match current_block_context w with
  | None => Some (w, Raise AssertionError)
  | Some bc =>
      match BlockContext.uniquify_symbol bc instance_name with
      | None => None
      | Some (sym, bc') =>
          Some (mkWorld (Some bc') (trace w) (entry_block w) (terminator w),
                i ← instantiate type_call create_const_zero b st inputs sym;
                Ok (mkModuleInstance i appid))
      end
  end.

End module_init.

(** ** Metadata and the module operations *)

(** The dataclass [Metadata]: every field is optional. *)
Record Metadata {PyObj : Type} := mkMetadata {
  md_name : option string;
  md_repo : option string;
  md_commit_hash : option string;
  md_version : option string;
  md_summary : option string;
  md_misc : option (list (string * PyObj));
}.
Arguments mkMetadata {PyObj} _ _ _ _ _ _.

(** What [add_metadata] is handed as [meta]: [None], a [Metadata]
    object, or some other object. *)
Inductive metadata_arg {PyObj : Type} :=
  | MetaNone
  | MetaObject (m : @Metadata PyObj)
  | MetaOther.

(** What the [try] block of [add_metadata] finds when it asks GitPython
    about the file that defines the class: no answer (the package or the
    repository is missing, or the class has no module: an exception, or
    nothing to assign), or a repository whose origin URL and head commit
    can each be read or raise on reading. *)
Inductive git_lookup :=
  | GitUnavailable
  | GitRepo (url : option string) (hexsha : option string).

Section operations.
Context {Ty Val Const Attr PyObj IrTy : Type}.

Local Abbreviation Builder := (@ModuleLikeBuilderBase Ty Val Const Attr PyObj).
Local Abbreviation store := (ref → @ModuleDecl Ty).

(** [_obj_to_attribute], [obj_to_typed_attribute], [ir.StringAttr.get],
    a [DictAttr] taken as an attribute, [hw.OutputFileAttr.
    get_from_filename], the type of an attribute ([i.attr.type]) and the IR
    type of a PyCDE type ([p.type._type]). *)
Variable obj_to_attribute : PyObj → Attr.
Variable obj_to_typed_attribute : PyObj → Ty → Attr.
Variable string_attr : string → Attr.
Variable dict_attr : list (string * Attr) → Attr.
Variable output_file_attr : string → Attr.
Variable attr_type : Attr → IrTy.
Variable _type : Ty → IrTy.
Variable val_str : Attr → string.

(** [esi.SymbolMetadataOp] as [add_metadata] builds it, with the
    attributes the loop over [meta.misc] assigns on it afterwards. *)
Record SymbolMetadataOp := mkSymbolMetadataOp {
  op_symbolRef : string;
  op_name : string;
  op_repo : option string;
  op_commitHash : option string;
  op_version : option string;
  op_summary : option string;
  op_misc : list (string * Attr);
}.

(** The operations put into the body of the system's module. *)
Inductive sys_op :=
  | OpSymbolMetadata (op : SymbolMetadataOp)
  | OpSymbolConstants (symbolRef : string) (constants : list (string * Attr)).

(** [hw.HWModuleOp] and [hw.HWModuleExternOp] as [create_op] builds
    them; locations and insertion points are left out. *)
Inductive module_op :=
  | HWModuleOp (symbol : string)
      (input_ports output_ports : list (option string * IrTy))
      (attributes : list (string * Attr))
  | HWModuleExternOp (symbol : string)
      (input_ports output_ports : list (option string * IrTy))
      (parameters : list (string * IrTy))
      (attributes : list (string * Attr)).

(** The [try] block: the repository and the commit are looked up only
    when the metadata names neither; whatever is raised is swallowed, and
    what was assigned before stays. *)
Definition git_fill (git : git_lookup) (meta : @Metadata PyObj) : @Metadata PyObj :=
  match md_repo meta, md_commit_hash meta with
  | None, None =>
      match git with
      | GitRepo (Some url) hexsha =>
          mkMetadata (md_name meta) (Some url)
            (match hexsha with Some h => Some h | None => md_commit_hash meta end)
            (md_version meta) (md_summary meta) (md_misc meta)
      | _ => meta
      end
  | _, _ => meta
  end.

(** [add_metadata] either raises its [TypeError] or fills in the
    metadata object (in place: the object is returned as it is afterwards)
    and adds the operation.  [doc] is the docstring of the class. *)
Inductive add_metadata_result :=
  | MetadataTypeError
  | MetadataAdded (meta : @Metadata PyObj) (op : SymbolMetadataOp).

Definition add_metadata (b : Builder) (doc : option string) (git : git_lookup)
    (symbol : string) (meta : @metadata_arg PyObj) : add_metadata_result :=
  match meta with
  | MetaOther => MetadataTypeError
  | _ =>
      let meta :=
        match meta with
        | MetaObject m => m
        | _ => mkMetadata None None None None None None
        end in
      let name :=
        match md_name meta with
        | Some n => n
        | None => modcls_name b
        end in
      let meta := mkMetadata (Some name) (md_repo meta) (md_commit_hash meta)
                    (md_version meta) (md_summary meta) (md_misc meta) in
      let meta := git_fill git meta in
      let meta :=
        match md_summary meta, doc with
        | None, Some d =>
            mkMetadata (md_name meta) (md_repo meta) (md_commit_hash meta)
              (md_version meta) (Some d) (md_misc meta)
        | _, _ => meta
        end in
      MetadataAdded meta
        (mkSymbolMetadataOp symbol name (md_repo meta) (md_commit_hash meta)
           (md_version meta) (md_summary meta)
           (match md_misc meta with
            | Some misc =>
                fold_left (λ attrs kv, dict_set attrs kv.1 (obj_to_attribute kv.2))
                  misc []
            | None => []
            end))
  end.

(** What [create_op] leaves behind: the [TypeError] of [add_metadata],
    or the builder and the metadata object as they are afterwards, the
    operations added to the system's module, and the module operation. *)
Inductive create_op_common_result :=
  | CommonTypeError
  | CommonDone (b : Builder) (meta : @Metadata PyObj) (ops : list sys_op).

(** [create_op_common].  [metadata] is the class attribute of that name,
    when the class has one. *)
Definition create_op_common (b : Builder) (doc : option string)
    (git : git_lookup) (symbol : string)
    (metadata : option (@metadata_arg PyObj)) : create_op_common_result :=
  match add_metadata b doc git symbol
          (match metadata with Some meta => meta | None => MetaNone end) with
  | MetadataTypeError => CommonTypeError
  | MetadataAdded meta op =>
      let constant_ops :=
        if 0 <? length (constants b) then
          [OpSymbolConstants symbol
             (fold_left (λ constants_dict nc,
                  dict_set constants_dict nc.1
                    (obj_to_typed_attribute (value nc.2) (const_type nc.2)))
                (constants b) [])]
        else [] in
      let b :=
        match parameters b with
        | Some ps =>
            mkBuilder (modcls_name b) (module_name b) (cls_dct b) (ports b)
              (clocks b) (resets b) (generators b) (constants b) (parameters b)
              (dict_set (attributes b) "pycde.parameters" (dict_attr ps))
        | None => b
        end in
      CommonDone b meta (OpSymbolMetadata op :: constant_ops)
  end.

Inductive create_op_result :=
  | CreateTypeError
  | Created (b : Builder) (meta : @Metadata PyObj) (ops : list sys_op)
      (op : module_op).

Definition port_list (ports : list (@ModuleDecl Ty))
    : list (option string * IrTy) :=
  (λ p, (port_name p, _type (port_type p))) <$> ports.

(** [ModuleBuilder.create_op]. *)
Definition create_op (b : Builder) (st : store) (doc : option string)
    (git : git_lookup) (symbol : string)
    (metadata : option (@metadata_arg PyObj)) : create_op_result :=
  match create_op_common b doc git symbol metadata with
  | CommonTypeError => CreateTypeError
  | CommonDone b meta ops =>
      if 0 <? length (generators b) then
        Created b meta ops
          (HWModuleOp symbol (port_list (inputs b st)) (port_list (outputs b st))
             (attributes b))
      else
        let paramdecl_list :=
          match parameters b with
          | None => []
          | Some ps => (λ i, (i.1, attr_type i.2)) <$> ps
          end in
        (* self.attributes["verilogName"] = ir.StringAttr.get(self.name) *)
        let b :=
          mkBuilder (modcls_name b) (module_name b) (cls_dct b) (ports b)
            (clocks b) (resets b) (generators b) (constants b) (parameters b)
            (dict_set (attributes b) "verilogName"
               (string_attr (name val_str b))) in
        (* self.attributes = {"output_file": ...} *)
        let b :=
          mkBuilder (modcls_name b) (module_name b) (cls_dct b) (ports b)
            (clocks b) (resets b) (generators b) (constants b) (parameters b)
            [("output_file", output_file_attr "external_modules.sv")] in
        Created b meta ops
          (HWModuleExternOp symbol (port_list (inputs b st))
             (port_list (outputs b st)) paramdecl_list (attributes b))
  end.

(** The ports and the attributes of a module operation. *)
Definition op_input_ports (op : module_op) : list (option string * IrTy) :=
  match op with
  | HWModuleOp _ ins _ _ | HWModuleExternOp _ ins _ _ _ => ins
  end.

Definition op_output_ports (op : module_op) : list (option string * IrTy) :=
  match op with
  | HWModuleOp _ _ outs _ | HWModuleExternOp _ _ outs _ _ => outs
  end.

Definition op_attributes (op : module_op) : list (string * Attr) :=
  match op with
  | HWModuleOp _ _ _ attrs | HWModuleExternOp _ _ _ _ attrs => attrs
  end.

End operations.

(** ** [import_hw_module] *)

(** What [import_hw_module] reads of the operation it is given: its name
    and the names and types of its ports. *)
Record HWModule {IrTy : Type} := mkHWModule {
  hw_name : string;
  input_names : list string;
  input_types : list IrTy;
  output_names : list string;
  output_types : list IrTy;
}.
Arguments mkHWModule {IrTy} _ _ _ _ _.

Section import.
Context {Ty Val Const Attr PyObj IrTy : Type}.

Local Abbreviation Builder := (@ModuleLikeBuilderBase Ty Val Const Attr PyObj).
Local Abbreviation store := (ref → @ModuleDecl Ty).

Variable obj_to_attribute : PyObj → Attr.
Variable unit_attr : Attr.
Variable output_file_attr : string → Attr.
Variable _FromCirctType : IrTy → Ty.

(** One iteration of either loop that fills [modattrs]: [Input(...)] or
    [Output(...)] makes a new marker object, at the next unused reference,
    and the dictionary binds the port's name to it.  Modelled from the
    spec: the marker constructors of [pycde/common.py] take the port's type
    and name and leave the index unset. *)
Definition declare_port (cls : decl_class)
    (acc : list (string * @class_attr Ty Val Const PyObj) * store * ref)
    (nt : string * IrTy)
    : list (string * @class_attr Ty Val Const PyObj) * store * ref :=
  (dict_set acc.1.1 nt.1 (APort acc.2),
   <[ acc.2 := mkDecl cls (_FromCirctType nt.2) None (Some nt.1) ]> acc.1.2,
   acc.2 + 1).

(** The two loops, over the inputs and then over the outputs; [fresh] is
    the first unused reference. *)
Definition import_ports (st : store) (fresh : ref) (m : @HWModule IrTy)
    : list (string * @class_attr Ty Val Const PyObj) * store * ref :=
  fold_left (declare_port Output) (zip (output_names m) (output_types m))
    (fold_left (declare_port Input) (zip (input_names m) (input_types m))
       ([], st, fresh)).

Definition import_modattrs (st : store) (fresh : ref) (m : @HWModule IrTy)
    : list (string * @class_attr Ty Val Const PyObj) :=
  let modattrs := (import_ports st fresh m).1.1 in
  let modattrs := dict_set modattrs "BuilderType" AOther in
  dict_set modattrs "hw_module" AOther.

(** [import_hw_module]: the class is created by [type(name, (Module,),
    modattrs)], so the metaclass makes its builder and calls [go].  No port
    is taken to be called [module_name]. *)
Definition import_hw_module (st : store) (fresh : ref) (m : @HWModule IrTy)
    : result (Builder * store * PortProxyClass * list (string * @ModuleDecl Ty)) :=
  go obj_to_attribute unit_attr
    (ModuleLikeBuilderBase_init output_file_attr (hw_name m) None
       (import_modattrs st fresh m))
    (import_ports st fresh m).1.2.

(** The port names that survive the import: public names other than the
    three that the scanner or [import_hw_module] itself gives a meaning. *)
Definition importable_name (n : string) : Prop :=
  String.prefix "_" n = false ∧ n ≠ "Attributes" ∧
  n ≠ "BuilderType" ∧ n ≠ "hw_module".

End import.

(** ** More concrete definitions *)

Module Designs.

(** A routine that assigns its output and then returns a value. *)
Definition build_and_return : @Generator nat nat nat :=
  mkGenerator ([SetOutput 0 (VSignal (mkSignal 8 100))], ReturnValue) 0.

Definition Returning : Examples.Builder :=
  Examples.declare "Adder" (Examples.adder_dct build_and_return).

(** [def make_variadic(width, *rest)]: a function the decorator refuses. *)
Definition rest_parameter : @sig_parameter string :=
  mkParameter "rest" VAR_POSITIONAL None.

Definition make_variadic : @py_function nat nat nat string string :=
  mkFunction 9 [Examples.width_parameter; rest_parameter]
    (λ _, FModule Examples.Adder).

(** The proxy class of a scanned class. *)
Definition proxy_class (b : Examples.Builder) : PortProxyClass :=
  match create_port_proxy (Examples.scanned_builder b)
          (Examples.scanned_store b) with
  | Ok cls => cls
  | Raise _ => mkProxyClass "" []
  end.

(** The proxy a finished generation leaves behind. *)
Definition cleared : @PortProxyBase nat nat nat string string :=
  mkProxy "Adder" None None None.

(** Scan the class, then create its operation under the class name: the
    class has no [metadata] attribute and no docstring, and there is no
    repository.  IR types are bit widths as well. *)
Definition create (b : Examples.Builder)
    : @create_op_result nat nat nat string string nat :=
  create_op (λ o : string, o) (λ (o : string) (_ : nat), o)
    (λ s : string, s) (λ _ : list (string * string), "{}")
    (λ n : string, n) (λ _ : string, 0) (λ t : nat, t) (λ a : string, a)
    (Examples.scanned_builder b) (Examples.scanned_store b)
    None GitUnavailable (modcls_name b) None.

(** A module to import: two inputs of 8 and 16 bits and an output of 8
    bits; IR types are bit widths too. *)
Definition Imported : @HWModule nat :=
  mkHWModule "Imported" ["a"; "b"] [8; 16] ["y"] [8].

Definition import (m : @HWModule nat) :=
  import_hw_module (Val := nat) (Const := nat) (λ o : string, o) "unit"
    (λ n : string, n) (λ t : nat, t) Examples.markers 10 m.

End Designs.

(* ================================================================== *)
(** * Part II: properties *)
(* ================================================================== *)

(** ** Block context *)

Section block_context_facts.
Import BlockContext.

Lemma suffixed_inj sym : Inj (=) (=) (suffixed sym).
Proof.
  intros m n H. unfold suffixed in H.
  apply (inj (String.append sym)) in H.
  apply (inj (String.append "_")) in H.
  by apply (inj pretty) in H.
Qed.

Lemma string_length_app (s t : string) :
  String.length (s +:+ t) = String.length s + String.length t.
Proof. induction s as [|c s IH]; simpl; [done | by rewrite IH]. Qed.

Lemma suffixed_ne sym n : suffixed sym n ≠ sym.
Proof.
  intros H. apply (f_equal String.length) in H.
  unfold suffixed in H. rewrite !string_length_app in H. simpl in H. lia.
Qed.

Lemma candidate_inj sym : Inj (=) (=) (candidate sym).
Proof.
  intros [|m] [|n] H; simpl in H; try done.
  - by destruct (suffixed_ne sym (S n)).
  - by destruct (suffixed_ne sym (S m)).
  - by apply suffixed_inj in H.
Qed.

(** What one run of the loop computes, for any amount of fuel. *)
Lemma uniquify_loop_spec syms sym fuel : ∀ ctr,
  (∀ k, k < ctr → candidate sym k ∈ syms) →
  match uniquify_loop fuel syms sym ctr (candidate sym ctr) with
  | Some ret =>
      ∃ n, ret = candidate sym n ∧ (ret ∉ syms) ∧
           ∀ k, k < n → candidate sym k ∈ syms
  | None => ∀ k, k ≤ ctr + fuel → candidate sym k ∈ syms
  end.
Proof.
  induction fuel as [|fuel IH]; intros ctr Hlt; simpl;
    destruct (decide (candidate sym ctr ∈ syms)) as [Hin|Hout].
  - intros k Hk. destruct (decide (k = ctr)) as [->|]; [done|].
    apply Hlt. lia.
  - eauto.
  - replace (ctr + 1) with (S ctr) by lia.
    change (suffixed sym (S ctr)) with (candidate sym (S ctr)).
    specialize (IH (S ctr)).
    destruct (uniquify_loop fuel syms sym (S ctr) (candidate sym (S ctr))).
    + apply IH. intros k Hk.
      destruct (decide (k = ctr)) as [->|]; [done|]. apply Hlt. lia.
    + intros k Hk. apply IH; [|lia]. intros k' Hk'.
      destruct (decide (k' = ctr)) as [->|]; [done|]. apply Hlt. lia.
  - eauto.
Qed.

(** A finite symbol set cannot hold [size + 1] distinct candidates. *)
Lemma candidates_exhaust (syms : gset string) sym :
  ¬ ∀ k, k ≤ size syms → candidate sym k ∈ syms.
Proof.
  intros Hall.
  set (l := candidate sym <$> seq 0 (S (size syms))).
  assert (NoDup l) as Hnd.
  { apply NoDup_fmap_2; [apply candidate_inj | apply NoDup_seq]. }
  assert (list_to_set l ⊆ syms) as Hsub.
  { intros x Hx. apply elem_of_list_to_set in Hx.
    apply list_elem_of_fmap in Hx as (k & -> & Hk).
    apply elem_of_seq in Hk. apply Hall. lia. }
  apply subseteq_size in Hsub.
  rewrite size_list_to_set in Hsub by done.
  subst l. rewrite length_fmap, length_seq in Hsub. lia.
Qed.

(** The loop terminates within [size symbols] iterations. *)
Lemma uniquify_loop_total (syms : gset string) sym :
  ∃ n, uniquify_loop (size syms) syms sym 0 sym = Some (candidate sym n) ∧
       (candidate sym n ∉ syms) ∧ ∀ k, k < n → candidate sym k ∈ syms.
Proof.
  pose proof (uniquify_loop_spec syms sym (size syms) 0) as H.
  simpl candidate in H at 1 2.
  destruct (uniquify_loop (size syms) syms sym 0 sym) as [ret|].
  - destruct H as (n & -> & ? & ?); [lia|]. eauto.
  - destruct (candidates_exhaust syms sym). intros k Hk. apply H; lia.
Qed.

(** C9.  [uniquify_symbol] always returns: it yields [sym] itself when
    [sym] is not yet in the context's symbol set, and otherwise [sym_N]
    for the smallest positive [N] with [sym_N] not in the set; the
    returned name is added to the set; consequently every later call on
    the same context (whatever was uniquified in between) returns a
    different name. *)
Theorem uniquify_symbol_correct (bc : _BlockContext) (sym : string) :
  ∃ ret,
    uniquify_symbol bc sym = Some (ret, mk ({[ ret ]} ∪ symbols bc)) ∧
    (ret ∉ symbols bc) ∧
    (sym ∉ symbols bc → ret = sym) ∧
    (sym ∈ symbols bc →
       ∃ N, 0 < N ∧ ret = suffixed sym N ∧
            ∀ M, 0 < M < N → suffixed sym M ∈ symbols bc) ∧
    (∀ bc1 sym2 ret2 bc2,
       {[ ret ]} ∪ symbols bc ⊆ symbols bc1 →
       uniquify_symbol bc1 sym2 = Some (ret2, bc2) →
       ret2 ≠ ret ∧ symbols bc1 ⊆ symbols bc2).
Proof.
  destruct (uniquify_loop_total (symbols bc) sym) as (n & Hrun & Hout & Hlt).
  exists (candidate sym n). unfold uniquify_symbol. rewrite Hrun.
  split_and!; [done | done | | | ].
  - intros Hsym. destruct n as [|n]; [done|].
    destruct Hsym. apply (Hlt 0). lia.
  - intros Hsym. destruct n as [|n]; [done|].
    exists (S n). split_and!; [lia | done |].
    intros [|M] HM; [lia|]. apply (Hlt (S M)). lia.
  - intros bc1 sym2 ret2 bc2 Hsub Hcall.
    destruct (uniquify_loop_total (symbols bc1) sym2) as (m & Hrun2 & Hout2 & _).
    rewrite Hrun2 in Hcall. injection Hcall as <- <-. split.
    + intros Heq. apply Hout2. rewrite Heq. set_solver.
    + simpl. set_solver.
Qed.

End block_context_facts.


(** ** Definition naming *)

Section naming_facts.

Lemma string_le_alt s1 s2 : string_le s1 s2 ↔ s1 = s2 ∨ String_as_OT.lt s1 s2.
Proof.
  unfold string_le, String.leb.
  rewrite <- String_as_OT.cmp_lt, <- String_as_OT.cmp_eq.
  unfold String_as_OT.cmp.
  destruct (String.compare s1 s2); intuition congruence.
Qed.

#[local] Instance string_le_trans : Transitive string_le.
Proof.
  intros x y z. rewrite !string_le_alt.
  intros [->|Hxy] [->|Hyz]; auto.
  right. by apply String_as_OT.lt_trans with y.
Qed.

#[local] Instance string_le_total : Total string_le.
Proof. intros x y. apply String.leb_total. Qed.

#[local] Instance string_le_antisym : AntiSymm (=) string_le.
Proof. intros x y. apply String.leb_antisym. Qed.

(** [sorted] depends on the elements only, not on their order. *)
Lemma sorted_perm l1 l2 : l1 ≡ₚ l2 → sorted l1 = sorted l2.
Proof.
  intros Hp. unfold sorted.
  apply (StronglySorted_unique string_le);
    [apply StronglySorted_merge_sort; apply _ ..|].
  by rewrite !merge_sort_Permutation.
Qed.

Lemma with_params_perm {Attr} (val_str : Attr → string) base params params' :
  params ≡ₚ params' →
  with_params val_str base params = with_params val_str base params'.
Proof.
  intros Hp. unfold with_params, param_strings.
  by rewrite (sorted_perm _ _ (fmap_Permutation _ _ _ Hp)).
Qed.

Lemma isalnum_not_dropped c : isalnum c = true → is_dropped c = false.
Proof.
  intros Hc. unfold is_dropped. apply bool_decide_eq_false. intros Hin.
  unfold dropped_chars in Hin. set_unfold.
  destruct Hin as [->|[->|[->|[->|[->|[->|[]]]]]]]; by vm_compute in Hc.
Qed.

Lemma blocked_snoc ret c : blocked (ret ++ [c]) = bool_decide (c = underscore).
Proof.
  unfold blocked. rewrite last_snoc, length_app. simpl.
  replace (0 <? length ret + 1) with true by (symmetry; apply Nat.ltb_lt; lia).
  simpl. rewrite negb_involutive.
  apply bool_decide_ext. naive_solver.
Qed.

Lemma sanitize_step_cases ret c :
  sanitize_step ret c =
  if isalnum c then (ret ++ [c])%list
  else if is_dropped c then ret
  else if blocked ret then ret else (ret ++ [underscore])%list.
Proof.
  unfold sanitize_step, blocked.
  destruct (isalnum c), (is_dropped c); simpl; try done.
  by destruct (0 <? length ret), (bool_decide (last ret = Some underscore)).
Qed.

(** The loop of [_create_module_name], started from any [ret]. *)
Lemma sanitize_loop l : ∀ ret,
  fold_left sanitize_step l ret =
  (ret ++ collapse_nonalnum (blocked ret)
            (filter (λ c, is_dropped c = false) l))%list.
Proof.
  induction l as [|c l IH]; intros ret; simpl.
  { by rewrite app_nil_r. }
  rewrite IH, sanitize_step_cases.
  destruct (isalnum c) eqn:Hc.
  - rewrite filter_cons_True by by apply isalnum_not_dropped.
    simpl. rewrite Hc, blocked_snoc, <- app_assoc. simpl.
    rewrite bool_decide_eq_false_2; [done|].
    intros ->. by vm_compute in Hc.
  - destruct (is_dropped c) eqn:Hd.
    + by rewrite filter_cons_False by by rewrite Hd.
    + rewrite filter_cons_True by done. simpl. rewrite Hc.
      destruct (blocked ret) eqn:Hb; [by rewrite Hb|].
      rewrite blocked_snoc, bool_decide_eq_true_2 by done.
      by rewrite <- app_assoc.
Qed.

Lemma collapse_false_true l :
  collapse_nonalnum false l = collapse_nonalnum true l ∨
  collapse_nonalnum false l = underscore :: collapse_nonalnum true l.
Proof. destruct l as [|c l]; simpl; [by left|]. destruct (isalnum c); auto. Qed.

Lemma strip_underscore_cons l :
  strip underscore (underscore :: l) = strip underscore l.
Proof. done. Qed.

Lemma create_module_name_display {Attr} (val_str : Attr → string) base params :
  _create_module_name val_str base params = display_name val_str base params.
Proof.
  unfold _create_module_name, display_name. f_equal.
  rewrite sanitize_loop. simpl.
  destruct (collapse_false_true
    (filter (λ c, is_dropped c = false)
       (list_ascii_of_string
          (str_replace "!hw." "" (with_params val_str base params)))))
    as [->| ->]; [done|].
  by rewrite strip_underscore_cons.
Qed.

(** C8 (amended).  For a parameterized definition with a generation
    routine and no explicit name override, the derived name is the base
    name followed by [_name+valuestring] for each parameter, the renderings
    sorted as strings, then with the substring [!hw.] removed, the
    characters [! > [ ] ,] and the double quote deleted, every remaining
    run of non-alphanumeric characters collapsed to one underscore, and
    leading and trailing underscores trimmed; a definition of the same base
    name whose parameters are the same name-value pairs in another order
    gets the same name. *)
Theorem name_parameterized {Ty Val Const Attr PyObj} (val_str : Attr → string)
    (b : @ModuleLikeBuilderBase Ty Val Const Attr PyObj) params :
  module_name b = None →
  parameters b = Some params →
  generators b ≠ [] →
  name val_str b = display_name val_str (modcls_name b) params ∧
  ∀ (b' : @ModuleLikeBuilderBase Ty Val Const Attr PyObj) params',
    module_name b' = None → parameters b' = Some params' →
    generators b' ≠ [] → modcls_name b' = modcls_name b →
    params' ≡ₚ params →
    name val_str b' = name val_str b.
Proof.
  assert (∀ (b0 : @ModuleLikeBuilderBase Ty Val Const Attr PyObj) ps,
            module_name b0 = None → parameters b0 = Some ps →
            generators b0 ≠ [] →
            name val_str b0 = display_name val_str (modcls_name b0) ps) as Hname.
  { intros b0 ps Hm Hp Hg. unfold name. rewrite Hm, Hp.
    destruct (generators b0); [done|]. simpl.
    apply create_module_name_display. }
  intros Hm Hp Hg. split; [by apply Hname|].
  intros b' params' Hm' Hp' Hg' Hbase Hperm.
  rewrite (Hname b' params'), (Hname b params) by done.
  unfold display_name.
  by rewrite Hbase, (with_params_perm val_str _ _ _ Hperm).
Qed.

End naming_facts.

(** ** The class scanner *)

Section scan_facts.
Context {Ty Val Const Attr PyObj : Type}.
Variable obj_to_attribute : PyObj → Attr.
Variable unit_attr : Attr.

Local Abbreviation Builder := (@ModuleLikeBuilderBase Ty Val Const Attr PyObj).
Local Abbreviation store := (ref → @ModuleDecl Ty).
Local Abbreviation scan_attr := (@scan_attr Ty Val Const Attr PyObj obj_to_attribute unit_attr).
Local Abbreviation scan_cls := (@scan_cls Ty Val Const Attr PyObj obj_to_attribute unit_attr).
Local Abbreviation scan_attributes := (@scan_attributes Attr PyObj obj_to_attribute unit_attr).

Lemma same_kinds_refl (st : store) : same_kinds st st.
Proof. done. Qed.

Lemma same_kinds_trans (st1 st2 st3 : store) :
  same_kinds st1 st2 → same_kinds st2 st3 → same_kinds st1 st3.
Proof. intros H1 H2 r. destruct (H1 r), (H2 r). split; congruence. Qed.

Lemma same_kinds_insert (st : store) r d :
  port_class d = port_class (st r) → port_type d = port_type (st r) →
  same_kinds (<[ r := d ]> st) st.
Proof.
  intros Hc Ht r'. destruct (decide (r = r')) as [->|Hne].
  - by rewrite fn_lookup_insert.
  - by rewrite fn_lookup_insert_ne.
Qed.

Lemma writes_ext (st1 st2 : store) es : ∀ n_in n_out,
  same_kinds st1 st2 → writes st1 n_in n_out es = writes st2 n_in n_out es.
Proof.
  induction es as [|[n r] es IH]; intros n_in n_out Hk; simpl; [done|].
  destruct (Hk r) as [-> ->].
  destruct (isinstance_Input _); f_equal; by apply IH.
Qed.

Lemma clock_indices_ext (st1 st2 : store) es : ∀ n_in,
  same_kinds st1 st2 → clock_indices st1 n_in es = clock_indices st2 n_in es.
Proof.
  induction es as [|[n r] es IH]; intros n_in Hk; simpl; [done|].
  destruct (Hk r) as [-> _].
  destruct (isinstance_Clock (port_class (st2 r))),
    (isinstance_Input (port_class (st2 r))); by rewrite IH.
Qed.

Lemma writes_keys (st : store) es : ∀ n_in n_out,
  (writes st n_in n_out es).*1 = es.*2.
Proof.
  induction es as [|[n r] es IH]; intros n_in n_out; simpl; [done|].
  destruct (isinstance_Input _); simpl; f_equal; apply IH.
Qed.

(** *** Reading a store after a series of writes *)

Lemma apply_writes_cons w ws (st : store) :
  apply_writes (w :: ws) st = apply_writes ws (<[ w.1 := w.2 ]> st).
Proof. done. Qed.

Lemma apply_writes_notin ws : ∀ (st : store) r,
  r ∉ ws.*1 → apply_writes ws st r = st r.
Proof.
  induction ws as [|[r0 d0] ws IH]; intros st r Hr; [done|].
  rewrite fmap_cons, not_elem_of_cons in Hr. destruct Hr as [Hne Hr].
  rewrite apply_writes_cons, IH by done.
  by rewrite fn_lookup_insert_ne.
Qed.

Lemma apply_writes_in ws : ∀ (st1 st2 : store) r,
  r ∈ ws.*1 → apply_writes ws st1 r = apply_writes ws st2 r.
Proof.
  induction ws as [|[r0 d0] ws IH]; intros st1 st2 r Hr.
  { by apply elem_of_nil in Hr. }
  rewrite !apply_writes_cons.
  destruct (decide (r ∈ ws.*1)) as [Hin|Hout].
  - by apply IH.
  - rewrite fmap_cons, elem_of_cons in Hr. destruct Hr as [->|]; [|done].
    rewrite !apply_writes_notin by done. simpl.
    by rewrite !fn_lookup_insert.
Qed.

Lemma apply_writes_idemp ws (st : store) r :
  apply_writes ws (apply_writes ws st) r = apply_writes ws st r.
Proof.
  destruct (decide (r ∈ ws.*1)).
  - by apply apply_writes_in.
  - by rewrite apply_writes_notin.
Qed.

Lemma apply_writes_NoDup ws : ∀ (st : store),
  NoDup ws.*1 → apply_writes ws st <$> ws.*1 = ws.*2.
Proof.
  induction ws as [|[r0 d0] ws IH]; intros st Hnd; [done|].
  rewrite fmap_cons in Hnd. apply NoDup_cons in Hnd as [Hr0 Hnd].
  rewrite apply_writes_cons, !fmap_cons. f_equal.
  - rewrite apply_writes_notin by done. simpl. by rewrite fn_lookup_insert.
  - by apply IH.
Qed.

Lemma apply_writes_kinds es : ∀ (st : store) n_in n_out st0,
  same_kinds st st0 →
  same_kinds (apply_writes (writes st0 n_in n_out es) st) st0.
Proof.
  induction es as [|[n r] es IH]; intros st n_in n_out st0 Hk; simpl; [done|].
  destruct (isinstance_Input _); rewrite apply_writes_cons; apply IH;
    (eapply same_kinds_trans; [|exact Hk]);
    apply same_kinds_insert; simpl; by destruct (Hk r).
Qed.

(** *** The scanning loop *)

Lemma scan_post_skip e l (s s' : @scan_state Ty Val Const Attr PyObj) :
  registered (e :: l) = registered l → scan_post l s s' → scan_post (e :: l) s s'.
Proof. unfold scan_post. by intros ->. Qed.

Lemma for_each_cons {S X} (body : S → X → result S) s x l :
  for_each body s (x :: l) =
  match body s x with Ok s' => for_each body s' l | Raise e => Raise e end.
Proof. done. Qed.

Lemma scan_post_port n r l (s s1 s' : @scan_state Ty Val Const Attr PyObj) :
  let d := s_store s r in
  let is_in := isinstance_Input (port_class d) in
  registered ((n, APort r) :: l) = (n, r) :: registered l →
  s_ports s1 = (s_ports s ++ [r])%list →
  s_num_inputs s1 = (if is_in then s_num_inputs s + 1 else s_num_inputs s) →
  s_num_outputs s1 = (if is_in then s_num_outputs s else s_num_outputs s + 1) →
  s_store s1 =
    <[ r := mkDecl (port_class d) (port_type d)
              (Some (if is_in then s_num_inputs s else s_num_outputs s))
              (Some n) ]> (s_store s) →
  s_clock_ports s1 =
    (if isinstance_Clock (port_class d)
     then {[ s_num_inputs s ]} ∪ s_clock_ports s else s_clock_ports s) →
  (isinstance_Clock (port_class d) = true → is_in = true) →
  scan_post l s1 s' → scan_post ((n, APort r) :: l) s s'.
Proof.
  intros d is_in Hreg Hports Hin Hout Hst Hclk Hsub (Hp & Hs & Hc).
  assert (same_kinds (s_store s1) (s_store s)) as Hk.
  { rewrite Hst. by apply same_kinds_insert. }
  unfold scan_post. rewrite Hreg. simpl.
  rewrite (writes_ext _ _ _ _ _ Hk) in Hs.
  rewrite (clock_indices_ext _ _ _ _ Hk) in Hc.
  fold d. fold is_in. rewrite Hp, Hs, Hc, Hports, Hin, Hout, Hst, Hclk.
  split_and!.
  - by rewrite <- app_assoc.
  - by destruct is_in.
  - destruct (isinstance_Clock (port_class d)) eqn:Hck.
    + rewrite Hsub by done. simpl. by rewrite (assoc_L (∪)), (comm_L (∪) _ {[_]}).
    + by destruct is_in.
Qed.

(** *** The comprehensions over an [Attributes] group *)

(** The first comprehension refuses the tuples it cannot index or store,
    the second the other entries that cannot be hashed. *)
Local Abbreviation tuple_ok :=
  (λ m : @mod_attr PyObj,
     match m with AttrShortTuple | AttrUnhashableKey _ => false | _ => true end).
Local Abbreviation flag_ok :=
  (λ m : @mod_attr PyObj, match m with AttrUnhashable => false | _ => true end).

Local Abbreviation tuple_step :=
  (λ (d : list (string * Attr)) (m : @mod_attr PyObj),
     match m with
     | AttrTuple k v => Ok (dict_set d k (obj_to_attribute v))
     | AttrShortTuple => Raise IndexError
     | AttrUnhashableKey _ => Raise TypeError_unhashable
     | AttrFlag _ | AttrUnhashable => Ok d
     end).
Local Abbreviation flag_step :=
  (λ (d : list (string * Attr)) (m : @mod_attr PyObj),
     match m with
     | AttrFlag k => Ok (dict_set d k unit_attr)
     | AttrUnhashable => Raise TypeError_unhashable
     | AttrTuple _ _ | AttrShortTuple | AttrUnhashableKey _ => Ok d
     end).

Lemma well_formed_split (items : list (@mod_attr PyObj)) :
  forallb well_formed items = forallb tuple_ok items && forallb flag_ok items.
Proof.
  induction items as [|m items IH]; [done|]. simpl. rewrite IH.
  destruct m; simpl; by rewrite ?andb_false_r.
Qed.

Lemma tuples_loop_ok (items : list (@mod_attr PyObj)) : ∀ d,
  match for_each tuple_step d items with
  | Ok _ => forallb tuple_ok items = true
  | Raise _ => forallb tuple_ok items = false
  end.
Proof.
  induction items as [|m items IH]; intros d; [done|].
  rewrite for_each_cons. destruct m; simpl; try done; apply IH.
Qed.

Lemma flags_loop_ok (items : list (@mod_attr PyObj)) : ∀ d,
  match for_each flag_step d items with
  | Ok _ => forallb flag_ok items = true
  | Raise _ => forallb flag_ok items = false
  end.
Proof.
  induction items as [|m items IH]; intros d; [done|].
  rewrite for_each_cons. destruct m; simpl; try done; apply IH.
Qed.

(** The comprehensions complete exactly on the groups whose entries are
    all well formed. *)
Lemma scan_attributes_ok (items : list (@mod_attr PyObj)) :
  match scan_attributes items with
  | Ok _ => forallb well_formed items = true
  | Raise _ => forallb well_formed items = false
  end.
Proof.
  rewrite well_formed_split. unfold scan_attributes.
  pose proof (tuples_loop_ok items []) as Htuples.
  destruct (for_each tuple_step [] items) as [tuples|e]; simpl.
  - rewrite Htuples. simpl. apply flags_loop_ok.
  - by rewrite Htuples.
Qed.

Lemma scan_loop_spec l : ∀ s,
  match for_each scan_attr s l with
  | Ok s' => scannable l = true ∧ scan_post l s s'
  | Raise _ => scannable l = false
  end.
Proof.
  induction l as [|[n a] l IH]; intros s.
  { simpl. unfold scan_post. simpl. rewrite app_nil_r.
    split_and!; [done..|]. by rewrite (left_id_L ∅ (∪)). }
  assert (registered ((n, a) :: l) =
          if String.prefix "_" n then registered l
          else if decide (n = "Attributes") then registered l
          else match a with
               | APort r => (n, r) :: registered l
               | _ => registered l
               end) as Hreg.
  { unfold registered. simpl.
    destruct (String.prefix "_" n); [done|].
    destruct (decide (n = "Attributes")); [done|]. by destruct a. }
  rewrite for_each_cons. unfold scan_attr at 1.
  unfold scannable. simpl forallb. fold (scannable l). simpl fst. simpl snd.
  destruct (String.prefix "_" n) eqn:Hpre;
    [|destruct (decide (n = "Attributes")) as [->|Hne];
      [|destruct a as [r|g|c|items|];
        [destruct (isinstance_Input (port_class (s_store s r))) eqn:Hin;
         [|destruct (isinstance_Output (port_class (s_store s r))) eqn:Hout]
        |..]]];
    try (destruct a; try done);
    try match goal with
        | |- context [scan_attributes ?items] =>
            let H := fresh in
            pose proof (scan_attributes_ok items) as H;
            destruct (scan_attributes items); simpl; rewrite H; [|done]
        end;
    match goal with
    | |- match for_each _ ?s1 _ with _ => _ end =>
        specialize (IH s1); destruct (for_each _ s1 l) as [s'|];
          [destruct IH as [-> IH]; split; [done|] | done]
    end;
    try (apply scan_post_skip; [by rewrite Hreg | exact IH]).
  - eapply scan_post_port; [by rewrite Hreg | ..| exact IH]; simpl;
      rewrite ?Hin; try done.
  - eapply scan_post_port; [by rewrite Hreg | ..| exact IH]; simpl;
      rewrite ?Hin; try done.
    by destruct (port_class (s_store s r)).
  - by destruct (port_class (s_store s r)).
Qed.

(** *** What [scan_cls] returns *)

Lemma scan_cls_spec (b b' : Builder) (st st' : store) :
  scan_cls b st = Ok (b', st') →
  scannable (cls_dct b) = true ∧
  cls_dct b' = cls_dct b ∧
  ports b' = (registered (cls_dct b)).*2 ∧
  st' = apply_writes (writes st 0 0 (registered (cls_dct b))) st ∧
  clocks b' = list_to_set (clock_indices st 0 (registered (cls_dct b))).
Proof.
  unfold scan_cls. intros Hscan.
  pose proof (scan_loop_spec (cls_dct b) (scan_init b st)) as Hloop.
  destruct (for_each _ _ _) as [s'|]; [|done].
  injection Hscan as <- <-. simpl.
  destruct Hloop as (? & Hp & Hs & Hc). simpl in *.
  rewrite Hp, Hs, Hc. split_and!; try done.
  by rewrite (right_id_L ∅ (∪)).
Qed.

Lemma scan_cls_total (b : Builder) (st : store) :
  scannable (cls_dct b) = true → ∃ b' st', scan_cls b st = Ok (b', st').
Proof.
  unfold scan_cls. intros Hok.
  pose proof (scan_loop_spec (cls_dct b) (scan_init b st)) as Hloop.
  destruct (for_each _ _ _) as [s'|]; [simpl; eauto|congruence].
Qed.

Lemma writes_input_idx (st : store) es : ∀ n_in n_out,
  port_idx <$> filter (λ p, isinstance_Input (port_class p) = true)
                 (writes st n_in n_out es).*2 =
  Some <$> seq n_in
    (length (filter (λ p, isinstance_Input (port_class p) = true)
               (writes st n_in n_out es).*2)).
Proof.
  induction es as [|[n r] es IH]; intros n_in n_out; simpl; [done|].
  destruct (isinstance_Input (port_class (st r))) eqn:Hin; simpl.
  - rewrite filter_cons_True by done. simpl.
    f_equal. replace (S n_in) with (n_in + 1) by lia. apply IH.
  - rewrite filter_cons_False by (simpl; congruence). apply IH.
Qed.

Lemma writes_output_idx (st : store) es : ∀ n_in n_out,
  port_idx <$> filter (λ p, isinstance_Output (port_class p) = true)
                 (writes st n_in n_out es).*2 =
  Some <$> seq n_out
    (length (filter (λ p, isinstance_Output (port_class p) = true)
               (writes st n_in n_out es).*2)).
Proof.
  induction es as [|[n r] es IH]; intros n_in n_out; simpl; [done|].
  destruct (isinstance_Input (port_class (st r))) eqn:Hin; simpl.
  - rewrite filter_cons_False
      by (simpl; destruct (port_class (st r)); simpl in *; congruence).
    apply IH.
  - rewrite filter_cons_True
      by (simpl; by destruct (port_class (st r))).
    simpl. f_equal. replace (S n_out) with (n_out + 1) by lia. apply IH.
Qed.

Lemma writes_names (st : store) es : ∀ n_in n_out,
  port_name <$> (writes st n_in n_out es).*2 = Some <$> es.*1.
Proof.
  induction es as [|[n r] es IH]; intros n_in n_out; simpl; [done|].
  destruct (isinstance_Input _); simpl; f_equal; apply IH.
Qed.

Lemma registered_spec (d : list (string * @class_attr Ty Val Const PyObj)) n r :
  (n, r) ∈ registered d ↔
  (n, APort r) ∈ d ∧ String.prefix "_" n = false ∧ n ≠ "Attributes".
Proof.
  unfold registered. rewrite list_elem_of_omap. split.
  - intros ([n' a] & Hin & Hsome). simpl in Hsome.
    destruct (String.prefix "_" n') eqn:?; [done|].
    destruct (decide (n' = "Attributes")); [done|].
    destruct a; try done. by injection Hsome as -> ->.
  - intros (Hin & Hpre & Hne). exists (n, APort r). split; [done|].
    simpl. rewrite Hpre. by rewrite decide_False.
Qed.

(** Scanning again changes nothing: the same ports, and the same index
    and name on every marker. *)
Lemma scan_cls_again (b b' : Builder) (st st' : store) :
  scan_cls b st = Ok (b', st') →
  ∃ b'' st'', scan_cls b' st' = Ok (b'', st'') ∧
              ports b'' = ports b' ∧ ∀ r, st'' r = st' r.
Proof.
  intros Hscan. destruct (scan_cls_spec _ _ _ _ Hscan) as (Hok & Hd & Hp & Hs & _).
  destruct (scan_cls_total b' st') as (b'' & st'' & Hscan2); [by rewrite Hd|].
  exists b'', st''. split; [done|].
  destruct (scan_cls_spec _ _ _ _ Hscan2) as (_ & _ & Hp2 & Hs2 & _).
  rewrite Hd in Hp2, Hs2. split; [congruence|]. intros r.
  rewrite Hs2.
  rewrite (writes_ext st' st) by (rewrite Hs; by apply apply_writes_kinds).
  rewrite Hs. apply apply_writes_idemp.
Qed.

Lemma scan_cls_decls (b b' : Builder) (st st' : store) :
  scan_cls b st = Ok (b', st') →
  NoDup (registered (cls_dct b)).*2 →
  st' <$> ports b' = (writes st 0 0 (registered (cls_dct b))).*2.
Proof.
  intros Hscan Hnd.
  destruct (scan_cls_spec _ _ _ _ Hscan) as (_ & _ & -> & -> & _).
  rewrite <- (writes_keys st _ 0 0) in Hnd |- *.
  by apply apply_writes_NoDup.
Qed.

(** C4 (amended).  For a definition none of whose port markers is bound
    to two attribute names, a scan that completes leaves the input ports
    with the indices 0..n_inputs-1 and the output ports with the indices
    0..n_outputs-1, each in declaration order; the ports carry the names
    they are declared under, in declaration order; exactly the markers
    declared under a name that neither begins with an underscore nor is
    [Attributes] are registered; and scanning again leaves every port,
    index and name as it is. *)
Theorem scan_cls_dense_indices (b b' : Builder) (st st' : store) :
  scan_cls b st = Ok (b', st') →
  NoDup (registered (cls_dct b)).*2 →
  dense_indices b' st' ∧
  port_name <$> (st' <$> ports b') = Some <$> (registered (cls_dct b)).*1 ∧
  (∀ n r, (n, r) ∈ registered (cls_dct b) ↔
          (n, APort r) ∈ cls_dct b ∧
          String.prefix "_" n = false ∧ n ≠ "Attributes") ∧
  (∃ b'' st'', scan_cls b' st' = Ok (b'', st'') ∧
               ports b'' = ports b' ∧ ∀ r, st'' r = st' r).
Proof.
  intros Hscan Hnd. unfold dense_indices, inputs, outputs.
  rewrite (scan_cls_decls _ _ _ _ Hscan Hnd).
  split_and!.
  - apply writes_input_idx.
  - apply writes_output_idx.
  - apply writes_names.
  - intros n r. apply registered_spec.
  - by eapply scan_cls_again.
Qed.

(** *** Every registered port has its name *)

Lemma apply_writes_elem ws : ∀ (st : store) r,
  r ∈ ws.*1 → ∃ d, (r, d) ∈ ws ∧ apply_writes ws st r = d.
Proof.
  induction ws as [|[r0 d0] ws IH]; intros st r Hr.
  { by apply elem_of_nil in Hr. }
  rewrite apply_writes_cons.
  destruct (decide (r ∈ ws.*1)) as [Hin|Hout].
  - destruct (IH (<[ r0 := d0 ]> st) r Hin) as (d & Hd & Heq).
    exists d. split; [by right|done].
  - rewrite fmap_cons, elem_of_cons in Hr. destruct Hr as [->|]; [|done].
    exists d0. split; [by left|].
    rewrite apply_writes_notin by done. simpl. by rewrite fn_lookup_insert.
Qed.

Lemma writes_named (st : store) es : ∀ n_in n_out r d,
  (r, d) ∈ writes st n_in n_out es → is_Some (port_name d).
Proof.
  induction es as [|[n r0] es IH]; intros n_in n_out r d Hin; simpl in Hin.
  { by apply elem_of_nil in Hin. }
  destruct (isinstance_Input _);
    apply elem_of_cons in Hin as [[= -> ->]|Hin]; simpl; eauto.
Qed.

Lemma scan_cls_named (b b' : Builder) (st st' : store) :
  scan_cls b st = Ok (b', st') →
  ∀ p, p ∈ st' <$> ports b' → is_Some (port_name p).
Proof.
  intros Hscan p Hp.
  destruct (scan_cls_spec _ _ _ _ Hscan) as (_ & _ & Hports & Hst & _).
  apply list_elem_of_fmap in Hp as (r & -> & Hr).
  rewrite Hports, <- (writes_keys st _ 0 0) in Hr.
  destruct (apply_writes_elem _ st r Hr) as (d & Hd & Heq).
  rewrite Hst, Heq. by eapply writes_named.
Qed.

(** *** Clock ports of a scanned definition *)

Lemma filter_class_length (f : decl_class → bool) (st1 st2 : store) l :
  same_kinds st1 st2 →
  length (filter (λ p, f (port_class p) = true) (st1 <$> l)) =
  length (filter (λ r, f (port_class (st2 r)) = true) l).
Proof.
  intros Hk. induction l as [|r l IH]; [done|].
  rewrite fmap_cons, !filter_cons. destruct (Hk r) as [-> _].
  destruct (decide (f (port_class (st2 r)) = true)); simpl; by rewrite IH.
Qed.

Lemma clock_indices_bound (st : store) es : ∀ n i,
  i ∈ clock_indices st n es →
  n ≤ i < n + length (filter (λ r, isinstance_Input (port_class (st r)) = true)
                     es.*2).
Proof.
  induction es as [|[x r] es IH]; intros n i Hi; simpl in Hi.
  { by apply elem_of_nil in Hi. }
  rewrite fmap_cons, filter_cons. simpl.
  destruct (port_class (st r)); simpl in *;
    try (apply elem_of_cons in Hi as [->|Hi]; [lia|]);
    apply IH in Hi; lia.
Qed.

Lemma clock_indices_NoDup (st : store) es : ∀ n, NoDup (clock_indices st n es).
Proof.
  induction es as [|[x r] es IH]; intros n; simpl; [constructor|].
  destruct (isinstance_Clock _); [|by destruct (isinstance_Input _)].
  constructor; [|done]. intros Hn. apply clock_indices_bound in Hn. lia.
Qed.

Lemma clock_indices_length (st : store) es : ∀ n,
  length (clock_indices st n es) =
  length (filter (λ r, isinstance_Clock (port_class (st r)) = true) es.*2).
Proof.
  induction es as [|[x r] es IH]; intros n; simpl; [done|].
  rewrite filter_cons. simpl.
  destruct (port_class (st r)); simpl; by rewrite IH.
Qed.

(** The scanner's [clocks] has one index per clock port, each the index
    of an input port. *)
Lemma scan_cls_clocks (b b' : Builder) (st st' : store) :
  scan_cls b st = Ok (b', st') →
  size (clocks b') = n_clock_ports b' st' ∧
  ∀ i, i ∈ clocks b' → i < length (inputs b' st').
Proof.
  intros Hscan.
  destruct (scan_cls_spec _ _ _ _ Hscan) as (_ & _ & Hp & Hs & Hc).
  assert (same_kinds st' st) as Hk.
  { rewrite Hs. by apply apply_writes_kinds. }
  unfold n_clock_ports, inputs. rewrite Hc, Hp. split.
  - rewrite size_list_to_set by apply clock_indices_NoDup.
    rewrite clock_indices_length.
    by rewrite (filter_class_length isinstance_Clock st' st).
  - intros i Hi. apply elem_of_list_to_set, clock_indices_bound in Hi.
    rewrite (filter_class_length isinstance_Input st' st) by done. lia.
Qed.

End scan_facts.

(** ** Dictionaries and loops *)

Section dict_facts.
Context {K V : Type} `{EqDecision K}.

Lemma dict_keys_set (d : list (K * V)) k v k' :
  k' ∈ dict_keys (dict_set d k v) ↔ k' = k ∨ k' ∈ dict_keys d.
Proof.
  unfold dict_keys. induction d as [|[k0 v0] d IH]; simpl.
  - rewrite list_elem_of_singleton, elem_of_nil. tauto.
  - destruct (decide (k0 = k)) as [->|Hne]; simpl;
      rewrite !elem_of_cons; [tauto|]. rewrite IH. tauto.
Qed.

Lemma dict_elem_of_set (d : list (K * V)) k v kv :
  kv ∈ dict_set d k v → kv = (k, v) ∨ kv ∈ d.
Proof.
  induction d as [|[k0 v0] d IH]; simpl.
  - rewrite list_elem_of_singleton. tauto.
  - destruct (decide (k0 = k)) as [->|Hne]; rewrite !elem_of_cons;
      [tauto|]. intros [->|Hin]; [tauto|]. apply IH in Hin. tauto.
Qed.

Lemma dict_keys_fold (l : list (K * V)) : ∀ d k,
  k ∈ dict_keys (fold_left (λ d kv, dict_set d kv.1 kv.2) l d) ↔
  k ∈ dict_keys d ∨ k ∈ l.*1.
Proof.
  induction l as [|[k0 v0] l IH]; intros d k; simpl.
  - rewrite elem_of_nil. tauto.
  - rewrite IH, dict_keys_set, elem_of_cons. tauto.
Qed.

Lemma dict_keys_of_list (l : list (K * V)) k :
  k ∈ dict_keys (dict_of_list l) ↔ k ∈ l.*1.
Proof.
  unfold dict_of_list. rewrite dict_keys_fold. unfold dict_keys. simpl.
  rewrite elem_of_nil. tauto.
Qed.

Lemma dict_elem_of_fold (l : list (K * V)) : ∀ d kv,
  kv ∈ fold_left (λ d kv, dict_set d kv.1 kv.2) l d → kv ∈ d ∨ kv ∈ l.
Proof.
  induction l as [|[k0 v0] l IH]; intros d kv; simpl; [tauto|].
  intros Hin. apply IH in Hin as [Hin|Hin]; [|right; by right].
  apply dict_elem_of_set in Hin as [->|Hin]; [right; by left|by left].
Qed.

Lemma dict_elem_of_list (l : list (K * V)) kv :
  kv ∈ dict_of_list l → kv ∈ l.
Proof.
  intros Hin. apply dict_elem_of_fold in Hin as [Hin|Hin]; [|done].
  by apply elem_of_nil in Hin.
Qed.

Lemma dict_get_None (d : list (K * V)) k :
  dict_get d k = None ↔ k ∉ dict_keys d.
Proof.
  unfold dict_keys. induction d as [|[k0 v0] d IH]; simpl.
  - rewrite elem_of_nil. tauto.
  - rewrite not_elem_of_cons.
    destruct (decide (k0 = k)) as [->|Hne]; [split; [done|tauto]|].
    rewrite IH. split; [|tauto]. intros ?. split; [congruence|done].
Qed.

Lemma dict_get_Some (d : list (K * V)) k v :
  dict_get d k = Some v → (k, v) ∈ d.
Proof.
  induction d as [|[k0 v0] d IH]; simpl; [done|].
  destruct (decide (k0 = k)) as [->|Hne].
  - intros [= ->]. by left.
  - intros Hget. right. by apply IH.
Qed.

End dict_facts.

Lemma for_each_app {S X} (body : S → X → result S) l1 : ∀ s l2,
  for_each body s (l1 ++ l2) =
  match for_each body s l1 with
  | Ok s' => for_each body s' l2
  | Raise e => Raise e
  end.
Proof.
  induction l1 as [|x l1 IH]; intros s l2; [done|].
  simpl app. rewrite !for_each_cons. by destruct (body s x).
Qed.

(** A loop that raises does so at its first element whose body raises:
    the elements before it have been run, those after it are not looked
    at. *)
Lemma for_each_raise {S X} (body : S → X → result S) l : ∀ s e,
  for_each body s l = Raise e →
  ∃ pre x post s', l = (pre ++ x :: post)%list ∧
                   for_each body s pre = Ok s' ∧ body s' x = Raise e.
Proof.
  induction l as [|x l IH]; intros s e; [done|].
  rewrite for_each_cons. destruct (body s x) as [s1|e1] eqn:Hx.
  - intros Hl. destruct (IH _ _ Hl) as (pre & y & post & s' & -> & Hpre & Hy).
    exists (x :: pre), y, post, s'. split_and!; [done| |done].
    by rewrite for_each_cons, Hx.
  - intros [= <-]. by exists [], x, l, s.
Qed.

(** ** Generation *)

Section generation_facts.
Context {Ty Val Const Attr PyObj : Type} `{EqDecision Ty}.
Variable type_call : Ty → Const → result Val.
Variable OutputOp_error : list Val → option exn.
Variable block_arg : nat → Val.
Variable obj_to_attribute : PyObj → Attr.
Variable unit_attr : Attr.

Local Abbreviation Builder := (@ModuleLikeBuilderBase Ty Val Const Attr PyObj).
Local Abbreviation store := (ref → @ModuleDecl Ty).
Local Abbreviation Proxy := (@PortProxyBase Ty Val Const Attr PyObj).
Local Abbreviation generate := (generate type_call OutputOp_error block_arg).
Local Abbreviation generate_body := (generate_body type_call OutputOp_error).
Local Abbreviation run_stmts := (run_stmts type_call).
Local Abbreviation _set_output := (_set_output type_call).
Local Abbreviation scan_cls := (@scan_cls Ty Val Const Attr PyObj obj_to_attribute unit_attr).
Local Abbreviation fresh_ports := (@fresh_ports Ty Val Const Attr PyObj block_arg).

Lemma set_output_inv (st : store) (p p' : Proxy) idx v :
  _set_output st p idx v = Ok p' →
  proxy_name p' = proxy_name p ∧ _builder p' = _builder p ∧
  ∃ values sg, _output_values p = Some values ∧ idx < length values ∧
               _output_values p' = Some (<[ idx := Some sg ]> values).
Proof.
  unfold _set_output. intros Hset.
  destruct v as [sg0| |c]; [|done|];
    destruct (_builder p) as [b|]; try done;
    destruct (outputs b st !! idx) as [port|]; try done;
    simpl in Hset.
  - destruct (decide (port_type port ≠ sig_type sg0)); [done|]. simpl in Hset.
    destruct (_output_values p) as [values|]; [|done].
    destruct (decide (idx < length values)); [|done].
    injection Hset as <-. simpl. eauto 10.
  - destruct (type_call (port_type port) c) as [v|]; [|done]. simpl in Hset.
    destruct (_output_values p) as [values|]; [|done].
    destruct (decide (idx < length values)); [|done].
    injection Hset as <-. simpl. eauto 10.
Qed.

Lemma run_stmts_inv (st : store) l : ∀ (p p' : Proxy) exc,
  run_stmts st p l = (p', exc) →
  proxy_name p' = proxy_name p ∧ _builder p' = _builder p ∧
  ∀ values, _output_values p = Some values →
    ∃ values', _output_values p' = Some values' ∧
               length values' = length values.
Proof.
  induction l as [|[idx v] l IH]; intros p p' exc Hrun; simpl in Hrun.
  { injection Hrun as <- <-. eauto. }
  destruct (_set_output st p idx v) as [p1|e] eqn:Hset.
  - apply IH in Hrun as (Hn & Hb & Hv).
    apply set_output_inv in Hset as (Hn1 & Hb1 & vs & sg & Hvs & _ & Hvs1).
    split_and!; [congruence..|].
    intros values Hvalues. rewrite Hvs in Hvalues. injection Hvalues as <-.
    destruct (Hv _ Hvs1) as (values' & ? & Hlen).
    exists values'. split; [done|]. by rewrite Hlen, length_insert.
  - injection Hrun as <- <-. eauto.
Qed.

(** The body of the [with] block touches nothing of the world but the
    terminator, and that only when it completes. *)
Lemma generate_body_frame (st : store) g (w w' : @world Val) (p p' : Proxy) exc :
  generate_body st g w p = (w', p', exc) →
  trace w' = trace w ∧
  current_block_context w' = current_block_context w ∧
  entry_block w' = entry_block w ∧
  (is_Some exc → terminator w' = terminator w) ∧
  (exc = None → is_Some (terminator w')).
Proof.
  unfold generate_body. intros Hbody.
  destruct (run_stmts st p (gen_func g).1) as [p1 [e|]];
    [by injection Hbody as <- <- <-; split_and!; [done..|intros [=]]|].
  destruct (gen_func g).2;
    try (by injection Hbody as <- <- <-; split_and!; [done..|intros [=]]).
  destruct (_check_unconnected_outputs st p1);
    [|by injection Hbody as <- <- <-; split_and!; [done..|intros [=]]].
  destruct (_output_values p1) as [values|];
    [|by injection Hbody as <- <- <-; split_and!; [done..|intros [=]]].
  destruct (mapM _ values) as [vals|];
    [|by injection Hbody as <- <- <-; split_and!; [done..|intros [=]]].
  destruct (OutputOp_error vals);
    injection Hbody as <- <- <-; simpl; by split_and!.
Qed.

Lemma generate_body_proxy (st : store) g (w w' : @world Val) (p p' : Proxy) exc :
  generate_body st g w p = (w', p', exc) →
  ∃ exc', run_stmts st p (gen_func g).1 = (p', exc').
Proof.
  unfold generate_body. intros Hbody.
  destruct (run_stmts st p (gen_func g).1) as [p1 [e|]];
    [injection Hbody as <- <- <-; eauto|].
  destruct (gen_func g).2; try (injection Hbody as <- <- <-; eauto).
  destruct (_check_unconnected_outputs st p1);
    [|injection Hbody as <- <- <-; eauto].
  destruct (_output_values p1) as [values|];
    [|injection Hbody as <- <- <-; eauto].
  destruct (mapM _ values) as [vals|];
    [|injection Hbody as <- <- <-; eauto].
  destruct (OutputOp_error vals); injection Hbody as <- <- <-; eauto.
Qed.

(** A scanned definition always gets its generator context: the clock
    index, if there is one, names an argument of the entry block. *)
Lemma GeneratorCtxt_init_scanned (b0 b : Builder) (st0 st : store) :
  scan_cls b0 st0 = Ok (b, st) →
  ∃ c, GeneratorCtxt_init b (fresh_ports b st) = Ok c ∧
       bc c = BlockContext.mk ∅ ∧
       (is_Some (clk c) ↔ n_clock_ports b st = 1).
Proof.
  intros Hscan. destruct (scan_cls_clocks _ _ _ _ _ _ Hscan) as [Hsize Hlt].
  unfold GeneratorCtxt_init. rewrite Hsize.
  destruct (decide (n_clock_ports b st = 1)) as [Hone|Hne]; simpl.
  - rewrite <- Hsize in Hone.
    apply size_1_elem_of in Hone as [x Hx]. apply leibniz_equiv in Hx.
    assert (x < length (inputs b st)) as Hxlt
      by (apply Hlt; rewrite Hx; by apply elem_of_singleton).
    rewrite Hx, elements_singleton. simpl.
    rewrite list_lookup_fmap, lookup_seq_lt by done. simpl.
    eexists. split_and!; [done..|]. simpl. rewrite <- Hsize, Hx, size_singleton.
    split; eauto.
  - eexists. split_and!; [done..|]. simpl. split; [by intros [? [=]]|done].
Qed.

(** What [generate] leaves behind once the generator context exists, in
    terms of what the body of the [with] block did. *)
Lemma generate_outcome (b : Builder) (st : store) (w : @world Val) c :
  length (generators b) = 1 →
  GeneratorCtxt_init b (fresh_ports b st) = Ok c →
  let o := generate b st w in
  ∃ n g w3 p3,
    generators b = [(n, g)] ∧
    generate_body st g (entered c w) (fresh_ports b st) = (w3, p3, raised o) ∧
    final_ports o = Some (_clear p3) ∧
    trace (final_world o) =
      (trace w ++ enter_events (has_clk c) ++ exit_events (has_clk c) (raised o))%list ∧
    current_block_context (final_world o) =
      match raised o with
      | Some _ => Some (bc c)
      | None => current_block_context w
      end ∧
    entry_block (final_world o) = true ∧
    terminator (final_world o) = terminator w3.
Proof.
  intros Hlen Hinit o. subst o. unfold generate.
  rewrite decide_True by done.
  destruct (generators b) as [|[n g] [|]]; try done.
  fold (fresh_ports b st). rewrite Hinit.
  exists n, g. unfold entered.
  destruct (GeneratorCtxt_enter c _) as [c1 w1] eqn:Henter. simpl.
  destruct (generate_body st g w1 (fresh_ports b st)) as [[w3 p3] exc] eqn:Hbody.
  exists w3, p3.
  apply generate_body_frame in Hbody as (Htr & Hcur & Hent & _).
  unfold GeneratorCtxt_enter in Henter. injection Henter as <- <-.
  unfold GeneratorCtxt_exit, BlockContext_exit, has_clk, enter_events,
    exit_events, log.
  destruct (clk c), exc; simpl in *;
    rewrite ?Htr, ?Hent, <- ?app_assoc; simpl; by split_and!.
Qed.


Lemma has_clk_scanned (b0 b : Builder) (st0 st : store) c :
  scan_cls b0 st0 = Ok (b, st) →
  GeneratorCtxt_init b (fresh_ports b st) = Ok c →
  bc c = BlockContext.mk ∅ ∧ has_clk c = (n_clock_ports b st =? 1).
Proof.
  intros Hscan Hinit.
  destruct (GeneratorCtxt_init_scanned _ _ _ _ Hscan) as (c' & Hinit' & Hbc & Hclk).
  rewrite Hinit in Hinit'. injection Hinit' as <-. split; [done|].
  unfold has_clk. destruct (clk c) as [v|].
  - symmetry. apply Nat.eqb_eq, Hclk. eauto.
  - symmetry. apply Nat.eqb_neq. intros Hone. apply Hclk in Hone as [? [=]].
Qed.


(** C3 (amended).  When a generation of a scanned definition raises (in
    the routine, in the output check or in the emission of the terminator),
    [__exit__] is called on every scope entered, in the reverse order of
    entering and with the exception, and the proxy is cleared; but the
    block context's [__exit__] resets nothing while an exception passes, so
    the generation's own block context is still the current one when the
    error reaches the caller. *)
Theorem generate_failure_unwinds (b0 b : Builder) (st0 st : store)
    (w : @world Val) (e : exn) :
  scan_cls b0 st0 = Ok (b, st) →
  length (generators b) = 1 →
  raised (generate b st w) = Some e →
  let o := generate b st w in
  let k := n_clock_ports b st =? 1 in
  trace (final_world o) =
    (trace w ++ enter_events k ++ exit_events k (Some e))%list ∧
  event_scope <$> exit_events k (Some e) = rev (event_scope <$> enter_events k) ∧
  final_ports o = Some (mkProxy (modcls_name b) None None None) ∧
  current_block_context (final_world o) = Some (BlockContext.mk ∅).
Proof.
  intros Hscan Hlen Hraised o k.
  destruct (GeneratorCtxt_init_scanned _ _ _ _ Hscan) as (c & Hinit & _).
  destruct (has_clk_scanned _ _ _ _ _ Hscan Hinit) as [Hbc Hclk].
  destruct (generate_outcome b st w c Hlen Hinit)
    as (n & g & w3 & p3 & Hg & Hbody & Hports & Htr & Hcur & _).
  fold o in Hbody, Hports, Htr, Hcur. subst k.
  rewrite Hclk in Htr. unfold o in *. rewrite Hraised in *.
  split_and!; [done| |..].
  - by destruct (n_clock_ports b st =? 1).
  - rewrite Hports. unfold _clear. do 2 f_equal.
    apply generate_body_proxy in Hbody as [exc' Hrun].
    by apply run_stmts_inv in Hrun as [-> _].
  - by rewrite Hcur, Hbc.
Qed.

(** *** The output check *)

Lemma unconnected_port_names_from (outs : list (@ModuleDecl Ty)) values :
  ∀ k (names : list (option string)),
  k + length values ≤ length outs →
  for_each (λ (names : list (option string)) (iv : nat * option (@Signal Ty Val)),
      match iv.2 with
      | Some _ => Ok names
      | None =>
          match outs !! iv.1 with
          | Some port => Ok ((names ++ [port_name port])%list)
          | None => Raise IndexError
          end
      end) names (imap (λ i v, (k + i, v)) values) =
  Ok ((names ++ unassigned_outputs (drop k outs) values)%list).
Proof.
  induction values as [|v values IH]; intros k names Hlen.
  { unfold unassigned_outputs. rewrite zip_with_nil_r. simpl.
    by rewrite app_nil_r. }
  simpl in Hlen.
  destruct (lookup_lt_is_Some_2 outs k) as [o Ho]; [lia|].
  rewrite imap_cons, for_each_cons. simpl.
  rewrite (imap_ext _ (λ i x, (S k + i, x))) by (intros; unfold compose; f_equal; lia).
  rewrite (drop_S _ _ _ Ho). unfold unassigned_outputs. simpl.
  replace (k + 0) with k by lia. rewrite filter_cons. simpl.
  destruct v as [sg|]; simpl.
  - apply (IH (S k)). lia.
  - rewrite Ho. rewrite (IH (S k)) by lia. by rewrite <- app_assoc.
Qed.

Lemma unconnected_port_names_spec (outs : list (@ModuleDecl Ty))
    (values : list (option (@Signal Ty Val))) :
  length values ≤ length outs →
  unconnected_port_names outs values = Ok (unassigned_outputs outs values).
Proof.
  intros Hlen. exact (unconnected_port_names_from outs values 0 [] Hlen).
Qed.

Lemma check_unconnected_outputs_spec (st : store) (p : Proxy) b values :
  _builder p = Some b → _output_values p = Some values →
  length values ≤ length (outputs b st) →
  _check_unconnected_outputs st p =
    match unassigned_outputs (outputs b st) values with
    | [] => Ok ()
    | names => Raise (UnconnectedSignalError (proxy_name p) names)
    end.
Proof.
  intros Hb Hv Hlen. unfold _check_unconnected_outputs. rewrite Hb, Hv.
  rewrite unconnected_port_names_spec by done. simpl.
  by destruct (unassigned_outputs (outputs b st) values).
Qed.

Lemma entered_terminator c (w : @world Val) :
  terminator (entered c w) = terminator w.
Proof. unfold entered, GeneratorCtxt_enter. by destruct (clk c). Qed.

(** C2 (amended).  When the generation routine of a scanned definition
    returns [None] and leaves at least one output slot empty, the
    generation raises the unconnected-output error naming exactly the
    ports whose slot is empty, in slot order; the entry block has been
    added by then and no terminator is emitted into it. *)
Theorem generate_unconnected (b0 b : Builder) (st0 st : store)
    (w : @world Val) n g (p1 : Proxy) values :
  scan_cls b0 st0 = Ok (b, st) →
  generators b = [(n, g)] →
  run_stmts st (fresh_ports b st) (gen_func g).1 = (p1, None) →
  (gen_func g).2 = ReturnNone →
  _output_values p1 = Some values →
  unassigned_outputs (outputs b st) values ≠ [] →
  let o := generate b st w in
  raised o = Some (UnconnectedSignalError (modcls_name b)
                     (unassigned_outputs (outputs b st) values)) ∧
  entry_block (final_world o) = true ∧
  terminator (final_world o) = terminator w.
Proof.
  intros Hscan Hgen Hrun Hend Hvalues Hun o.
  destruct (GeneratorCtxt_init_scanned _ _ _ _ Hscan) as (c & Hinit & _).
  assert (length (generators b) = 1) as Hlen by by rewrite Hgen.
  destruct (generate_outcome b st w c Hlen Hinit)
    as (n' & g' & w3 & p3 & Hg & Hbody & _ & _ & _ & Hentry & Hterm).
  fold o in Hbody, Hentry, Hterm.
  rewrite Hgen in Hg. injection Hg as <- <-.
  destruct (run_stmts_inv _ _ _ _ _ Hrun) as (Hname & Hb & Hv).
  destruct (Hv _ eq_refl) as (values' & Hvalues' & Hlen').
  rewrite Hvalues in Hvalues'. injection Hvalues' as <-.
  rewrite length_replicate in Hlen'.
  unfold generate_body in Hbody. rewrite Hrun, Hend in Hbody.
  rewrite (check_unconnected_outputs_spec st p1 b values) in Hbody
    by (try done; lia).
  destruct (unassigned_outputs (outputs b st) values) as [|x names] eqn:Hnames;
    [done|].
  injection Hbody as <- <- <-.
  rewrite Hname, Hterm, entered_terminator. done.
Qed.

End generation_facts.

(** ** Instantiation *)

Section instantiation_facts.
Context {Ty Val Const Attr PyObj : Type} `{EqDecision Ty}.
Variable type_call : Ty → Const → result Val.
Variable create_const_zero : Ty → Val.
Variable obj_to_attribute : PyObj → Attr.
Variable unit_attr : Attr.

Local Abbreviation Builder := (@ModuleLikeBuilderBase Ty Val Const Attr PyObj).
Local Abbreviation store := (ref → @ModuleDecl Ty).
Local Abbreviation py_value := (@py_value Ty Val Const).
Local Abbreviation resolve_input := (@resolve_input Ty Val Const Attr PyObj _ type_call create_const_zero).
Local Abbreviation resolve_inputs := (@resolve_inputs Ty Val Const Attr PyObj _ type_call create_const_zero).
Local Abbreviation instantiate := (@instantiate Ty Val Const Attr PyObj _ type_call create_const_zero).
Local Abbreviation scan_cls := (@scan_cls Ty Val Const Attr PyObj obj_to_attribute unit_attr).

Lemma lookup_keys (b : Builder) (st : store) :
  dict_keys (port_input_lookup b st) ⊆ port_name <$> inputs b st ∧
  port_name <$> inputs b st ⊆ dict_keys (port_input_lookup b st).
Proof.
  unfold port_input_lookup.
  split; intros k; rewrite dict_keys_of_list, <- list_fmap_compose; done.
Qed.

Lemma lookup_unknown (b : Builder) (st : store) name :
  Some name ∉ port_name <$> inputs b st →
  dict_get (port_input_lookup b st) (Some name) = None.
Proof.
  intros Hn. apply dict_get_None. intros Hk. apply Hn.
  by apply (proj1 (lookup_keys b st)).
Qed.

Lemma lookup_known (b : Builder) (st : store) name port :
  dict_get (port_input_lookup b st) (Some name) = Some port →
  port ∈ inputs b st ∧ port_name port = Some name.
Proof.
  intros Hget. apply dict_get_Some, dict_elem_of_list in Hget.
  apply list_elem_of_fmap in Hget as (p & [= Hname ->] & Hin). done.
Qed.

(** The loop over the supplied names, cut at one entry. *)
Lemma resolve_inputs_split (b : Builder) (st : store) before entry after :
  resolve_inputs b st (before ++ entry :: after)%list =
  match resolve_inputs b st before with
  | Ok circt =>
      match resolve_input b (port_input_lookup b st) circt entry with
      | Ok circt' =>
          for_each (resolve_input b (port_input_lookup b st)) circt' after
      | Raise e => Raise e
      end
  | Raise e => Raise e
  end.
Proof.
  unfold resolve_inputs. rewrite for_each_app.
  destruct (for_each _ _ before); [|done]. by rewrite for_each_cons.
Qed.

Lemma instantiate_raise (b : Builder) (st : store) supplied iname e :
  resolve_inputs b st supplied = Raise e →
  instantiate b st supplied iname = Raise e.
Proof. unfold instantiate. by intros ->. Qed.

Lemma resolve_input_keys (b : Builder) lookup circt circt'
    (entry : string * py_value) n :
  resolve_input b lookup circt entry = Ok circt' →
  n ∈ dict_keys circt' ↔ n = entry.1 ∨ n ∈ dict_keys circt.
Proof.
  destruct entry as [name v]. unfold resolve_input. simpl.
  destruct (dict_get lookup (Some name)) as [port|]; [|done].
  destruct v as [sg| |c].
  - destruct (decide _); [done|]. intros [= <-]. apply dict_keys_set.
  - destruct (0 <? _); [done|]. intros [= <-]. apply dict_keys_set.
  - destruct (type_call _ c); [|done]. simpl. intros [= <-].
    apply dict_keys_set.
Qed.

Lemma resolve_loop_keys (b : Builder) lookup
    (l : list (string * py_value)) : ∀ circt circt' n,
  for_each (resolve_input b lookup) circt l = Ok circt' →
  n ∈ dict_keys circt' ↔ n ∈ dict_keys circt ∨ n ∈ l.*1.
Proof.
  induction l as [|entry l IH]; intros circt circt' n.
  { simpl. intros [= <-]. rewrite elem_of_nil. tauto. }
  rewrite for_each_cons.
  destruct (resolve_input b lookup circt entry) as [c1|] eqn:Hstep; [|done].
  intros Hloop. rewrite (IH _ _ _ Hloop), (resolve_input_keys _ _ _ _ _ _ Hstep).
  rewrite fmap_cons, elem_of_cons. tauto.
Qed.

Lemma mapM_id_Some {A} (l : list (option A)) :
  Forall is_Some l → ∃ k, mapM id l = Some k ∧ Some <$> k = l.
Proof.
  induction 1 as [|x l [a ->] _ (k & Hk & <-)]; [by exists []|].
  exists (a :: k). split; [|done]. simpl. by rewrite Hk.
Qed.

(** C10 (amended).  The supplied names are processed in iteration order
    before missing inputs are looked for: when the supplied map contains a
    name that is not an input port, instantiation fails with the error
    raised while the supplied names are processed, so the missing-input
    check is never reached; that error is the port error naming the unknown
    port whenever every entry supplied before it resolves. *)
Theorem unknown_name_precedes_missing (b : Builder) (st : store)
    before name (v : py_value) after iname :
  Some name ∉ port_name <$> inputs b st →
  let supplied := (before ++ (name, v) :: after)%list in
  (∃ e, resolve_inputs b st supplied = Raise e ∧
        instantiate b st supplied iname = Raise e) ∧
  (∀ circt, resolve_inputs b st before = Ok circt →
            instantiate b st supplied iname = Raise (PortError_not_found name)).
Proof.
  intros Hunknown supplied.
  assert (∀ circt, resolve_input b (port_input_lookup b st) circt (name, v)
                   = Raise (PortError_not_found name)) as Hstep.
  { intros circt. unfold resolve_input. by rewrite lookup_unknown. }
  pose proof (resolve_inputs_split b st before (name, v) after) as Hsplit.
  fold supplied in Hsplit.
  destruct (resolve_inputs b st before) as [circt|e] eqn:Hbefore.
  - rewrite Hstep in Hsplit. split.
    + eexists. split; [done|]. by apply instantiate_raise.
    + intros ? _. by apply instantiate_raise.
  - split; [|done]. eexists. split; [done|]. by apply instantiate_raise.
Qed.

(** C5 (amended).  Let [None] be supplied for an input port.  If the
    definition has a generation routine the instantiation fails: with the
    port error for that port whenever every entry supplied before it
    resolves, and otherwise with the error of the first of these entries
    that fails (the entries before that one resolve, and it raises the
    error the instantiation fails with).  If the definition has no
    generation routine, the absent entry resolves to the zero constant of
    the port's declared type and the remaining entries are processed. *)
Theorem absent_input (b : Builder) (st : store)
    before name after iname :
  Some name ∈ port_name <$> inputs b st →
  let supplied := (before ++ (name, VNone) :: after)%list in
  ∃ port, port ∈ inputs b st ∧ port_name port = Some name ∧
    (generators b ≠ [] →
       (∃ e, instantiate b st supplied iname = Raise e) ∧
       (∀ circt, resolve_inputs b st before = Ok circt →
          instantiate b st supplied iname = Raise (PortError_none name)) ∧
       (∀ e, resolve_inputs b st before = Raise e →
          instantiate b st supplied iname = Raise e ∧
          ∃ pre entry post circt,
            before = (pre ++ entry :: post)%list ∧
            resolve_inputs b st pre = Ok circt ∧
            resolve_input b (port_input_lookup b st) circt entry = Raise e)) ∧
    (generators b = [] →
       ∀ circt, resolve_inputs b st before = Ok circt →
         resolve_inputs b st supplied =
           for_each (resolve_input b (port_input_lookup b st))
             (dict_set circt name (create_const_zero (port_type port))) after).
Proof.
  intros Hknown supplied.
  destruct (dict_get (port_input_lookup b st) (Some name)) as [port|] eqn:Hget.
  2:{ apply dict_get_None in Hget. destruct Hget.
      by apply (proj2 (lookup_keys b st)). }
  destruct (lookup_known _ _ _ _ Hget) as [Hin Hname].
  exists port. split_and!; [done..| |].
  - intros Hgen.
    assert (∀ circt, resolve_input b (port_input_lookup b st) circt (name, VNone)
                     = Raise (PortError_none name)) as Hstep.
    { intros circt. unfold resolve_input. rewrite Hget.
      by destruct (generators b). }
    pose proof (resolve_inputs_split b st before (name, VNone) after) as Hsplit.
    fold supplied in Hsplit.
    destruct (resolve_inputs b st before) as [circt|e] eqn:Hbefore.
    + rewrite Hstep in Hsplit. split_and!.
      * eexists. by apply instantiate_raise.
      * intros ? _. by apply instantiate_raise.
      * done.
    + split_and!; [|done|].
      * eexists. by apply instantiate_raise.
      * intros ? [= <-]. split; [by apply instantiate_raise|].
        by apply (for_each_raise _ _ _ _ Hbefore).
  - intros Hgen circt Hbefore. subst supplied.
    rewrite resolve_inputs_split, Hbefore.
    unfold resolve_input at 1. by rewrite Hget, Hgen.
Qed.

(** C6 (amended).  When every supplied entry of an instantiation of a
    scanned definition resolves, and some input port is left without a
    value, instantiation fails with the missing-input error, and the names
    it lists are those of all the input ports that were not supplied, in
    port order. *)
Theorem missing_inputs_reported (b0 b : Builder) (st0 st : store)
    supplied circt iname :
  scan_cls b0 st0 = Ok (b, st) →
  resolve_inputs b st supplied = Ok circt →
  missing_inputs b st circt ≠ [] →
  ∃ names,
    instantiate b st supplied iname = Raise (ValueError_missing names) ∧
    Some <$> names = missing_inputs b st circt ∧
    ∀ n, n ∈ names ↔ Some n ∈ port_name <$> inputs b st ∧ n ∉ supplied.*1.
Proof.
  intros Hscan Hres Hmiss.
  assert (Forall is_Some (missing_inputs b st circt)) as Hnamed.
  { apply Forall_forall. intros k Hk. unfold missing_inputs in Hk.
    apply list_elem_of_filter in Hk as [_ Hk].
    apply (proj1 (lookup_keys b st)) in Hk.
    apply list_elem_of_fmap in Hk as (p & -> & Hp).
    apply (scan_cls_named _ _ _ _ _ _ Hscan). unfold inputs in Hp.
    by apply list_elem_of_filter in Hp as [_ Hp]. }
  destruct (mapM_id_Some _ Hnamed) as (names & Hm & Hnames).
  exists names. split_and!; [|done|].
  - assert ((0 <? length (missing_inputs b st circt)) = true) as Hpos.
    { apply Nat.ltb_lt. destruct (missing_inputs b st circt); [done|simpl; lia]. }
    unfold instantiate. rewrite Hres. simpl. by rewrite Hpos, Hm.
  - intros n.
    assert (n ∈ names ↔ Some n ∈ missing_inputs b st circt) as ->.
    { rewrite <- Hnames. rewrite list_elem_of_fmap. split.
      - intros ?. by exists n.
      - by intros (? & [= <-] & ?). }
    unfold missing_inputs. rewrite list_elem_of_filter.
    assert (Some n ∈ Some <$> dict_keys circt ↔ n ∈ supplied.*1) as ->.
    { rewrite list_elem_of_fmap.
      unfold resolve_inputs in Hres.
      pose proof (resolve_loop_keys b _ supplied [] circt n Hres) as Hkeys.
      unfold dict_keys at 2 in Hkeys. simpl in Hkeys.
      rewrite elem_of_nil in Hkeys. split.
      - intros (? & [= <-] & ?). tauto.
      - intros ?. exists n. tauto. }
    destruct (lookup_keys b st) as [H1 H2]. split.
    + intros [? ?]. split; [by apply H1|done].
    + intros [? ?]. split; [done|by apply H2].
Qed.

End instantiation_facts.

(** ** The parameterization cache *)

Section parameterization_facts.
Context {Ty Val Const Attr PyObj : Type} `{Countable Attr}.
Variable obj_to_attribute : list (string * PyObj) → list (string * Attr).

Local Abbreviation py_function := (@py_function Ty Val Const Attr PyObj).
Local Abbreviation cache_state := (@cache_state Ty Val Const Attr PyObj _ _).
Local Abbreviation modparams_call := (@modparams_call Ty Val Const Attr PyObj _ _ obj_to_attribute).
Local Abbreviation run_calls := (@run_calls Ty Val Const Attr PyObj _ _ obj_to_attribute).
Local Abbreviation call_key := (@call_key Ty Val Const Attr PyObj obj_to_attribute).

(** A hit: the cached object is returned and nothing changes. *)
Lemma modparams_call_hit (f : py_function) (st : cache_state) args kwargs k c :
  call_key f args kwargs = Some k →
  _MODULE_CACHE st !! k = Some c →
  modparams_call f st args kwargs = (st, Ok c).
Proof.
  unfold call_key, modparams_call.
  destruct (bind (sig f) args kwargs) as [arguments|]; [|done].
  intros [= <-] ->. done.
Qed.

(** What a call returns is in the cache afterwards. *)
Lemma modparams_call_cached (f : py_function) (st st' : cache_state)
    args kwargs k c :
  call_key f args kwargs = Some k →
  modparams_call f st args kwargs = (st', Ok c) →
  _MODULE_CACHE st' !! k = Some c.
Proof.
  unfold call_key, modparams_call.
  destruct (bind (sig f) args kwargs) as [arguments|]; [|done].
  intros [= <-].
  destruct (_MODULE_CACHE st !! _) as [c'|] eqn:Hget.
  - by intros [= <- <-].
  - destruct (call f arguments); intros [= <- <-].
    simpl. by rewrite lookup_insert_eq.
Qed.

(** The cache only grows: no entry is ever replaced or removed. *)
Lemma modparams_call_mono (f : py_function) (st : cache_state) args kwargs k c :
  _MODULE_CACHE st !! k = Some c →
  _MODULE_CACHE (modparams_call f st args kwargs).1 !! k = Some c.
Proof.
  intros Hk. unfold modparams_call.
  destruct (bind (sig f) args kwargs) as [arguments|]; [|done].
  set (key := _get_module_cache_key _ _ _).
  destruct (_MODULE_CACHE st !! key) as [c'|] eqn:Hget; [done|].
  destruct (call f arguments); simpl; try done.
  rewrite lookup_insert_ne; [done|]. intros Heq. congruence.
Qed.

Lemma run_calls_mono calls : ∀ (st : cache_state) k c,
  _MODULE_CACHE st !! k = Some c →
  _MODULE_CACHE (run_calls st calls).1 !! k = Some c.
Proof.
  induction calls as [|[[f args] kwargs] calls IH]; intros st k c Hk; [done|].
  simpl. pose proof (modparams_call_mono f st args kwargs k c Hk) as Hstep.
  destruct (modparams_call f st args kwargs) as [st1 r].
  specialize (IH st1 k c Hstep).
  by destruct (run_calls st1 calls).
Qed.

Lemma times_defined_executed (st : cache_state) k flag k' :
  times_defined (executed st k flag) k' =
  times_defined st k' + (if decide ((k, flag) = (k', true)) then 1 else 0).
Proof.
  unfold times_defined, executed. simpl.
  rewrite filter_app, length_app. f_equal.
  rewrite filter_cons, filter_nil. by destruct (decide _).
Qed.

Lemma times_defined_ext (st st' : cache_state) k :
  executions st = executions st' → times_defined st k = times_defined st' k.
Proof. unfold times_defined. by intros ->. Qed.

Lemma modparams_call_defined_once (f : py_function) (st : cache_state) args kwargs :
  defined_once st → defined_once (modparams_call f st args kwargs).1.
Proof.
  intros Hinv. unfold modparams_call.
  destruct (bind (sig f) args kwargs) as [arguments|]; [|done].
  set (key := _get_module_cache_key _ _ _).
  destruct (_MODULE_CACHE st !! key) as [c'|] eqn:Hget; [done|].
  destruct (call f arguments) as [b| |e]; cbn [fst];
    intros k'; destruct (Hinv k') as [Hle Hnone].
  - rewrite (times_defined_ext _ (executed st key true)) by done.
    rewrite times_defined_executed. cbn [_MODULE_CACHE executed].
    destruct (decide ((key, true) = (k', true))) as [[= <-]|Hne].
    + rewrite Hnone by done. split; [lia|]. by rewrite lookup_insert_eq.
    + rewrite Nat.add_0_r. split; [done|]. intros Hk'. apply Hnone.
      rewrite lookup_insert_ne in Hk'; [done|]. intros Heq. by rewrite Heq in Hne.
  - rewrite times_defined_executed, decide_False by (intros [=]).
    by rewrite Nat.add_0_r.
  - rewrite times_defined_executed, decide_False by (intros [=]).
    by rewrite Nat.add_0_r.
Qed.

Lemma run_calls_defined_once calls : ∀ (st : cache_state),
  defined_once st → defined_once (run_calls st calls).1.
Proof.
  induction calls as [|[[f args] kwargs] calls IH]; intros st Hinv; [done|].
  simpl. pose proof (modparams_call_defined_once f st args kwargs Hinv) as Hstep.
  destruct (modparams_call f st args kwargs) as [st1 r].
  specialize (IH st1 Hstep). by destruct (run_calls st1 calls).
Qed.

(** A call whose arguments bind and that raises found nothing in the
    cache under its key and ran the body, which did not return a [Module]
    class: the execution is recorded and nothing else changes. *)
Lemma modparams_call_raise (f : py_function) (st st1 : cache_state)
    args kwargs k e :
  call_key f args kwargs = Some k →
  modparams_call f st args kwargs = (st1, Raise e) →
  _MODULE_CACHE st !! k = None ∧ st1 = executed st k false.
Proof.
  unfold call_key, modparams_call.
  destruct (bind (sig f) args kwargs) as [arguments|]; [|done].
  intros [= <-].
  destruct (_MODULE_CACHE st !! _) as [c'|] eqn:Hget; [done|].
  by destruct (call f arguments); intros [= <- <-].
Qed.

(** A miss: the body is executed, whatever it gives. *)
Lemma modparams_call_miss (g : py_function) (st : cache_state) args kwargs k :
  call_key g args kwargs = Some k →
  _MODULE_CACHE st !! k = None →
  times_executed (modparams_call g st args kwargs).1 k =
    S (times_executed st k).
Proof.
  unfold call_key, modparams_call.
  destruct (bind (sig g) args kwargs) as [arguments|]; [|done].
  intros [= <-] ->. unfold times_executed.
  destruct (call g arguments); simpl;
    rewrite filter_app, length_app, filter_cons_True by done; simpl; lia.
Qed.

(** A call under another key neither touches the entry of a key nor
    executes a body for it. *)
Lemma modparams_call_other (f : py_function) (st : cache_state) args kwargs k :
  call_key f args kwargs ≠ Some k →
  _MODULE_CACHE (modparams_call f st args kwargs).1 !! k =
    _MODULE_CACHE st !! k ∧
  times_executed (modparams_call f st args kwargs).1 k = times_executed st k.
Proof.
  unfold call_key, modparams_call.
  destruct (bind (sig f) args kwargs) as [arguments|]; [|done].
  set (key := _get_module_cache_key _ _ _). intros Hne.
  assert (key ≠ k) as Hk by congruence.
  destruct (_MODULE_CACHE st !! key) as [c'|] eqn:Hget; [done|].
  unfold times_executed.
  destruct (call f arguments); simpl;
    rewrite filter_app, filter_cons_False, filter_nil, app_nil_r by done;
    split; try done.
  by rewrite lookup_insert_ne.
Qed.

Lemma run_calls_other calls : ∀ (st : cache_state) k,
  Forall (λ c, call_key c.1.1 c.1.2 c.2 ≠ Some k) calls →
  _MODULE_CACHE (run_calls st calls).1 !! k = _MODULE_CACHE st !! k ∧
  times_executed (run_calls st calls).1 k = times_executed st k.
Proof.
  induction calls as [|[[f args] kwargs] calls IH]; intros st k Hall; [done|].
  apply Forall_cons in Hall as [Hf Hall]. simpl in Hf. simpl.
  destruct (modparams_call_other f st args kwargs k Hf) as [Hc Ht].
  destruct (modparams_call f st args kwargs) as [st1 r]. simpl in Hc, Ht.
  destruct (IH st1 k Hall) as [Hc' Ht'].
  destruct (run_calls st1 calls). simpl in *. by rewrite Hc', Ht', Hc, Ht.
Qed.

(** C1 (amended).  Once a call to a wrapped parameterization function has
    returned a definition, every later call whose arguments normalize to
    the same cache key returns the identical object, whatever calls were
    made in between, and leaves the state as it is (the factory body is not
    executed); from the empty cache on, the factory body returns a
    [Module] class at most once per cache key; and a call that raises after
    its arguments were bound (the body raised, or returned something that
    is no [Module] class) has executed the body and cached nothing: the
    cache and the classes are as before, the key is still absent after any
    calls under other keys, and the next call under the same key executes
    the body again. *)
Theorem module_cache_memoizes :
  (∀ (f g : py_function) (st st1 : cache_state) args kwargs args' kwargs'
      k c calls,
     call_key f args kwargs = Some k →
     call_key g args' kwargs' = Some k →
     modparams_call f st args kwargs = (st1, Ok c) →
     modparams_call g (run_calls st1 calls).1 args' kwargs' =
       ((run_calls st1 calls).1, Ok c)) ∧
  (∀ calls k, times_defined (run_calls empty_cache calls).1 k ≤ 1) ∧
  (∀ (f g : py_function) (st st1 : cache_state) args kwargs args' kwargs'
      k e calls,
     call_key f args kwargs = Some k →
     call_key g args' kwargs' = Some k →
     modparams_call f st args kwargs = (st1, Raise e) →
     Forall (λ c, call_key c.1.1 c.1.2 c.2 ≠ Some k) calls →
     _MODULE_CACHE st1 = _MODULE_CACHE st ∧ classes st1 = classes st ∧
     times_executed st1 k = S (times_executed st k) ∧
     _MODULE_CACHE (run_calls st1 calls).1 !! k = None ∧
     times_executed
       (modparams_call g (run_calls st1 calls).1 args' kwargs').1 k =
       S (times_executed (run_calls st1 calls).1 k)).
Proof.
  split_and!.
  - intros f g st st1 args kwargs args' kwargs' k c calls Hk Hk' Hfirst.
    apply modparams_call_hit with k; [done|].
    apply run_calls_mono.
    exact (modparams_call_cached f st st1 args kwargs k c Hk Hfirst).
  - intros calls k.
    assert (defined_once (empty_cache : cache_state)) as Hempty.
    { intros k'. unfold times_defined. simpl. split; [lia|done]. }
    by destruct (run_calls_defined_once calls empty_cache Hempty k).
  - intros f g st st1 args kwargs args' kwargs' k e calls Hk Hk' Hfail Hother.
    destruct (modparams_call_raise f st st1 args kwargs k e Hk Hfail)
      as [Hmiss ->].
    destruct (run_calls_other calls (executed st k false) k Hother) as [Hc Ht].
    assert (_MODULE_CACHE (run_calls (executed st k false) calls).1 !! k = None)
      as Hnone.
    { by rewrite Hc. }
    split_and!; [done|done| |done|].
    + unfold times_executed, executed. simpl.
      rewrite filter_app, length_app, filter_cons_True by done. simpl. lia.
    + by apply modparams_call_miss.
Qed.

End parameterization_facts.

Lemma module_cache_memoizes_witness :
  modparams_call Examples.to_attr Examples.make_adder
    (run_calls Examples.to_attr
       (Examples.after [(Examples.make_adder, ["8"], [])]).1
       [(Examples.make_adder, ["16"], [])]).1
    [] [("_debug", "yes"); ("width", "8")] =
  ((run_calls Examples.to_attr
      (Examples.after [(Examples.make_adder, ["8"], [])]).1
      [(Examples.make_adder, ["16"], [])]).1, Ok 0).
Proof.
  apply (proj1 (module_cache_memoizes Examples.to_attr)
    Examples.make_adder Examples.make_adder empty_cache
    (Examples.after [(Examples.make_adder, ["8"], [])]).1
    ["8"] [] [] [("_debug", "yes"); ("width", "8")]
    (7, [("width", "8")]) 0 [(Examples.make_adder, ["16"], [])]);
    vm_compute; reflexivity.
Defined.

(** C1, as stated, fails for a factory body that does not return a
    definition: nothing is cached, so it is executed again by the next call
    with the same key, whether it raised or returned something that is no
    [Module] class. *)
Lemma module_cache_reexecutes_counterexample :
  (Examples.after [(Examples.make_adder, ["0"], []);
                   (Examples.make_adder, ["0"], [])]).2 =
    [Raise (UserException 0); Raise (UserException 0)] ∧
  times_executed
    (Examples.after [(Examples.make_adder, ["0"], []);
                     (Examples.make_adder, ["0"], [])]).1
    (7, [("width", "0")]) = 2 ∧
  (Examples.after [(Examples.make_nothing, ["8"], []);
                   (Examples.make_nothing, ["8"], [])]).2 =
    [Raise ValueError_not_module; Raise ValueError_not_module] ∧
  ¬ times_executed
      (Examples.after [(Examples.make_nothing, ["8"], []);
                       (Examples.make_nothing, ["8"], [])]).1
      (8, [("width", "8")]) ≤ 1.
Proof.
  split_and!; [vm_compute; reflexivity..|].
  intros Hle. vm_compute in Hle. lia.
Qed.

Lemma absent_input_witness :
  Examples.inst Examples.Adder [("lhs", Examples.byte 1); ("rhs", VNone)] =
    Raise (PortError_none "rhs") ∧
  Examples.inst Examples.Primitive
    [("lhs", Examples.byte 1); ("rhs", VNone); ("clk", Examples.byte 2)] =
    Ok (mkInstance "Primitive" "inst" [("lhs", 1); ("rhs", 0); ("clk", 2)] []).
Proof.
  split.
  - destruct (absent_input Examples.type_call Examples.create_const_zero
                (Examples.scanned_builder Examples.Adder)
                (Examples.scanned_store Examples.Adder)
                [("lhs", Examples.byte 1)] "rhs" [] "inst")
      as (port & _ & _ & Hgen & _).
    + vm_compute. set_unfold. tauto.
    + destruct Hgen as (_ & Hgen & _); [vm_compute; discriminate|].
      apply (Hgen [("lhs", 1)]). vm_compute; reflexivity.
  - vm_compute; reflexivity.
Defined.

(** C5, as stated, fails when an entry supplied before the absent one is
    wrong: the definition has a generation routine and [rhs] is absent,
    yet the error is the type error for [lhs], not a port error. *)
Lemma absent_input_counterexample :
  generators (Examples.scanned_builder Examples.Adder) ≠ [] ∧
  Examples.inst Examples.Adder [("lhs", Examples.wide 1); ("rhs", VNone)] =
    Raise (ValueError_wrong_type "lhs") ∧
  is_PortError (ValueError_wrong_type "lhs") = false.
Proof.
  split_and!; [vm_compute; discriminate | vm_compute; reflexivity | reflexivity].
Qed.

Lemma missing_inputs_reported_witness :
  Examples.inst Examples.Adder [("lhs", Examples.byte 1)] =
    Raise (ValueError_missing ["clk"; "rhs"]).
Proof.
  destruct (missing_inputs_reported Examples.type_call
              Examples.create_const_zero (λ o : string, o) "unit"
              Examples.Adder (Examples.scanned_builder Examples.Adder)
              Examples.markers (Examples.scanned_store Examples.Adder)
              [("lhs", Examples.byte 1)] [("lhs", 1)] "inst")
    as (names & Hinst & Hnames & _).
  - vm_compute; reflexivity.
  - vm_compute; reflexivity.
  - vm_compute. discriminate.
  - unfold Examples.inst. rewrite Hinst. do 2 f_equal.
    apply (inj (fmap Some)). rewrite Hnames. vm_compute; reflexivity.
Defined.

(** C6, as stated, fails when a supplied signal has the wrong type: every
    supplied name is an input port and [clk] and [rhs] receive no value,
    yet the error is the type error, not the missing-input error. *)
Lemma missing_inputs_counterexample :
  Examples.inst Examples.Adder [("lhs", Examples.wide 1)] =
    Raise (ValueError_wrong_type "lhs") ∧
  ¬ ∃ names, Examples.inst Examples.Adder [("lhs", Examples.wide 1)] =
               Raise (ValueError_missing names).
Proof.
  split; [vm_compute; reflexivity|].
  intros [names Hinst]. vm_compute in Hinst. discriminate.
Qed.

Lemma unknown_name_precedes_missing_witness :
  Examples.inst Examples.Adder [("lhs", Examples.byte 1); ("zz", Examples.byte 2)] =
    Raise (PortError_not_found "zz").
Proof.
  destruct (unknown_name_precedes_missing Examples.type_call
              Examples.create_const_zero
              (Examples.scanned_builder Examples.Adder)
              (Examples.scanned_store Examples.Adder)
              [("lhs", Examples.byte 1)] "zz" (Examples.byte 2) [] "inst")
    as [_ Hfirst].
  - vm_compute. set_unfold. intros Hin.
    repeat (destruct Hin as [Hin|Hin]; [discriminate|]). done.
  - apply (Hfirst [("lhs", 1)]). vm_compute; reflexivity.
Defined.

(** C10, as stated, fails when an entry supplied before the unknown name
    is wrong: [zz] is no input port, yet the error is the type error for
    [lhs], not the port error naming [zz]. *)
Lemma unknown_name_counterexample :
  Examples.inst Examples.Adder [("lhs", Examples.wide 1); ("zz", Examples.byte 2)] =
    Raise (ValueError_wrong_type "lhs") ∧
  Examples.inst Examples.Adder [("lhs", Examples.wide 1); ("zz", Examples.byte 2)] ≠
    Raise (PortError_not_found "zz").
Proof.
  split; [vm_compute; reflexivity|].
  intros Hinst. vm_compute in Hinst. discriminate.
Qed.


Lemma generate_unconnected_witness :
  raised (Examples.run Examples.Silent) =
    Some (UnconnectedSignalError "Adder" [Some "sum"]) ∧
  terminator (final_world (Examples.run Examples.Silent)) = None.
Proof.
  destruct (generate_unconnected Examples.type_call
              Examples.OutputOp_error Examples.block_arg (λ o : string, o) "unit"
              Examples.Silent (Examples.scanned_builder Examples.Silent)
              Examples.markers (Examples.scanned_store Examples.Silent)
              Examples.idle "build" Examples.build_nothing
              (fresh_ports Examples.block_arg
                 (Examples.scanned_builder Examples.Silent)
                 (Examples.scanned_store Examples.Silent))
              [None])
    as (Hraised & _ & Hterm).
  - vm_compute; reflexivity.
  - vm_compute; reflexivity.
  - vm_compute; reflexivity.
  - vm_compute; reflexivity.
  - vm_compute; reflexivity.
  - vm_compute. discriminate.
  - split; [exact Hraised | exact Hterm].
Defined.

(** C2, as stated, fails on a routine that assigns nothing: the error is
    raised after the entry block has been added and before the terminator
    is emitted, so the module body is left without one. *)
Lemma generate_unterminated_counterexample :
  raised (Examples.run Examples.Silent) =
    Some (UnconnectedSignalError "Adder" [Some "sum"]) ∧
  entry_block (final_world (Examples.run Examples.Silent)) = true ∧
  terminator (final_world (Examples.run Examples.Silent)) = None ∧
  ¬ no_unterminated_body (final_world (Examples.run Examples.Silent)).
Proof.
  split_and!; [vm_compute; reflexivity..|].
  intros Hno. by apply Hno.
Qed.

Lemma generate_failure_unwinds_witness :
  trace (final_world (Examples.run Examples.Silent)) =
    ([Enter SBlockContext; Enter SBackedgeBuilder; Enter SInsertionPoint;
      Enter SLocation; Enter SClock]
     ++ ((λ s, Exit s (Some (UnconnectedSignalError "Adder" [Some "sum"])))
           <$> [SClock; SLocation; SInsertionPoint; SBackedgeBuilder;
                SBlockContext]))%list ∧
  final_ports (Examples.run Examples.Silent) =
    Some (mkProxy "Adder" None None None) ∧
  current_block_context (final_world (Examples.run Examples.Silent)) =
    Some (BlockContext.mk ∅).
Proof.
  destruct (generate_failure_unwinds Examples.type_call
              Examples.OutputOp_error Examples.block_arg (λ o : string, o) "unit"
              Examples.Silent (Examples.scanned_builder Examples.Silent)
              Examples.markers (Examples.scanned_store Examples.Silent)
              Examples.idle (UnconnectedSignalError "Adder" [Some "sum"]))
    as (Htr & _ & Hports & Hcur).
  - vm_compute; reflexivity.
  - vm_compute; reflexivity.
  - vm_compute; reflexivity.
  - split_and!; [exact Htr | exact Hports | exact Hcur].
Defined.

(** C3, as stated, fails for the block context: after a failed generation
    started with no block context current, the generation's block context
    is still the current one. *)
Lemma generate_block_context_counterexample :
  raised (Examples.run Examples.Silent) =
    Some (UnconnectedSignalError "Adder" [Some "sum"]) ∧
  current_block_context Examples.idle = None ∧
  current_block_context (final_world (Examples.run Examples.Silent)) =
    Some (BlockContext.mk ∅) ∧
  ¬ block_context_closed Examples.idle
      (final_world (Examples.run Examples.Silent)).
Proof.
  split_and!; [vm_compute; reflexivity..|].
  unfold block_context_closed. intros Hc. vm_compute in Hc. discriminate.
Qed.

Lemma name_parameterized_witness :
  name (λ a : string, a) Examples.AB = "Adder_a1_b2" ∧
  name (λ a : string, a) Examples.BA = name (λ a : string, a) Examples.AB.
Proof.
  destruct (name_parameterized (λ a : string, a) Examples.AB
              [("a", "1"); ("b", "2")]) as [Hname Hperm].
  - vm_compute; reflexivity.
  - vm_compute; reflexivity.
  - discriminate.
  - split.
    + rewrite Hname. vm_compute; reflexivity.
    + apply (Hperm Examples.BA [("b", "2"); ("a", "1")]);
        [vm_compute; reflexivity | vm_compute; reflexivity | discriminate
        | vm_compute; reflexivity |].
      apply Permutation_swap.
Defined.

(** C8, as stated, fails on a parameter that renders as [[8]]: the code
    deletes the brackets where the claim has them become underscores. *)
Lemma name_brackets_counterexample :
  name (λ a : string, a) Examples.Widths = "M_w8" ∧
  spec_display_name (λ a : string, a) "M" [("w", "[8]")] = "M_w_8" ∧
  name (λ a : string, a) Examples.Widths ≠
    spec_display_name (λ a : string, a)
      (modcls_name Examples.Widths) [("w", "[8]")].
Proof.
  split_and!; [vm_compute; reflexivity | vm_compute; reflexivity | by vm_compute].
Qed.

Lemma scan_cls_dense_indices_witness :
  dense_indices (Examples.scanned_builder Examples.Adder)
    (Examples.scanned_store Examples.Adder) ∧
  port_name <$> (Examples.scanned_store Examples.Adder <$>
                 ports (Examples.scanned_builder Examples.Adder)) =
    [Some "clk"; Some "lhs"; Some "rhs"; Some "sum"].
Proof.
  pose proof (scan_cls_dense_indices (λ o : string, o) "unit"
    Examples.Adder (Examples.scanned_builder Examples.Adder)
    Examples.markers (Examples.scanned_store Examples.Adder)) as H.
  destruct H as (Hd & Hn & _).
  - vm_compute; reflexivity.
  - apply (bool_decide_unpack _). vm_compute. reflexivity.
  - split; [exact Hd | exact Hn].
Defined.

(** C4, as stated, fails when one marker object is declared under two
    names: the scanner registers two input ports, and both end up with
    index 1. *)
Lemma scan_cls_aliased_counterexample :
  Examples.scan Examples.Aliased =
    Ok (Examples.scanned_builder Examples.Aliased,
        Examples.scanned_store Examples.Aliased) ∧
  port_idx <$> inputs (Examples.scanned_builder Examples.Aliased)
                 (Examples.scanned_store Examples.Aliased)
    = [Some 1; Some 1] ∧
  ¬ dense_indices (Examples.scanned_builder Examples.Aliased)
      (Examples.scanned_store Examples.Aliased).
Proof.
  split_and!; [vm_compute; reflexivity | vm_compute; reflexivity |].
  intros [Hin _]. vm_compute in Hin. discriminate.
Qed.

(* ================================================================== *)
(** * Part III: further properties of the module builder *)
(* ================================================================== *)

(** ** Derived names are identifiers *)

Section identifier_facts.

Lemma collapse_chars l : ∀ in_run,
  Forall (λ c, isalnum c = true ∨ c = underscore) (collapse_nonalnum in_run l).
Proof.
  induction l as [|c l IH]; intros in_run; simpl; [constructor|].
  destruct (isalnum c) eqn:Hc; [constructor; auto|].
  destruct in_run; [apply IH|]. constructor; auto.
Qed.

Lemma collapse_true_head l : head (collapse_nonalnum true l) ≠ Some underscore.
Proof.
  induction l as [|c l IH]; simpl; [done|].
  destruct (isalnum c) eqn:Hc; [|done].
  simpl. intros [= ->]. by vm_compute in Hc.
Qed.

Lemma collapse_no_double l : ∀ in_run,
  no_double_underscore (collapse_nonalnum in_run l).
Proof.
  induction l as [|c l IH]; intros in_run; simpl; [done|].
  destruct (isalnum c) eqn:Hc.
  - specialize (IH false).
    destruct (collapse_nonalnum false l) as [|c2 l2]; [done|].
    split; [|done]. intros [-> _]. by vm_compute in Hc.
  - destruct in_run; [apply IH|].
    pose proof (collapse_true_head l) as Hhead. specialize (IH true).
    destruct (collapse_nonalnum true l) as [|c2 l2]; [done|].
    split; [|done]. intros [_ ->]. by apply Hhead.
Qed.

Lemma last_rev {A} (l : list A) : last (rev l) = head l.
Proof. destruct l as [|x l]; [done|]. simpl. by rewrite last_snoc. Qed.

Lemma head_rev {A} (l : list A) : head (rev l) = last l.
Proof. by rewrite <- (rev_involutive l) at 2; rewrite last_rev. Qed.

Lemma no_double_suffix l1 l2 :
  l1 `suffix_of` l2 → no_double_underscore l2 → no_double_underscore l1.
Proof.
  intros [k ->]. induction k as [|c k IH]; [done|].
  intros Hnd. apply IH. simpl in Hnd.
  destruct (k ++ l1)%list; [by destruct l1|]. by destruct Hnd.
Qed.

Lemma no_double_rev l : no_double_underscore l → no_double_underscore (rev l).
Proof.
  induction l as [|c l IH]; [done|]. intros Hnd. simpl.
  assert (no_double_underscore l) as Hl.
  { simpl in Hnd. destruct l; [done|]. by destruct Hnd. }
  specialize (IH Hl).
  assert (∀ k, no_double_underscore k →
               (last k = Some underscore → c ≠ underscore) →
               no_double_underscore (k ++ [c])%list) as Hsnoc.
  { clear. induction k as [|x k IH]; [done|]. intros Hk Hlast.
    destruct k as [|y k].
    - simpl. split; [|done]. intros [-> ->]. by apply Hlast.
    - destruct Hk as [Hxy Hk]. split; [done|]. apply IH; [done|].
      intros Hl. by apply Hlast. }
  apply Hsnoc; [done|]. rewrite last_rev. intros Hhead ->.
  destruct l as [|y l]; [done|]. simpl in Hhead. injection Hhead as ->.
  destruct Hnd as [Hnd _]. by apply Hnd.
Qed.

Lemma lstrip_suffix c l : lstrip c l `suffix_of` l.
Proof.
  induction l as [|x l IH]; simpl; [done|].
  destruct (bool_decide (x = c)); [by apply suffix_cons_r|done].
Qed.

Lemma lstrip_head c l : head (lstrip c l) ≠ Some c.
Proof.
  induction l as [|x l IH]; simpl; [done|].
  destruct (bool_decide (x = c)) eqn:Hx; [done|].
  simpl. intros [= ->]. by apply bool_decide_eq_false in Hx.
Qed.

Lemma lstrip_id c l : head l ≠ Some c → lstrip c l = l.
Proof.
  destruct l as [|x l]; [done|]. simpl. intros Hx.
  rewrite bool_decide_eq_false_2; [done|]. by intros ->.
Qed.

Lemma suffix_last {A} (l1 l2 : list A) x :
  l1 `suffix_of` l2 → last l1 = Some x → last l2 = Some x.
Proof.
  intros [k ->] Hl. rewrite last_app. by rewrite Hl.
Qed.

Lemma strip_clean l :
  Forall (λ c, isalnum c = true ∨ c = underscore) l →
  no_double_underscore l →
  clean_chars (strip underscore l).
Proof.
  intros Hall Hnd. unfold strip.
  set (l1 := lstrip underscore l).
  set (l2 := lstrip underscore (rev l1)).
  assert (l1 `suffix_of` l) as H1 by apply lstrip_suffix.
  assert (l2 `suffix_of` rev l1) as H2 by apply lstrip_suffix.
  assert (head l1 ≠ Some underscore) as Hh1 by apply lstrip_head.
  assert (head l2 ≠ Some underscore) as Hh2 by apply lstrip_head.
  clearbody l1 l2.
  split_and!.
  - apply Forall_rev. destruct H2 as [k2 Hk2].
    assert (Forall (λ c, isalnum c = true ∨ c = underscore) (rev l1)) as Hr.
    { apply Forall_rev. destruct H1 as [k1 ->]. by apply Forall_app in Hall as [_ ?]. }
    rewrite Hk2 in Hr. by apply Forall_app in Hr as [_ ?].
  - rewrite head_rev. intros Hlast.
    apply (suffix_last _ _ _ H2) in Hlast. by rewrite last_rev in Hlast.
  - by rewrite last_rev.
  - apply no_double_rev, (no_double_suffix _ _ H2), no_double_rev,
      (no_double_suffix _ _ H1), Hnd.
Qed.

(** On the characters of a clean name the sanitizing loop and the final
    [strip] change nothing. *)
Lemma collapse_clean l : ∀ in_run,
  Forall (λ c, isalnum c = true ∨ c = underscore) l →
  (in_run = true → head l ≠ Some underscore) →
  no_double_underscore l →
  collapse_nonalnum in_run l = l.
Proof.
  induction l as [|c l IH]; intros in_run Hall Hhead Hnd; [done|].
  apply Forall_cons in Hall as [Hc Hall]. simpl.
  assert (no_double_underscore l) as Hl.
  { simpl in Hnd. destruct l; [done|]. by destruct Hnd. }
  destruct (isalnum c) eqn:Halnum.
  - f_equal. by apply IH.
  - destruct Hc as [?| ->]; [done|].
    destruct in_run; [by destruct Hhead|].
    f_equal. apply IH; [done| |done].
    intros _ Hu. destruct l as [|c2 l]; [done|]. simpl in Hu.
    injection Hu as ->. destruct Hnd as [Hnd _]. by apply Hnd.
Qed.

Lemma filter_not_dropped_clean l :
  Forall (λ c, isalnum c = true ∨ c = underscore) l →
  filter (λ c, is_dropped c = false) l = l.
Proof.
  induction 1 as [|c l Hc _ IH]; [done|].
  rewrite filter_cons_True; [by rewrite IH|].
  destruct Hc as [Hc| ->]; [by apply isalnum_not_dropped|done].
Qed.

Lemma str_replace_absent old new s : ∀ c0 old',
  old = String c0 old' →
  c0 ∉ list_ascii_of_string s →
  str_replace_go old new 0 s = s.
Proof.
  intros c0 old' ->. induction s as [|c s IH]; [done|].
  intros Hnotin. simpl in Hnotin. apply not_elem_of_cons in Hnotin as [Hne Hnotin].
  cbn [str_replace_go].
  assert (String.prefix (String c0 old') (String c s) = false) as ->.
  { simpl. destruct (Ascii.ascii_dec c0 c); [done|done]. }
  f_equal. by apply IH.
Qed.

Lemma create_module_name_fixpoint {Attr} (val_str : Attr → string) s :
  clean_name s → _create_module_name val_str s [] = s.
Proof.
  intros (Hall & Hhead & Hlast & Hnd).
  rewrite create_module_name_display. unfold display_name, with_params.
  simpl sorted. simpl fold_left.
  unfold str_replace. rewrite (str_replace_absent _ _ _ "!"%char "hw.") ; [|done|].
  2:{ intros Hin. rewrite Forall_forall in Hall. destruct (Hall _ Hin) as [Hc|Hc];
      by vm_compute in Hc. }
  rewrite filter_not_dropped_clean by done.
  rewrite collapse_clean by done.
  unfold strip. rewrite (lstrip_id _ _ Hhead).
  rewrite lstrip_id by by rewrite head_rev.
  by rewrite rev_involutive, string_of_list_ascii_of_string.
Qed.

Lemma create_module_name_clean_chars {Attr} (val_str : Attr → string) base params :
  clean_name (_create_module_name val_str base params).
Proof.
  rewrite create_module_name_display. unfold display_name, clean_name.
  rewrite list_ascii_of_string_of_list_ascii.
  apply strip_clean; [apply collapse_chars | apply collapse_no_double].
Qed.

(** X1.  Whatever the base name and the parameters, the name
    [_create_module_name] derives consists of alphanumeric characters and
    underscores only, neither begins nor ends with an underscore and has no
    two underscores in a row. *)
Theorem create_module_name_identifier {Attr} (val_str : Attr → string) base
    (params : list (string * Attr)) :
  let l := list_ascii_of_string (_create_module_name val_str base params) in
  (∀ c, c ∈ l → isalnum c = true ∨ c = underscore) ∧
  head l ≠ Some underscore ∧
  last l ≠ Some underscore ∧
  (∀ i, l !! i = Some underscore → l !! (S i) ≠ Some underscore).
Proof.
  intros l.
  destruct (create_module_name_clean_chars val_str base params)
    as (Hall & Hhead & Hlast & Hnd).
  fold l in Hall, Hhead, Hlast, Hnd.
  split_and!; [by apply Forall_forall|done|done|].
  clearbody l. clear Hall Hhead Hlast.
  induction l as [|c1 l IH]; intros i Hi; [done|].
  destruct l as [|c2 l]; [by destruct i|].
  destruct Hnd as [Hne Hnd].
  destruct i as [|i]; simpl in *.
  - injection Hi as ->. intros [= ->]. by apply Hne.
  - by apply (IH Hnd i).
Qed.

(** X2.  Deriving a name is idempotent: a derived name, taken as a base
    name with no parameters, is derived to itself. *)
Theorem create_module_name_idempotent {Attr} (val_str : Attr → string) base
    (params : list (string * Attr)) :
  _create_module_name val_str (_create_module_name val_str base params) [] =
  _create_module_name val_str base params.
Proof.
  apply create_module_name_fixpoint, create_module_name_clean_chars.
Qed.

End identifier_facts.

(** ** Repeated uniquification *)

Section uniquify_facts.
Import BlockContext.

(** One call on a context that holds the first [j] candidates for [sym]
    and none of the later ones. *)
Lemma uniquify_symbol_next (bc : _BlockContext) sym j :
  (∀ n, n < j → candidate sym n ∈ symbols bc) →
  candidate sym j ∉ symbols bc →
  uniquify_symbol bc sym =
    Some (candidate sym j, mk ({[ candidate sym j ]} ∪ symbols bc)).
Proof.
  intros Hin Hout.
  destruct (uniquify_loop_total (symbols bc) sym) as (n & Hrun & Hn & Hlt).
  unfold uniquify_symbol. rewrite Hrun.
  assert (n = j) as ->; [|done].
  destruct (Nat.lt_trichotomy n j) as [Hlt'|[->|Hgt]]; [|done|].
  - destruct Hn. by apply Hin.
  - destruct Hout. by apply Hlt.
Qed.

Lemma uniquify_all_same sym k : ∀ (bc : _BlockContext) j,
  (∀ n, n < j → candidate sym n ∈ symbols bc) →
  (∀ n, j ≤ n → candidate sym n ∉ symbols bc) →
  uniquify_all bc (replicate k sym) =
    Some (candidate sym <$> seq j k,
          mk (list_to_set (candidate sym <$> seq j k) ∪ symbols bc)).
Proof.
  induction k as [|k IH]; intros bc j Hin Hout; simpl.
  { destruct bc as [syms]. simpl. by rewrite (left_id_L ∅ (∪)). }
  rewrite (uniquify_symbol_next bc sym j) by auto.
  rewrite (IH _ (S j)); simpl.
  - do 3 f_equal.
    by rewrite (assoc_L (∪)), (comm_L (∪) (list_to_set _) {[ _ ]}).
  - intros n Hn. destruct (decide (n = j)) as [->|].
    + apply elem_of_union_l. by apply elem_of_singleton.
    + apply elem_of_union_r, Hin. lia.
  - intros n Hn. apply not_elem_of_union. split; [|apply Hout; lia].
    rewrite elem_of_singleton. intros Heq. apply candidate_inj in Heq. lia.
Qed.

(** X3.  On a block context that holds neither [sym] nor any [sym_N],
    [k] successive calls of [uniquify_symbol] for [sym] return [sym],
    [sym_1], ..., [sym_(k-1)] in this order, and exactly these names are
    added to the context. *)
Theorem uniquify_symbol_repeated (bc : _BlockContext) (sym : string) (k : nat) :
  sym ∉ symbols bc →
  (∀ N, suffixed sym N ∉ symbols bc) →
  uniquify_all bc (replicate k sym) =
    Some (candidate sym <$> seq 0 k,
          mk (list_to_set (candidate sym <$> seq 0 k) ∪ symbols bc)).
Proof.
  intros Hsym Hsuf. apply uniquify_all_same; [lia|].
  intros [|n] _; [done|apply Hsuf].
Qed.

End uniquify_facts.

Lemma uniquify_symbol_repeated_witness :
  uniquify_all (BlockContext.mk {[ "top" ]}) ["inst"; "inst"; "inst"] =
    Some (["inst"; "inst_1"; "inst_2"],
          BlockContext.mk
            (list_to_set ["inst"; "inst_1"; "inst_2"] ∪ {[ "top" ]})).
Proof.
  rewrite (uniquify_symbol_repeated (BlockContext.mk {[ "top" ]}) "inst" 3);
    [vm_compute; reflexivity | |].
  - simpl. rewrite elem_of_singleton. discriminate.
  - intros N. simpl. rewrite elem_of_singleton. intros Heq.
    apply (f_equal String.length) in Heq. unfold BlockContext.suffixed in Heq.
    rewrite !string_length_app in Heq. simpl in Heq. lia.
Defined.

(** ** Generations that complete, and routines that return a value *)

Section generation_more.
Context {Ty Val Const Attr PyObj : Type} `{EqDecision Ty}.
Variable type_call : Ty → Const → result Val.
Variable OutputOp_error : list Val → option exn.
Variable block_arg : nat → Val.
Variable obj_to_attribute : PyObj → Attr.
Variable unit_attr : Attr.

Local Abbreviation Builder := (@ModuleLikeBuilderBase Ty Val Const Attr PyObj).
Local Abbreviation store := (ref → @ModuleDecl Ty).
Local Abbreviation Proxy := (@PortProxyBase Ty Val Const Attr PyObj).
Local Abbreviation generate := (generate type_call OutputOp_error block_arg).
Local Abbreviation generate_body := (generate_body type_call OutputOp_error).
Local Abbreviation run_stmts := (run_stmts type_call).
Local Abbreviation scan_cls := (@scan_cls Ty Val Const Attr PyObj obj_to_attribute unit_attr).
Local Abbreviation fresh_ports := (@fresh_ports Ty Val Const Attr PyObj block_arg).

Lemma unassigned_outputs_all_set (outs : list (@ModuleDecl Ty))
    (sigs : list (@Signal Ty Val)) :
  unassigned_outputs outs (Some <$> sigs) = [].
Proof.
  unfold unassigned_outputs.
  replace (filter (λ pv : ModuleDecl * option Signal, pv.2 = None)
             (zip outs (Some <$> sigs))) with
    (@nil (@ModuleDecl Ty * option (@Signal Ty Val))); [done|].
  symmetry. revert outs. induction sigs as [|sg sigs IH]; intros [|o outs]; try done.
  simpl. rewrite filter_cons_False by done. apply IH.
Qed.

Lemma mapM_sig_value (sigs : list (@Signal Ty Val)) :
  mapM (fmap (M := option) sig_value) (Some <$> sigs) = Some (sig_value <$> sigs).
Proof.
  induction sigs as [|sg sigs IH]; [done|].
  rewrite fmap_cons. cbn [mapM]. by rewrite IH.
Qed.

(** X4.  When the generation routine of a scanned definition assigns
    every output and returns [None], and the IR accepts the terminator, the
    generation raises nothing: the entry block ends in a terminator whose
    operands are the values assigned, one per output port in slot order;
    every scope entered was left without an exception; the block context
    that was current before is current again; and the proxy is cleared. *)
Theorem generate_connected (b0 b : Builder) (st0 st : store)
    (w : @world Val) n g (p1 : Proxy) (sigs : list (@Signal Ty Val)) :
  scan_cls b0 st0 = Ok (b, st) →
  generators b = [(n, g)] →
  run_stmts st (fresh_ports b st) (gen_func g).1 = (p1, None) →
  (gen_func g).2 = ReturnNone →
  _output_values p1 = Some (Some <$> sigs) →
  OutputOp_error (sig_value <$> sigs) = None →
  let o := generate b st w in
  let k := n_clock_ports b st =? 1 in
  raised o = None ∧
  entry_block (final_world o) = true ∧
  terminator (final_world o) = Some (sig_value <$> sigs) ∧
  length sigs = length (outputs b st) ∧
  trace (final_world o) =
    (trace w ++ enter_events k ++ exit_events k None)%list ∧
  current_block_context (final_world o) = current_block_context w ∧
  final_ports o = Some (mkProxy (modcls_name b) None None None).
Proof.
  intros Hscan Hgen Hrun Hend Hvalues Hop o k.
  destruct (GeneratorCtxt_init_scanned block_arg _ _ _ _ _ _ Hscan)
    as (c & Hinit & _).
  destruct (has_clk_scanned block_arg _ _ _ _ _ _ _ Hscan Hinit) as [_ Hclk].
  assert (length (generators b) = 1) as Hlen by by rewrite Hgen.
  destruct (generate_outcome type_call OutputOp_error block_arg b st w c Hlen Hinit)
    as (n' & g' & w3 & p3 & Hg & Hbody & Hports & Htr & Hcur & Hentry & Hterm).
  fold o in Hbody, Hports, Htr, Hcur, Hentry, Hterm.
  rewrite Hgen in Hg. injection Hg as <- <-.
  destruct (run_stmts_inv type_call _ _ _ _ _ Hrun) as (Hname & Hb & Hv).
  destruct (Hv _ eq_refl) as (values' & Hvalues' & Hlen').
  rewrite Hvalues in Hvalues'. injection Hvalues' as <-.
  rewrite length_replicate, length_fmap in Hlen'.
  unfold generate_body in Hbody. rewrite Hrun, Hend in Hbody.
  rewrite (check_unconnected_outputs_spec st p1 b (Some <$> sigs))
    in Hbody by (try done; rewrite length_fmap; lia).
  rewrite unassigned_outputs_all_set, Hvalues, mapM_sig_value, Hop in Hbody.
  injection Hbody as <- <- Hraised. rewrite <- Hraised in *.
  rewrite Hclk in Htr. subst k. simpl in Hterm.
  split_and!; try done.
  rewrite Hports. unfold _clear. by rewrite Hname.
Qed.

(** X5.  A generation routine of a scanned definition that runs to its
    end and returns something other than [None] makes the generation fail
    with the error that generators must not return a value, whatever
    outputs it assigned: the outputs are not checked and no terminator is
    emitted into the entry block. *)
Theorem generate_returned_value (b0 b : Builder) (st0 st : store)
    (w : @world Val) n g (p1 : Proxy) :
  scan_cls b0 st0 = Ok (b, st) →
  generators b = [(n, g)] →
  run_stmts st (fresh_ports b st) (gen_func g).1 = (p1, None) →
  (gen_func g).2 = ReturnValue →
  let o := generate b st w in
  raised o = Some ValueError_generator_returned ∧
  entry_block (final_world o) = true ∧
  terminator (final_world o) = terminator w.
Proof.
  intros Hscan Hgen Hrun Hend o.
  destruct (GeneratorCtxt_init_scanned block_arg _ _ _ _ _ _ Hscan)
    as (c & Hinit & _).
  assert (length (generators b) = 1) as Hlen by by rewrite Hgen.
  destruct (generate_outcome type_call OutputOp_error block_arg b st w c Hlen Hinit)
    as (n' & g' & w3 & p3 & Hg & Hbody & _ & _ & _ & Hentry & Hterm).
  fold o in Hbody, Hentry, Hterm.
  rewrite Hgen in Hg. injection Hg as <- <-.
  unfold generate_body in Hbody. rewrite Hrun, Hend in Hbody.
  injection Hbody as <- <- Hraised.
  by rewrite Hterm, entered_terminator.
Qed.

End generation_more.

Lemma generate_connected_witness :
  raised (Examples.run Examples.Adder) = None ∧
  terminator (final_world (Examples.run Examples.Adder)) = Some [100] ∧
  current_block_context (final_world (Examples.run Examples.Adder)) = None.
Proof.
  destruct (generate_connected Examples.type_call
              Examples.OutputOp_error Examples.block_arg (λ o : string, o) "unit"
              Examples.Adder (Examples.scanned_builder Examples.Adder)
              Examples.markers (Examples.scanned_store Examples.Adder)
              Examples.idle "build" Examples.build
              (mkProxy "Adder" (Some [1000; 1001; 1002])
                 (Some [Some (mkSignal 8 100)])
                 (Some (Examples.scanned_builder Examples.Adder)))
              [mkSignal 8 100])
    as (Hraised & _ & Hterm & _ & _ & Hcur & _).
  - vm_compute; reflexivity.
  - vm_compute; reflexivity.
  - vm_compute; reflexivity.
  - vm_compute; reflexivity.
  - vm_compute; reflexivity.
  - vm_compute; reflexivity.
  - split_and!; [exact Hraised | exact Hterm | exact Hcur].
Defined.

Lemma generate_returned_value_witness :
  raised (Examples.run Designs.Returning) = Some ValueError_generator_returned ∧
  terminator (final_world (Examples.run Designs.Returning)) = None.
Proof.
  destruct (generate_returned_value Examples.type_call
              Examples.OutputOp_error Examples.block_arg (λ o : string, o) "unit"
              Designs.Returning (Examples.scanned_builder Designs.Returning)
              Examples.markers (Examples.scanned_store Designs.Returning)
              Examples.idle "build" Designs.build_and_return
              (mkProxy "Adder" (Some [1000; 1001; 1002])
                 (Some [Some (mkSignal 8 100)])
                 (Some (Examples.scanned_builder Designs.Returning))))
    as (Hraised & _ & Hterm).
  - vm_compute; reflexivity.
  - vm_compute; reflexivity.
  - vm_compute; reflexivity.
  - vm_compute; reflexivity.
  - split; [exact Hraised | exact Hterm].
Defined.

(** ** Instantiations that succeed *)

Section dict_more.
Context {K V : Type} `{EqDecision K}.

Lemma dict_set_fresh (d : list (K * V)) k v :
  k ∉ dict_keys d → dict_set d k v = (d ++ [(k, v)])%list.
Proof.
  unfold dict_keys. induction d as [|[k0 v0] d IH]; [done|].
  simpl. rewrite not_elem_of_cons. intros [Hne Hnotin].
  rewrite decide_False by done. by rewrite IH.
Qed.

Lemma dict_set_keys_NoDup (d : list (K * V)) k v :
  NoDup (dict_keys d) → NoDup (dict_keys (dict_set d k v)).
Proof.
  unfold dict_keys. induction d as [|[k0 v0] d IH]; simpl.
  { intros _. apply NoDup_singleton. }
  rewrite NoDup_cons. intros [Hnotin Hnd].
  destruct (decide (k0 = k)) as [->|Hne]; simpl.
  - by apply NoDup_cons.
  - apply NoDup_cons. split; [|by apply IH].
    intros Hin. apply (dict_keys_set d k v k0) in Hin as [?|?]; done.
Qed.

End dict_more.

Lemma filter_none {A} (P : A → Prop) `{∀ x, Decision (P x)} (l : list A) :
  (∀ x, x ∈ l → ¬ P x) → filter P l = [].
Proof.
  induction l as [|x l IH]; intros Hall; [done|].
  rewrite filter_cons_False by (apply Hall; by left).
  apply IH. intros y Hy. apply Hall. by right.
Qed.

Section instantiation_more.
Context {Ty Val Const Attr PyObj : Type} `{EqDecision Ty}.
Variable type_call : Ty → Const → result Val.
Variable create_const_zero : Ty → Val.

Local Abbreviation Builder := (@ModuleLikeBuilderBase Ty Val Const Attr PyObj).
Local Abbreviation store := (ref → @ModuleDecl Ty).
Local Abbreviation py_value := (@py_value Ty Val Const).
Local Abbreviation resolve_input := (@resolve_input Ty Val Const Attr PyObj _ type_call create_const_zero).
Local Abbreviation resolve_inputs := (@resolve_inputs Ty Val Const Attr PyObj _ type_call create_const_zero).
Local Abbreviation instantiate := (@instantiate Ty Val Const Attr PyObj _ type_call create_const_zero).

(** The parameters an instance is given: those of the definition when it
    is parameterized and has no generation routine. *)
Local Abbreviation instance_parameters b :=
  (match parameters b with
   | Some ps => if length (generators b) =? 0 then ps else []
   | None => []
   end).

Lemma resolve_input_NoDup (b : Builder) lookup circt circt'
    (entry : string * py_value) :
  resolve_input b lookup circt entry = Ok circt' →
  is_Some (dict_get lookup (Some entry.1)) ∧
  (NoDup (dict_keys circt) → NoDup (dict_keys circt')).
Proof.
  destruct entry as [name v]. unfold resolve_input. simpl.
  destruct (dict_get lookup (Some name)) as [port|]; [|done].
  destruct v as [sg| |c].
  - destruct (decide _); [done|]. intros [= <-].
    split; [eauto|apply dict_set_keys_NoDup].
  - destruct (0 <? _); [done|]. intros [= <-].
    split; [eauto|apply dict_set_keys_NoDup].
  - destruct (type_call _ c); [|done]. simpl. intros [= <-].
    split; [eauto|apply dict_set_keys_NoDup].
Qed.

Lemma resolve_loop_NoDup (b : Builder) lookup
    (l : list (string * py_value)) : ∀ circt circt',
  for_each (resolve_input b lookup) circt l = Ok circt' →
  (∀ n, n ∈ l.*1 → is_Some (dict_get lookup (Some n))) ∧
  (NoDup (dict_keys circt) → NoDup (dict_keys circt')).
Proof.
  induction l as [|entry l IH]; intros circt circt'.
  { simpl. intros [= <-]. split; [|done]. intros n Hn. by apply elem_of_nil in Hn. }
  rewrite for_each_cons.
  destruct (resolve_input b lookup circt entry) as [c1|] eqn:Hstep; [|done].
  intros Hloop.
  destruct (resolve_input_NoDup _ _ _ _ _ Hstep) as [Hentry Hnd1].
  destruct (IH _ _ Hloop) as [Hl Hnd2]. split; [|auto].
  intros n Hn. rewrite fmap_cons in Hn.
  apply elem_of_cons in Hn as [->|Hn]; auto.
Qed.

(** X6.  An instantiation that succeeds binds every input port of the
    definition exactly once and nothing else: the names bound are the names
    supplied and are the names of the input ports; the instance carries the
    instance name it was given, and the definition's parameters if and only
    if the definition is parameterized and has no generation routine. *)
Theorem instantiate_binds_inputs (b : Builder) (st : store)
    (supplied : list (string * py_value)) iname i :
  instantiate b st supplied iname = Ok i →
  NoDup (dict_keys (inst_inputs i)) ∧
  (∀ n, n ∈ dict_keys (inst_inputs i) ↔ n ∈ supplied.*1) ∧
  (∀ n, n ∈ dict_keys (inst_inputs i) ↔ Some n ∈ port_name <$> inputs b st) ∧
  (∀ p, p ∈ inputs b st → is_Some (port_name p)) ∧
  inst_module i = modcls_name b ∧
  inst_name i = iname ∧
  inst_parameters i = instance_parameters b.
Proof.
  unfold instantiate. intros Hinst.
  destruct (resolve_inputs b st supplied) as [circt|] eqn:Hres; [|done].
  simpl in Hinst.
  destruct (0 <? length (missing_inputs b st circt)) eqn:Hmiss.
  { by destruct (mapM id _). }
  apply Nat.ltb_ge in Hmiss.
  assert (missing_inputs b st circt = []) as Hnil
    by (destruct (missing_inputs b st circt); [done|simpl in Hmiss; lia]).
  injection Hinst as <-. simpl. unfold resolve_inputs in Hres.
  destruct (resolve_loop_NoDup _ _ _ _ _ Hres) as [Hknown Hnd].
  assert (∀ n, n ∈ dict_keys circt ↔ n ∈ supplied.*1) as Hsup.
  { intros n.
    rewrite (resolve_loop_keys type_call create_const_zero b _ supplied [] circt n Hres).
    unfold dict_keys at 1. simpl. rewrite elem_of_nil. tauto. }
  assert (∀ k, k ∈ port_name <$> inputs b st → k ∈ Some <$> dict_keys circt) as Hall.
  { intros k Hk. apply (proj2 (lookup_keys b st)) in Hk.
    destruct (decide (k ∈ Some <$> dict_keys circt)) as [|Hnotin]; [done|].
    assert (k ∈ missing_inputs b st circt) as Hin
      by (unfold missing_inputs; by apply list_elem_of_filter).
    rewrite Hnil in Hin. by apply elem_of_nil in Hin. }
  split_and!; try done.
  - by apply Hnd, NoDup_nil.
  - intros n. split.
    + intros Hn. apply Hsup, Hknown in Hn as [port Hport].
      apply lookup_known in Hport as [Hin Hname].
      rewrite <- Hname. by apply list_elem_of_fmap_2.
    + intros Hn. apply Hall, list_elem_of_fmap in Hn as (n' & [= <-] & Hn'). done.
  - intros p Hp.
    assert (port_name p ∈ Some <$> dict_keys circt) as Hn
      by by apply Hall, list_elem_of_fmap_2.
    apply list_elem_of_fmap in Hn as (n & -> & _). eauto.
Qed.

Lemma resolve_signals (b : Builder) (st : store)
    (supplied : list (string * @Signal Ty Val)) : ∀ circt,
  NoDup supplied.*1 →
  (∀ n, n ∈ supplied.*1 → n ∉ dict_keys circt) →
  (∀ n, n ∈ supplied.*1 → Some n ∈ port_name <$> inputs b st) →
  (∀ n sg port, (n, sg) ∈ supplied → port ∈ inputs b st →
     port_name port = Some n → sig_type sg = port_type port) →
  for_each (resolve_input b (port_input_lookup b st)) circt
    (prod_map id VSignal <$> supplied) =
  Ok (circt ++ (prod_map id sig_value <$> supplied))%list.
Proof.
  induction supplied as [|[n sg] supplied IH]; intros circt Hnd Hfresh Hknown Hty.
  { simpl. by rewrite app_nil_r. }
  rewrite fmap_cons, for_each_cons. simpl in Hnd. apply NoDup_cons in Hnd as [Hn Hnd].
  unfold resolve_input at 2. simpl.
  destruct (dict_get (port_input_lookup b st) (Some n)) as [port|] eqn:Hget.
  2:{ apply dict_get_None in Hget. destruct Hget.
      apply (proj2 (lookup_keys b st)), Hknown. rewrite fmap_cons. by left. }
  destruct (lookup_known _ _ _ _ Hget) as [Hin Hname].
  rewrite decide_False.
  2:{ intros Hne. apply Hne. by apply (Hty n sg port); [left|..]. }
  simpl. rewrite dict_set_fresh by (apply Hfresh; rewrite fmap_cons; by left).
  rewrite IH; [by rewrite <- app_assoc|done|..].
  - intros n' Hn'. unfold dict_keys. rewrite fmap_app, elem_of_app.
    intros [Hc|Hc].
    + apply (Hfresh n'); [rewrite fmap_cons; by right|done].
    + simpl in Hc. apply list_elem_of_singleton in Hc as ->. done.
  - intros n' Hn'. apply Hknown. rewrite fmap_cons. by right.
  - intros n' sg' port' Hin'. apply Hty. by right.
Qed.

(** X7.  When the supplied names are distinct and are exactly the names
    of the input ports, and each is given a signal of its port's type, the
    instantiation succeeds, and the instance binds each name to the value of
    its signal, in the order supplied. *)
Theorem instantiate_signals (b : Builder) (st : store)
    (supplied : list (string * @Signal Ty Val)) iname :
  NoDup supplied.*1 →
  (∀ k, k ∈ port_name <$> inputs b st ↔ k ∈ Some <$> supplied.*1) →
  (∀ n sg port, (n, sg) ∈ supplied → port ∈ inputs b st →
     port_name port = Some n → sig_type sg = port_type port) →
  instantiate b st (prod_map id VSignal <$> supplied) iname =
    Ok (mkInstance (modcls_name b) iname (prod_map id sig_value <$> supplied)
          (instance_parameters b)).
Proof.
  intros Hnd Hnames Hty. unfold instantiate, resolve_inputs.
  rewrite (resolve_signals b st supplied []); [|done| |by intros n Hn; apply Hnames, list_elem_of_fmap_2|done].
  2:{ intros n _ Hn. by apply elem_of_nil in Hn. }
  simpl.
  assert (missing_inputs b st (prod_map id sig_value <$> supplied) = []) as ->; [|done].
  unfold missing_inputs. apply filter_none.
  intros k Hk Hnotin. apply Hnotin.
  apply (proj1 (lookup_keys b st)), Hnames in Hk.
  unfold dict_keys.
  replace ((prod_map id sig_value <$> supplied).*1) with (supplied.*1); [done|].
  clear. induction supplied as [|[n sg] l IH]; [done|].
  rewrite !fmap_cons. simpl. by f_equal.
Qed.

End instantiation_more.

Lemma instantiate_binds_inputs_witness :
  Examples.inst Examples.Primitive
    [("lhs", Examples.byte 1); ("rhs", VNone); ("clk", Examples.byte 2)] =
    Ok (mkInstance "Primitive" "inst" [("lhs", 1); ("rhs", 0); ("clk", 2)] []) ∧
  NoDup ["lhs"; "rhs"; "clk"] ∧
  ("clk" ∈ ["lhs"; "rhs"; "clk"] ↔
   Some "clk" ∈ port_name <$> inputs (Examples.scanned_builder Examples.Primitive)
                               (Examples.scanned_store Examples.Primitive)).
Proof.
  split; [vm_compute; reflexivity|].
  destruct (instantiate_binds_inputs Examples.type_call
              Examples.create_const_zero
              (Examples.scanned_builder Examples.Primitive)
              (Examples.scanned_store Examples.Primitive)
              [("lhs", Examples.byte 1); ("rhs", VNone); ("clk", Examples.byte 2)]
              "inst"
              (mkInstance "Primitive" "inst" [("lhs", 1); ("rhs", 0); ("clk", 2)] []))
    as (Hnd & _ & Hports & _).
  - vm_compute; reflexivity.
  - split; [exact Hnd | exact (Hports "clk")].
Defined.

Lemma instantiate_signals_witness :
  Examples.inst Examples.Primitive
    [("rhs", Examples.byte 3); ("clk", Examples.byte 1); ("lhs", Examples.byte 2)] =
  Ok (mkInstance "Primitive" "inst" [("rhs", 3); ("clk", 1); ("lhs", 2)] []).
Proof.
  apply (instantiate_signals Examples.type_call Examples.create_const_zero
           (Examples.scanned_builder Examples.Primitive)
           (Examples.scanned_store Examples.Primitive)
           [("rhs", mkSignal 8 3); ("clk", mkSignal 8 1); ("lhs", mkSignal 8 2)]
           "inst").
  - apply (bool_decide_unpack _). vm_compute. reflexivity.
  - intros k. vm_compute. set_unfold. intuition (subst; eauto).
  - intros n sg port Hin Hport _. vm_compute in Hin, Hport. set_unfold.
    destruct Hin as [[= -> ->]|[[= -> ->]|[[= -> ->]|[]]]];
      destruct Hport as [->|[->|[->|[]]]]; reflexivity.
Defined.

(** ** The decorator's checks, and calls that fail *)

Section parameterization_more.
Context {Ty Val Const Attr PyObj : Type} `{Countable Attr}.
Variable obj_to_attribute : list (string * PyObj) → list (string * Attr).

Local Abbreviation py_function := (@py_function Ty Val Const Attr PyObj).
Local Abbreviation cache_state := (@cache_state Ty Val Const Attr PyObj _ _).
Local Abbreviation modparams_call := (@modparams_call Ty Val Const Attr PyObj _ _ obj_to_attribute).

Lemma signature_loop (l : list (@sig_parameter PyObj)) :
  for_each (λ (_ : unit) p,
      match kind p with
      | VAR_KEYWORD | VAR_POSITIONAL => Raise TypeError_signature
      | _ => Ok ()
      end) () l =
  if forallb (λ p, match kind p with
                   | VAR_KEYWORD | VAR_POSITIONAL => false
                   | _ => true
                   end) l
  then Ok () else Raise TypeError_signature.
Proof.
  induction l as [|p l IH]; [done|].
  rewrite for_each_cons. simpl. by destruct (kind p).
Qed.

(** X8.  [modparams] accepts a function exactly when none of its
    parameters is variadic: it then keeps the function as it is; a function
    with a [*args] or a [**kwargs] parameter is refused with a [TypeError]
    when the decorator is applied. *)
Theorem modparams_init_variadic (func : py_function) :
  ((∀ p, p ∈ sig func → kind p ≠ VAR_POSITIONAL ∧ kind p ≠ VAR_KEYWORD) →
   modparams_init func = Ok func) ∧
  ((∃ p, p ∈ sig func ∧ (kind p = VAR_POSITIONAL ∨ kind p = VAR_KEYWORD)) →
   modparams_init func = Raise TypeError_signature).
Proof.
  unfold modparams_init. rewrite signature_loop. split.
  - intros Hall.
    rewrite (proj2 (forallb_forall _ _)); [done|].
    intros p Hp. apply list_elem_of_In, Hall in Hp as [? ?]. by destruct (kind p).
  - intros (p & Hp & Hkind).
    destruct (forallb _ (sig func)) eqn:Hfor; [|done].
    rewrite forallb_forall in Hfor. apply list_elem_of_In, Hfor in Hp.
    by destruct Hkind as [Hk|Hk]; rewrite Hk in Hp.
Qed.

(** X9.  A call of a wrapped function that raises (its arguments do not
    bind, the function body raises, or it returns something that is no
    [Module] class) leaves the module cache and the classes defined so far
    as they were. *)
Theorem modparams_call_failure (f : py_function) (st st' : cache_state)
    args kwargs e :
  modparams_call f st args kwargs = (st', Raise e) →
  _MODULE_CACHE st' = _MODULE_CACHE st ∧ classes st' = classes st.
Proof.
  unfold modparams_call.
  destruct (bind (sig f) args kwargs) as [arguments|]; [|by intros [= <- _]].
  destruct (_MODULE_CACHE st !! _); [by intros [= <- _]|].
  destruct (call f arguments); by intros [= <-].
Qed.

End parameterization_more.

Lemma modparams_init_variadic_witness :
  modparams_init Examples.make_adder = Ok Examples.make_adder ∧
  modparams_init Designs.make_variadic = Raise TypeError_signature.
Proof.
  split.
  - apply (proj1 (modparams_init_variadic Examples.make_adder)).
    intros p Hp. vm_compute in Hp. set_unfold.
    destruct Hp as [->|[->|[]]]; split; discriminate.
  - apply (proj2 (modparams_init_variadic Designs.make_variadic)).
    exists Designs.rest_parameter. split; [|by left].
    unfold Designs.make_variadic. simpl. set_unfold. tauto.
Defined.

Lemma modparams_call_failure_witness :
  _MODULE_CACHE
    (modparams_call Examples.to_attr Examples.make_adder
       (Examples.after [(Examples.make_adder, ["8"], [])]).1 ["0"] []).1 =
  _MODULE_CACHE (Examples.after [(Examples.make_adder, ["8"], [])]).1.
Proof.
  apply (modparams_call_failure Examples.to_attr Examples.make_adder
           (Examples.after [(Examples.make_adder, ["8"], [])]).1
           (modparams_call Examples.to_attr Examples.make_adder
              (Examples.after [(Examples.make_adder, ["8"], [])]).1 ["0"] []).1
           ["0"] [] (UserException 0)).
  vm_compute; reflexivity.
Defined.

(** ** The attributes a scan leaves on the builder *)

Section attribute_facts.
Context {Ty Val Const Attr PyObj : Type}.
Variable obj_to_attribute : PyObj → Attr.
Variable unit_attr : Attr.
Variable output_file_attr : string → Attr.

Local Abbreviation Builder := (@ModuleLikeBuilderBase Ty Val Const Attr PyObj).
Local Abbreviation store := (ref → @ModuleDecl Ty).
Local Abbreviation scan_attr := (@scan_attr Ty Val Const Attr PyObj obj_to_attribute unit_attr).
Local Abbreviation scan_cls := (@scan_cls Ty Val Const Attr PyObj obj_to_attribute unit_attr).
Local Abbreviation scan_attributes := (@scan_attributes Attr PyObj obj_to_attribute unit_attr).





End attribute_facts.

(** *** What an [Attributes] declaration gives *)

Section attribute_group_facts.
Context {Ty Val Const Attr PyObj : Type}.
Variable obj_to_attribute : PyObj → Attr.
Variable unit_attr : Attr.

Local Abbreviation Builder := (@ModuleLikeBuilderBase Ty Val Const Attr PyObj).
Local Abbreviation store := (ref → @ModuleDecl Ty).
Local Abbreviation scan_attr := (@scan_attr Ty Val Const Attr PyObj obj_to_attribute unit_attr).
Local Abbreviation scan_cls := (@scan_cls Ty Val Const Attr PyObj obj_to_attribute unit_attr).
Local Abbreviation scan_attributes := (@scan_attributes Attr PyObj obj_to_attribute unit_attr).

Lemma dict_get_set {K V} `{EqDecision K} (d : list (K * V)) k v k' :
  dict_get (dict_set d k v) k' = if decide (k = k') then Some v else dict_get d k'.
Proof.
  induction d as [|[k0 v0] d IH]; simpl.
  { by destruct (decide (k = k')). }
  destruct (decide (k0 = k)) as [->|Hne]; simpl.
  - by destruct (decide (k = k')).
  - rewrite IH. destruct (decide (k0 = k')) as [->|]; [|done].
    by rewrite decide_False by done.
Qed.

(** The bodies of the two comprehensions. *)
Local Abbreviation tuple_step :=
  (λ (d : list (string * Attr)) (m : @mod_attr PyObj),
     match m with
     | AttrTuple k v => Ok (dict_set d k (obj_to_attribute v))
     | AttrShortTuple => Raise IndexError
     | AttrUnhashableKey _ => Raise TypeError_unhashable
     | AttrFlag _ | AttrUnhashable => Ok d
     end).
Local Abbreviation flag_step :=
  (λ (d : list (string * Attr)) (m : @mod_attr PyObj),
     match m with
     | AttrFlag k => Ok (dict_set d k unit_attr)
     | AttrUnhashable => Raise TypeError_unhashable
     | AttrTuple _ _ | AttrShortTuple | AttrUnhashableKey _ => Ok d
     end).







(** *** The groups the comprehensions refuse *)






End attribute_group_facts.




(** ** Reading inputs through the proxy *)

Section get_input_facts.
Context {Ty Val Const Attr PyObj : Type} `{EqDecision Ty}.
Variable block_arg : nat → Val.
Variable obj_to_attribute : PyObj → Attr.
Variable unit_attr : Attr.

Local Abbreviation Builder := (@ModuleLikeBuilderBase Ty Val Const Attr PyObj).
Local Abbreviation store := (ref → @ModuleDecl Ty).
Local Abbreviation Proxy := (@PortProxyBase Ty Val Const Attr PyObj).
Local Abbreviation scan_cls := (@scan_cls Ty Val Const Attr PyObj obj_to_attribute unit_attr).
Local Abbreviation fresh_ports := (@fresh_ports Ty Val Const Attr PyObj block_arg).

Lemma filter_fmap_class (f : decl_class → bool) (st1 st2 : store) (l : list ref) :
  same_kinds st1 st2 →
  filter (λ p, f (port_class p) = true) (st1 <$> l) =
  st1 <$> filter (λ r, f (port_class (st2 r)) = true) l.
Proof.
  intros Hk. induction l as [|r l IH]; [done|].
  rewrite fmap_cons, !filter_cons. destruct (Hk r) as [<- _].
  destruct (decide (f (port_class (st1 r)) = true)); simpl; by rewrite IH.
Qed.

(** The indices in [clocks] are the positions, among the input ports, of
    the ports declared as clocks. *)
Lemma clock_indices_elem (st : store) es : ∀ n i,
  i ∈ clock_indices st n es ↔
  ∃ j r, i = n + j ∧
    filter (λ r, isinstance_Input (port_class (st r)) = true) es.*2 !! j = Some r ∧
    isinstance_Clock (port_class (st r)) = true.
Proof.
  induction es as [|[x r] es IH]; intros n i; simpl.
  { rewrite elem_of_nil. split; [done|]. by intros (j & r & _ & ? & _). }
  rewrite filter_cons. simpl.
  destruct (isinstance_Clock (port_class (st r))) eqn:Hclk.
  - assert (isinstance_Input (port_class (st r)) = true) as Hin
      by by destruct (port_class (st r)).
    rewrite decide_True by done. rewrite elem_of_cons, IH. split.
    + intros [->|(j & r' & -> & Hj & Hr')].
      * exists 0, r. split_and!; [lia|done..].
      * exists (S j), r'. split_and!; [lia|done..].
    + intros ([|j] & r' & -> & Hj & Hr'); [left; lia|].
      right. exists j, r'. split_and!; [lia|done..].
  - destruct (isinstance_Input (port_class (st r))) eqn:Hin.
    + rewrite decide_True by done. rewrite IH. split.
      * intros (j & r' & -> & Hj & Hr'). exists (S j), r'. split_and!; [lia|done..].
      * intros ([|j] & r' & -> & Hj & Hr'); simpl in Hj.
        { injection Hj as <-. congruence. }
        exists j, r'. split_and!; [lia|done..].
    + rewrite decide_False by congruence. apply IH.
Qed.

Lemma scan_cls_clock_positions (b0 b : Builder) (st0 st : store) i :
  scan_cls b0 st0 = Ok (b, st) →
  i ∈ clocks b ↔
  ∃ p, inputs b st !! i = Some p ∧ isinstance_Clock (port_class p) = true.
Proof.
  intros Hscan.
  destruct (scan_cls_spec _ _ _ _ _ _ Hscan) as (_ & _ & Hp & Hs & Hc).
  assert (same_kinds st st0) as Hk.
  { rewrite Hs. by apply apply_writes_kinds. }
  unfold inputs. rewrite (filter_fmap_class isinstance_Input st st0) by done.
  rewrite Hc, Hp, elem_of_list_to_set, clock_indices_elem. split.
  - intros (j & r & -> & Hj & Hr). exists (st r). simpl.
    rewrite list_lookup_fmap, Hj. split; [done|]. by destruct (Hk r) as [-> _].
  - intros (p & Hi & Hclk). rewrite list_lookup_fmap in Hi.
    destruct (filter _ _ !! i) as [r|] eqn:Hr; [|done].
    injection Hi as <-. exists i, r. split_and!; [done..|].
    by destruct (Hk r) as [<- _].
Qed.

(** X12.  Through the proxy [generate] builds for a scanned definition,
    reading input [i] gives the [i]-th argument of the entry block: as a
    clock signal when the [i]-th input port is declared a clock, as an
    ordinary signal otherwise; an index beyond the input ports raises
    [IndexError]. *)
Theorem get_input_clock (b0 b : Builder) (st0 st : store) (i : nat) :
  scan_cls b0 st0 = Ok (b, st) →
  _get_input (fresh_ports b st) i =
    match inputs b st !! i with
    | Some p =>
        if isinstance_Clock (port_class p)
        then InputOk (ClockSignal (block_arg i))
        else InputOk (FromCirctValue (block_arg i))
    | None => InputRaise IndexError
    end.
Proof.
  intros Hscan. unfold _get_input, fresh_ports, PortProxyBase_init.
  simpl. rewrite list_lookup_fmap.
  destruct (inputs b st !! i) as [p|] eqn:Hp.
  - rewrite lookup_seq_lt by by eapply lookup_lt_Some. simpl.
    destruct (isinstance_Clock (port_class p)) eqn:Hclk.
    + rewrite decide_True; [done|].
      apply (scan_cls_clock_positions _ _ _ _ _ Hscan). eauto.
    + rewrite decide_False; [done|]. intros Hi.
      apply (scan_cls_clock_positions _ _ _ _ _ Hscan) in Hi as (p' & Hp' & Hclk').
      congruence.
  - rewrite lookup_seq_ge by by apply lookup_ge_None. done.
Qed.

End get_input_facts.

Lemma get_input_clock_witness :
  _get_input (fresh_ports Examples.block_arg
                (Examples.scanned_builder Examples.Adder)
                (Examples.scanned_store Examples.Adder)) 0 =
    InputOk (ClockSignal 1000) ∧
  _get_input (fresh_ports Examples.block_arg
                (Examples.scanned_builder Examples.Adder)
                (Examples.scanned_store Examples.Adder)) 2 =
    InputOk (FromCirctValue 1002) ∧
  _get_input (fresh_ports Examples.block_arg
                (Examples.scanned_builder Examples.Adder)
                (Examples.scanned_store Examples.Adder)) 3 =
    InputRaise IndexError.
Proof.
  split_and!;
    rewrite (get_input_clock Examples.block_arg (λ o : string, o) "unit"
               Examples.Adder (Examples.scanned_builder Examples.Adder)
               Examples.markers (Examples.scanned_store Examples.Adder))
      by (vm_compute; reflexivity);
    vm_compute; reflexivity.
Defined.

(** ** The proxy class of a scanned definition *)

Lemma NoDup_fmap_inj {A B} (f : A → B) (l : list A) x y :
  NoDup (f <$> l) → x ∈ l → y ∈ l → f x = f y → x = y.
Proof.
  induction l as [|a l IH]; intros Hnd Hx Hy Hf.
  { by apply elem_of_nil in Hx. }
  rewrite fmap_cons in Hnd. apply NoDup_cons in Hnd as [Hn Hnd].
  apply elem_of_cons in Hx as [->|Hx]; apply elem_of_cons in Hy as [->|Hy];
    [done| | |by apply IH].
  - destruct Hn. rewrite Hf. by apply list_elem_of_fmap_2.
  - destruct Hn. rewrite <- Hf. by apply list_elem_of_fmap_2.
Qed.

(** A dictionary filled from a list whose keys are distinct. *)
Lemma dict_get_fold {A K V} `{EqDecision K} (key : A → K) (val : A → V)
    (l : list A) : ∀ (d : list (K * V)) k,
  NoDup (key <$> l) →
  (∀ x, x ∈ l → key x = k →
     dict_get (fold_left (λ d x, dict_set d (key x) (val x)) l d) k
       = Some (val x)) ∧
  (k ∉ key <$> l →
     dict_get (fold_left (λ d x, dict_set d (key x) (val x)) l d) k
       = dict_get d k).
Proof.
  induction l as [|a l IH]; intros d k Hnd.
  { split; [|done]. intros x Hx. by apply elem_of_nil in Hx. }
  rewrite fmap_cons in Hnd. apply NoDup_cons in Hnd as [Hn Hnd].
  destruct (IH (dict_set d (key a) (val a)) k Hnd) as [IH1 IH2].
  cbn [fold_left]. split.
  - intros x Hx Hk. apply elem_of_cons in Hx as [->|Hx]; [|by apply IH1].
    rewrite IH2 by by rewrite <- Hk.
    by rewrite dict_get_set, decide_True.
  - rewrite fmap_cons, not_elem_of_cons. intros [Hne Hnotin].
    rewrite IH2 by done. by rewrite dict_get_set, decide_False.
Qed.

Section proxy_class_facts.
Context {Ty Val Const Attr PyObj : Type}.
Variable obj_to_attribute : PyObj → Attr.
Variable unit_attr : Attr.

Local Abbreviation Builder := (@ModuleLikeBuilderBase Ty Val Const Attr PyObj).
Local Abbreviation store := (ref → @ModuleDecl Ty).
Local Abbreviation scan_attr := (@scan_attr Ty Val Const Attr PyObj obj_to_attribute unit_attr).
Local Abbreviation scan_cls := (@scan_cls Ty Val Const Attr PyObj obj_to_attribute unit_attr).
Local Abbreviation go := (@go Ty Val Const Attr PyObj obj_to_attribute unit_attr).

Local Abbreviation key p := (from_option id "" (port_name p)).
Local Abbreviation index p := (from_option id 0 (port_idx p)).
Local Abbreviation declared p := (is_Some (port_name p) ∧ is_Some (port_idx p)).

Lemma registered_keys_sublist (d : list (string * @class_attr Ty Val Const PyObj)) :
  (registered d).*1 `sublist_of` d.*1.
Proof.
  induction d as [|[n a] d IH]; [done|].
  unfold registered. simpl. fold (registered d).
  destruct (String.prefix "_" n); [by apply sublist_cons|].
  destruct (decide (n = "Attributes")); [by apply sublist_cons|].
  destruct a; try by apply sublist_cons. by apply sublist_skip.
Qed.

Lemma writes_indexed (st : store) es : ∀ n_in n_out r d,
  (r, d) ∈ writes st n_in n_out es → is_Some (port_idx d).
Proof.
  induction es as [|[n r0] es IH]; intros n_in n_out r d Hin; simpl in Hin.
  { by apply elem_of_nil in Hin. }
  destruct (isinstance_Input _);
    apply elem_of_cons in Hin as [[= -> ->]|Hin]; simpl; eauto.
Qed.

(** Every port a scan registers has its name and its index. *)
Lemma scan_cls_declared (b b' : Builder) (st st' : store) :
  scan_cls b st = Ok (b', st') →
  ∀ p, p ∈ st' <$> ports b' → declared p.
Proof.
  intros Hscan p Hp.
  destruct (scan_cls_spec _ _ _ _ _ _ Hscan) as (_ & _ & Hports & Hst & _).
  apply list_elem_of_fmap in Hp as (r & -> & Hr).
  rewrite Hports, <- (writes_keys st _ 0 0) in Hr.
  destruct (apply_writes_elem _ st r Hr) as (d & Hd & Heq).
  rewrite Hst, Heq. split; [by eapply writes_named|by eapply writes_indexed].
Qed.

Lemma inputs_declared (b : Builder) (st : store) :
  (∀ p, p ∈ st <$> ports b → declared p) →
  Forall (λ p, declared p) (inputs b st) ∧ Forall (λ p, declared p) (outputs b st).
Proof.
  intros Hall. unfold inputs, outputs.
  split; apply Forall_forall; intros p Hp;
    apply list_elem_of_filter in Hp as [_ Hp]; by apply Hall.
Qed.

(** *** The loops of [create_port_proxy] on declared ports *)

Lemma input_loop (l : list (@ModuleDecl Ty)) : ∀ d,
  Forall (λ p, declared p) l →
  for_each input_property d l =
    Ok (fold_left (λ d p, dict_set d (key p) (InputProperty (index p))) l d).
Proof.
  induction l as [|p l IH]; intros d Hall; [done|].
  apply Forall_cons in Hall as [[[n Hn] [i Hi]] Hall].
  rewrite for_each_cons. unfold input_property at 1. rewrite Hn, Hi. simpl.
  rewrite IH by done. by rewrite Hn, Hi.
Qed.

Lemma output_loop (l : list (@ModuleDecl Ty)) : ∀ d1 d2,
  Forall (λ p, declared p) l →
  for_each output_property (d1, d2) l =
    Ok (fold_left (λ d p, dict_set d (key p) (OutputProperty (index p))) l d1,
        fold_left (λ d p, dict_set d (key p) (index p)) l d2).
Proof.
  induction l as [|p l IH]; intros d1 d2 Hall; [done|].
  apply Forall_cons in Hall as [[[n Hn] [i Hi]] Hall].
  rewrite for_each_cons. unfold output_property at 1. rewrite Hn, Hi. simpl.
  rewrite IH by done. by rewrite Hn, Hi.
Qed.

Lemma accessors_loop (l : list (@ModuleDecl Ty)) : ∀ d,
  Forall (λ p, declared p) l →
  ∃ d', for_each (λ named_outputs port,
            match port_name port with
            | None => Raise AssertionError
            | Some name => Ok (dict_set named_outputs name port)
            end) d l = Ok d'.
Proof.
  induction l as [|p l IH]; intros d Hall; [by exists d|].
  apply Forall_cons in Hall as [[[n Hn] _] Hall].
  rewrite for_each_cons, Hn. simpl. by apply IH.
Qed.

(** X13.  [go] raises exactly when the scan does, and then what the scan
    raised: after a completed scan the assertions of [create_port_proxy]
    and of [add_external_port_accessors] on the names and indices of the
    ports hold, so both succeed and [go] yields the scanned builder and
    markers together with the proxy class, named after the class, and the
    accessor for the outputs. *)
Theorem go_after_scan (b : Builder) (st : store) :
  match scan_cls b st with
  | Ok (b', st') =>
      ∃ cls named_outputs,
        create_port_proxy b' st' = Ok cls ∧
        add_external_port_accessors b' st' = Ok named_outputs ∧
        go b st = Ok (b', st', cls, named_outputs) ∧
        proxy_cls_name cls = modcls_name b +:+ "Ports"
  | Raise e => go b st = Raise e
  end.
Proof.
  destruct (scan_cls b st) as [[b' st']|e] eqn:Hscan.
  - destruct (inputs_declared b' st' (scan_cls_declared _ _ _ _ Hscan))
      as [Hin Hout].
    destruct (accessors_loop (outputs b' st') [] Hout) as [named Hnamed].
    assert (∃ cls, create_port_proxy b' st' = Ok cls ∧
                   proxy_cls_name cls = modcls_name b' +:+ "Ports")
      as (cls & Hcls & Hname).
    { unfold create_port_proxy. rewrite input_loop by done. simpl.
      rewrite output_loop by done. simpl. eauto. }
    exists cls, named. split_and!; [done|done| |].
    + unfold go. rewrite Hscan. simpl. rewrite Hcls. simpl.
      unfold add_external_port_accessors. by rewrite Hnamed.
    + rewrite Hname. unfold scan_cls in Hscan.
      destruct (for_each _ _ _); [|done]. by injection Hscan as <- _.
  - unfold go. by rewrite Hscan.
Qed.

(** *** What the proxy class maps each port name to *)

Lemma scan_cls_port_facts (b0 b : Builder) (st0 st : store) :
  scan_cls b0 st0 = Ok (b, st) →
  NoDup (registered (cls_dct b0)).*2 →
  NoDup (cls_dct b0).*1 →
  NoDup (port_name <$> (st <$> ports b)) ∧
  (∀ p, p ∈ st <$> ports b →
        ∃ n, port_name p = Some n ∧ String.prefix "_" n = false) ∧
  (∀ i p, inputs b st !! i = Some p → port_idx p = Some i) ∧
  (∀ i p, outputs b st !! i = Some p → port_idx p = Some i).
Proof.
  intros Hscan Hrefs Hkeys.
  pose proof (scan_cls_decls _ _ _ _ _ _ Hscan Hrefs) as HL.
  split_and!.
  - rewrite HL, writes_names. apply NoDup_fmap_2; [apply _|].
    eapply sublist_NoDup; [exact Hkeys | apply registered_keys_sublist].
  - intros p Hp. rewrite HL in Hp.
    apply (list_elem_of_fmap_2 port_name) in Hp. rewrite writes_names in Hp.
    apply list_elem_of_fmap in Hp as (n & Hn & Hin). exists n. split; [done|].
    apply list_elem_of_fmap in Hin as ([n' r] & -> & Hin).
    by apply registered_spec in Hin as (_ & ? & _).
  - intros i p Hi. unfold inputs in Hi. rewrite HL in Hi.
    pose proof (writes_input_idx st0 (registered (cls_dct b0)) 0 0) as Hidx.
    apply (f_equal (λ l, l !! i)) in Hidx.
    rewrite !list_lookup_fmap, Hi in Hidx. simpl in Hidx.
    rewrite lookup_seq_lt in Hidx by by eapply lookup_lt_Some.
    simpl in Hidx. by injection Hidx.
  - intros i p Hi. unfold outputs in Hi. rewrite HL in Hi.
    pose proof (writes_output_idx st0 (registered (cls_dct b0)) 0 0) as Hidx.
    apply (f_equal (λ l, l !! i)) in Hidx.
    rewrite !list_lookup_fmap, Hi in Hidx. simpl in Hidx.
    rewrite lookup_seq_lt in Hidx by by eapply lookup_lt_Some.
    simpl in Hidx. by injection Hidx.
Qed.

Lemma declared_keys_NoDup (l : list (@ModuleDecl Ty)) :
  Forall (λ p, declared p) l → NoDup (port_name <$> l) →
  NoDup ((λ p, key p) <$> l).
Proof.
  intros Hall Hnd. apply NoDup_fmap_2_strong; [|by eapply NoDup_fmap_1].
  intros x y Hx Hy Hk. apply (NoDup_fmap_inj port_name l); [done..|].
  rewrite Forall_forall in Hall.
  destruct (Hall x Hx) as [[nx Hnx] _]. destruct (Hall y Hy) as [[ny Hny] _].
  rewrite Hnx, Hny in *. simpl in Hk. by rewrite Hk.
Qed.

Lemma create_port_proxy_spec (b0 b : Builder) (st0 st : store) :
  scan_cls b0 st0 = Ok (b, st) →
  NoDup (registered (cls_dct b0)).*2 →
  NoDup (cls_dct b0).*1 →
  ∃ attrs lookup,
    create_port_proxy b st =
      Ok (mkProxyClass (modcls_name b +:+ "Ports") attrs) ∧
    dict_get attrs "_output_port_lookup" = Some (OutputPortLookup lookup) ∧
    dict_get attrs "_name" = Some (ProxyName (modcls_name b)) ∧
    (∀ i p n, inputs b st !! i = Some p → port_name p = Some n →
       dict_get attrs n = Some (InputProperty i)) ∧
    (∀ i p n, outputs b st !! i = Some p → port_name p = Some n →
       dict_get attrs n = Some (OutputProperty i)) ∧
    (∀ n i, dict_get lookup n = Some i ↔
       ∃ p, outputs b st !! i = Some p ∧ port_name p = Some n).
Proof.
  intros Hscan Hrefs Hkeys.
  destruct (inputs_declared b st (scan_cls_declared _ _ _ _ Hscan)) as [Hin Hout].
  destruct (scan_cls_port_facts _ _ _ _ Hscan Hrefs Hkeys)
    as (Hnd & Hpre & Hiidx & Hoidx).
  assert (NoDup (port_name <$> inputs b st)) as Hndi.
  { eapply sublist_NoDup; [exact Hnd|].
    apply fmap_sublist, sublist_filter. }
  assert (NoDup (port_name <$> outputs b st)) as Hndo.
  { eapply sublist_NoDup; [exact Hnd|].
    apply fmap_sublist, sublist_filter. }
  pose proof (declared_keys_NoDup _ Hin Hndi) as Hki.
  pose proof (declared_keys_NoDup _ Hout Hndo) as Hko.
  assert (∀ p q, p ∈ inputs b st → q ∈ outputs b st →
                 port_name p ≠ port_name q) as Hdisj.
  { intros p q Hp Hq Hn. unfold inputs, outputs in Hp, Hq.
    apply list_elem_of_filter in Hp as [Hpc Hp].
    apply list_elem_of_filter in Hq as [Hqc Hq].
    assert (p = q) as -> by by apply (NoDup_fmap_inj port_name (st <$> ports b)).
    by destruct (port_class q). }
  assert (∀ p n, p ∈ st <$> ports b → port_name p = Some n →
                 n ≠ "_name" ∧ n ≠ "_output_port_lookup") as Hplain.
  { intros p n Hp Hn. destruct (Hpre p Hp) as (n' & Hn' & Hpfx).
    rewrite Hn in Hn'. injection Hn' as <-. split; by intros ->. }
  unfold create_port_proxy. rewrite input_loop by done. simpl.
  rewrite output_loop by done. simpl.
  eexists _, _. split; [reflexivity|]. split_and!.
  - rewrite dict_get_set, decide_False by done.
    by rewrite dict_get_set, decide_True.
  - by rewrite dict_get_set, decide_True.
  - intros i p n Hi Hn.
    assert (p ∈ inputs b st) as Hp by by eapply list_elem_of_lookup_2.
    assert (p ∈ st <$> ports b) as HpL
      by (unfold inputs in Hp; by apply list_elem_of_filter in Hp as [_ ?]).
    destruct (Hplain p n HpL Hn) as [Hn1 Hn2].
    rewrite !dict_get_set, !decide_False by done.
    rewrite (proj2 (dict_get_fold (λ p, key p) (λ p, OutputProperty (index p))
                      (outputs b st) _ n Hko)).
    2:{ intros Hk. apply list_elem_of_fmap in Hk as (q & Hq & Hqin).
        apply (Hdisj p q Hp Hqin). rewrite Forall_forall in Hout.
        destruct (Hout q Hqin) as [[nq Hnq] _]. rewrite Hnq in Hq |- *.
        simpl in Hq. by rewrite Hn, Hq. }
    rewrite (proj1 (dict_get_fold (λ p, key p) (λ p, InputProperty (index p))
                      (inputs b st) [] n Hki) p Hp) by by rewrite Hn.
    by rewrite (Hiidx i p Hi).
  - intros i p n Hi Hn.
    assert (p ∈ outputs b st) as Hp by by eapply list_elem_of_lookup_2.
    assert (p ∈ st <$> ports b) as HpL
      by (unfold outputs in Hp; by apply list_elem_of_filter in Hp as [_ ?]).
    destruct (Hplain p n HpL Hn) as [Hn1 Hn2].
    rewrite !dict_get_set, !decide_False by done.
    rewrite (proj1 (dict_get_fold (λ p, key p) (λ p, OutputProperty (index p))
                      (outputs b st) _ n Hko) p Hp) by by rewrite Hn.
    by rewrite (Hoidx i p Hi).
  - intros n i.
    destruct (decide (n ∈ (λ p, key p) <$> outputs b st)) as [Hk|Hk].
    + apply list_elem_of_fmap in Hk as (q & Hq & Hqin).
      rewrite (proj1 (dict_get_fold (λ p, key p) (λ p, index p)
                        (outputs b st) [] n Hko) q Hqin) by done.
      apply list_elem_of_lookup in Hqin as [j Hj].
      rewrite Forall_forall in Hout.
      destruct (Hout q (list_elem_of_lookup_2 _ _ _ Hj)) as [[nq Hnq] _].
      rewrite Hnq in Hq. simpl in Hq. subst nq.
      rewrite (Hoidx j q Hj). simpl. split.
      * intros [= <-]. eauto.
      * intros (p & Hp & Hpn). f_equal.
        assert (p = q) as ->.
        { apply (NoDup_fmap_inj port_name (outputs b st)); [done| | |congruence];
            by eapply list_elem_of_lookup_2. }
        apply NoDup_fmap_1 in Hndo.
        by apply (NoDup_lookup _ _ _ _ Hndo Hj Hp).
    + rewrite (proj2 (dict_get_fold (λ p, key p) (λ p, index p)
                        (outputs b st) [] n Hko)) by done.
      simpl. split; [done|]. intros (p & Hp & Hpn). destruct Hk.
      apply list_elem_of_fmap. exists p.
      split; [by rewrite Hpn|by eapply list_elem_of_lookup_2].
Qed.

(** X14.  For a scanned class whose port markers are distinct objects,
    the proxy class [create_port_proxy] builds maps the name of the [i]-th
    input port to a read-only property for input [i] and the name of the
    [i]-th output port to a write-only property for output [i]; its
    [_output_port_lookup] maps exactly the names of the output ports, each
    to the position of its port; and its [_name] is the class name. *)
Theorem create_port_proxy_names (b0 b : Builder) (st0 st : store) :
  scan_cls b0 st0 = Ok (b, st) →
  NoDup (registered (cls_dct b0)).*2 →
  NoDup (cls_dct b0).*1 →
  ∃ cls lookup,
    create_port_proxy b st = Ok cls ∧
    output_port_lookup cls = Ok lookup ∧
    dict_get (proxy_attrs cls) "_name" = Some (ProxyName (modcls_name b)) ∧
    (∀ i p n, inputs b st !! i = Some p → port_name p = Some n →
       dict_get (proxy_attrs cls) n = Some (InputProperty i)) ∧
    (∀ i p n, outputs b st !! i = Some p → port_name p = Some n →
       dict_get (proxy_attrs cls) n = Some (OutputProperty i)) ∧
    (∀ n i, dict_get lookup n = Some i ↔
       ∃ p, outputs b st !! i = Some p ∧ port_name p = Some n).
Proof.
  intros Hscan Hrefs Hkeys.
  destruct (create_port_proxy_spec _ _ _ _ Hscan Hrefs Hkeys)
    as (attrs & lookup & Hcls & Hlook & Hname & Hins & Houts & Hspec).
  eexists _, lookup. split; [exact Hcls|].
  unfold output_port_lookup. simpl. rewrite Hlook. by split_and!.
Qed.

End proxy_class_facts.

Lemma create_port_proxy_names_witness :
  ∃ cls,
    create_port_proxy (Examples.scanned_builder Examples.Adder)
      (Examples.scanned_store Examples.Adder) = Ok cls ∧
    output_port_lookup cls = Ok [("sum", 0)] ∧
    dict_get (proxy_attrs cls) "rhs" = Some (InputProperty 2) ∧
    dict_get (proxy_attrs cls) "sum" = Some (OutputProperty 0).
Proof.
  destruct (create_port_proxy_names (λ o : string, o) "unit"
              Examples.Adder (Examples.scanned_builder Examples.Adder)
              Examples.markers (Examples.scanned_store Examples.Adder))
    as (cls & lookup & Hcls & Hlook & _ & Hin & Hout & _).
  - vm_compute; reflexivity.
  - apply (bool_decide_unpack _). vm_compute. reflexivity.
  - apply (bool_decide_unpack _). vm_compute. reflexivity.
  - exists cls. split; [exact Hcls|]. split_and!.
    + rewrite Hlook. vm_compute in Hcls. injection Hcls as <-.
      vm_compute in Hlook. injection Hlook as <-. reflexivity.
    + eapply (Hin 2); vm_compute; reflexivity.
    + eapply (Hout 0); vm_compute; reflexivity.
Defined.

(** ** Assigning outputs by name, and proxies that outlive their generation *)

Lemma set_outputs_cons {Ty Val Const Attr PyObj : Type} `{EqDecision Ty}
    (type_call : Ty → Const → result Val) (cls : PortProxyClass)
    (st : ref → @ModuleDecl Ty)
    (self : @PortProxyBase Ty Val Const Attr PyObj) name signal rest :
  _set_outputs type_call cls st self ((name, signal) :: rest) =
    match output_port_lookup cls with
    | Raise e => (self, Some e)
    | Ok lookup =>
        match dict_get lookup name with
        | None => (self, Some (PortError_no_output name))
        | Some idx =>
            match _set_output type_call st self idx signal with
            | Ok self' => _set_outputs type_call cls st self' rest
            | Raise e => (self, Some e)
            end
        end
    end.
Proof. done. Qed.

Section set_outputs_facts.
Context {Ty Val Const Attr PyObj : Type} `{EqDecision Ty}.
Variable type_call : Ty → Const → result Val.
Variable OutputOp_error : list Val → option exn.
Variable block_arg : nat → Val.
Variable obj_to_attribute : PyObj → Attr.
Variable unit_attr : Attr.

Local Abbreviation Builder := (@ModuleLikeBuilderBase Ty Val Const Attr PyObj).
Local Abbreviation store := (ref → @ModuleDecl Ty).
Local Abbreviation Proxy := (@PortProxyBase Ty Val Const Attr PyObj).
Local Abbreviation scan_cls := (@scan_cls Ty Val Const Attr PyObj obj_to_attribute unit_attr).
Local Abbreviation fresh_ports := (@fresh_ports Ty Val Const Attr PyObj block_arg).
Local Abbreviation generate := (generate type_call OutputOp_error block_arg).
Local Abbreviation _set_output := (_set_output type_call).
Local Abbreviation _set_outputs := (_set_outputs type_call).
Local Abbreviation signals d :=
  (prod_map id (@VSignal Ty Val Const) <$> (d : list (string * @Signal Ty Val))).

Lemma set_outputs_loop (cls : PortProxyClass) lookup (b : Builder) (st : store) :
  output_port_lookup cls = Ok lookup →
  (∀ n i, dict_get lookup n = Some i ↔
     ∃ p, outputs b st !! i = Some p ∧ port_name p = Some n) →
  NoDup (port_name <$> outputs b st) →
  ∀ (d : list (string * @Signal Ty Val)) (p : Proxy) values,
    _builder p = Some b →
    _output_values p = Some values →
    length values = length (outputs b st) →
    NoDup d.*1 →
    (∀ n sg, (n, sg) ∈ d →
       ∃ port, port ∈ outputs b st ∧ port_name port = Some n ∧
               port_type port = sig_type sg) →
    ∃ p1 values1,
      _set_outputs cls st p (signals d) = (p1, None) ∧
      _builder p1 = Some b ∧ proxy_name p1 = proxy_name p ∧
      _output_values p1 = Some values1 ∧
      length values1 = length values ∧
      ∀ i port n, outputs b st !! i = Some port → port_name port = Some n →
        values1 !! i =
          match dict_get d n with
          | Some sg => Some (Some sg)
          | None => values !! i
          end.
Proof.
  intros Hcls Hlookup Hnames.
  induction d as [|[n sg] d IH]; intros p values Hb Hv Hlen Hnd Hd.
  { exists p, values. by split_and!. }
  rewrite fmap_cons in Hnd. apply NoDup_cons in Hnd as [Hn Hnd].
  destruct (Hd n sg) as (port & Hport & Hpn & Hpt); [by left|].
  apply list_elem_of_lookup in Hport as [i0 Hi0].
  assert (dict_get lookup n = Some i0) as Hget by (apply Hlookup; eauto).
  assert (i0 < length values) as Hlt
    by (rewrite Hlen; by eapply lookup_lt_Some).
  rewrite fmap_cons. cbn [prod_map fst snd id].
  rewrite set_outputs_cons, Hcls, Hget.
  unfold _set_output at 1. rewrite Hb, Hi0. simpl.
  rewrite decide_False by (intros Hne; by apply Hne). simpl.
  rewrite Hv, decide_True by done.
  destruct (IH (mkProxy (proxy_name p) (_block_args p)
                  (Some (<[ i0 := Some sg ]> values)) (Some b))
               (<[ i0 := Some sg ]> values))
    as (p1 & values1 & Hrun & Hb1 & Hn1 & Hv1 & Hlen1 & Hslots);
    [done|done|by rewrite length_insert|done| |].
  { intros n' sg' Hin. apply Hd. by right. }
  exists p1, values1. split_and!; [done..|by rewrite Hlen1, length_insert|].
  intros i port' n' Hi Hn'. rewrite (Hslots i port' n' Hi Hn'). simpl.
  destruct (decide (n = n')) as [<-|Hne].
  - assert (i0 = i) as <-.
    { apply (NoDup_lookup (port_name <$> outputs b st) _ _ (Some n) Hnames);
        rewrite list_lookup_fmap;
        [rewrite Hi0; simpl; by rewrite Hpn|rewrite Hi; simpl; by rewrite Hn']. }
    rewrite (proj2 (dict_get_None d n)) by done.
    by rewrite list_lookup_insert_eq.
  - destruct (dict_get d n'); [done|].
    apply list_lookup_insert_ne. intros <-. congruence.
Qed.

Lemma unassigned_outputs_none (outs : list (@ModuleDecl Ty))
    (values : list (option (@Signal Ty Val))) :
  (∀ i v, values !! i = Some v → i < length outs → is_Some v) →
  unassigned_outputs outs values = [].
Proof.
  intros Hall. unfold unassigned_outputs.
  rewrite (filter_none _ (zip outs values)); [done|].
  intros [o v] Hin Hnone. simpl in Hnone. subst v.
  apply elem_of_lookup_zip_with in Hin as (i & x & y & [= <- <-] & Hx & Hy).
  destruct (Hall i None Hy) as [? [=]]. by eapply lookup_lt_Some.
Qed.

(** X15.  For a scanned class whose port markers are distinct objects,
    [_set_outputs] on a dictionary that gives signals of the right types to
    names of output ports assigns them all: afterwards the slot of every
    output port holds the signal given for the port's name, and is empty if
    none was given; and when the dictionary names every output port, the
    check for unconnected outputs passes. *)
Theorem set_outputs_connects (b0 b : Builder) (st0 st : store)
    (cls : PortProxyClass) (d : list (string * @Signal Ty Val)) :
  scan_cls b0 st0 = Ok (b, st) →
  NoDup (registered (cls_dct b0)).*2 →
  NoDup (cls_dct b0).*1 →
  create_port_proxy b st = Ok cls →
  NoDup d.*1 →
  (∀ n sg, (n, sg) ∈ d →
     ∃ port, port ∈ outputs b st ∧ port_name port = Some n ∧
             port_type port = sig_type sg) →
  ∃ p1 values,
    _set_outputs cls st (fresh_ports b st) (signals d) = (p1, None) ∧
    _output_values p1 = Some values ∧
    length values = length (outputs b st) ∧
    (∀ i port n, outputs b st !! i = Some port → port_name port = Some n →
       values !! i = Some (dict_get d n)) ∧
    ((∀ port, port ∈ outputs b st →
        ∃ n, port_name port = Some n ∧ n ∈ d.*1) →
     _check_unconnected_outputs st p1 = Ok ()).
Proof.
  intros Hscan Hrefs Hkeys Hcls Hnd Hd.
  destruct (create_port_proxy_spec _ _ _ _ _ _ Hscan Hrefs Hkeys)
    as (attrs & lookup & Hcls' & Hlook & _ & _ & _ & Hspec).
  rewrite Hcls in Hcls'. injection Hcls' as ->.
  destruct (scan_cls_port_facts _ _ _ _ _ _ Hscan Hrefs Hkeys) as (Hnames & _).
  assert (NoDup (port_name <$> outputs b st)) as Hndo.
  { eapply sublist_NoDup; [exact Hnames|].
    apply fmap_sublist, sublist_filter. }
  destruct (set_outputs_loop (mkProxyClass (modcls_name b +:+ "Ports") attrs)
              lookup b st) with (d := d) (p := fresh_ports b st)
              (values := replicate (length (outputs b st))
                           (@None (@Signal Ty Val)))
    as (p1 & values1 & Hrun & Hb1 & Hn1 & Hv1 & Hlen1 & Hslots);
    [by unfold output_port_lookup; simpl; rewrite Hlook|done..|
     by rewrite length_replicate|done|done|].
  rewrite length_replicate in Hlen1.
  assert (∀ i port n, outputs b st !! i = Some port → port_name port = Some n →
            values1 !! i = Some (dict_get d n)) as Hfinal.
  { intros i port n Hi Hn. rewrite (Hslots i port n Hi Hn).
    destruct (dict_get d n); [done|].
    apply lookup_replicate_2. by eapply lookup_lt_Some. }
  exists p1, values1. split_and!; [done..|].
  intros Hall.
  rewrite (check_unconnected_outputs_spec st p1 b values1) by (try done; lia).
  rewrite unassigned_outputs_none; [done|].
  intros i v Hi Hlt.
  destruct (lookup_lt_is_Some_2 (outputs b st) i Hlt) as [port Hport].
  destruct (Hall port (list_elem_of_lookup_2 _ _ _ Hport)) as (n & Hn & Hin).
  rewrite (Hfinal i port n Hport Hn) in Hi. injection Hi as <-.
  destruct (dict_get d n) eqn:Hget; [eauto|].
  by apply dict_get_None in Hget.
Qed.

(** X16.  The proxy a generation of a scanned definition leaves behind,
    whether the generation raised or not, is of no use: reading an input
    through it raises a [TypeError], assigning an output raises (an
    [AssertionError] for [None], an [AttributeError] otherwise), and so
    does the check for unconnected outputs. *)
Theorem cleared_proxy_unusable (b0 b : Builder) (st0 st : store)
    (w : @world Val) (p : Proxy) :
  scan_cls b0 st0 = Ok (b, st) →
  length (generators b) = 1 →
  final_ports (generate b st w) = Some p →
  (∀ i, _get_input p i = InputTypeError) ∧
  (∀ st' i v, _set_output st' p i v =
     Raise (match v with VNone => AssertionError | _ => AttributeError end)) ∧
  (∀ st', _check_unconnected_outputs st' p = Raise AssertionError) ∧
  (∀ cls st' lookup n v rest,
     output_port_lookup cls = Ok lookup → is_Some (dict_get lookup n) →
     ∃ e, _set_outputs cls st' p ((n, v) :: rest) = (p, Some e)).
Proof.
  intros Hscan Hlen Hfinal.
  destruct (GeneratorCtxt_init_scanned block_arg _ _ _ _ _ _ Hscan)
    as (c & Hinit & _).
  destruct (generate_outcome type_call OutputOp_error block_arg b st w c Hlen Hinit)
    as (n' & g' & w3 & p3 & _ & _ & Hports & _).
  rewrite Hfinal in Hports. injection Hports as ->.
  split_and!; try done.
  - intros st' i v. by destruct v.
  - intros cls st' lookup n v rest Hcls [idx Hidx].
    rewrite set_outputs_cons, Hcls, Hidx. destruct v; simpl; eauto.
Qed.

End set_outputs_facts.

Lemma set_outputs_connects_witness :
  _set_outputs Examples.type_call (Designs.proxy_class Examples.Adder)
    (Examples.scanned_store Examples.Adder)
    (fresh_ports Examples.block_arg (Examples.scanned_builder Examples.Adder)
       (Examples.scanned_store Examples.Adder))
    [("sum", Examples.byte 100)] =
    (mkProxy "Adder" (Some [1000; 1001; 1002]) (Some [Some (mkSignal 8 100)])
       (Some (Examples.scanned_builder Examples.Adder)), None) ∧
  _check_unconnected_outputs (Examples.scanned_store Examples.Adder)
    (mkProxy "Adder" (Some [1000; 1001; 1002]) (Some [Some (mkSignal 8 100)])
       (Some (Examples.scanned_builder Examples.Adder))) = Ok ().
Proof.
  destruct (set_outputs_connects Examples.type_call Examples.block_arg
              (λ o : string, o) "unit"
              Examples.Adder (Examples.scanned_builder Examples.Adder)
              Examples.markers (Examples.scanned_store Examples.Adder)
              (Designs.proxy_class Examples.Adder)
              [("sum", mkSignal 8 100)])
    as (p1 & values & Hrun & _ & _ & _ & Hcheck).
  - vm_compute; reflexivity.
  - apply (bool_decide_unpack _). vm_compute. reflexivity.
  - apply (bool_decide_unpack _). vm_compute. reflexivity.
  - vm_compute; reflexivity.
  - apply (bool_decide_unpack _). vm_compute. reflexivity.
  - intros n sg Hin. apply list_elem_of_singleton in Hin as [= -> ->].
    exists (mkDecl Output 8 (Some 0) (Some "sum")).
    split_and!; [|reflexivity..]. vm_compute. by left.
  - vm_compute in Hrun. injection Hrun as <-.
    split; [vm_compute; reflexivity|]. apply Hcheck.
    intros port Hport. vm_compute in Hport.
    apply list_elem_of_singleton in Hport as ->.
    exists "sum". split; [reflexivity|]. by left.
Defined.

Lemma cleared_proxy_unusable_witness :
  final_ports (Examples.run Examples.Adder) = Some Designs.cleared ∧
  _get_input Designs.cleared 0 = InputTypeError ∧
  _check_unconnected_outputs (Examples.scanned_store Examples.Adder)
    Designs.cleared = Raise AssertionError.
Proof.
  split; [vm_compute; reflexivity|].
  destruct (cleared_proxy_unusable Examples.type_call
              Examples.OutputOp_error Examples.block_arg (λ o : string, o) "unit"
              Examples.Adder (Examples.scanned_builder Examples.Adder)
              Examples.markers (Examples.scanned_store Examples.Adder)
              Examples.idle Designs.cleared)
    as (Hget & _ & Hcheck & _).
  - vm_compute; reflexivity.
  - vm_compute; reflexivity.
  - vm_compute; reflexivity.
  - split; [apply Hget | apply Hcheck].
Defined.

(** ** Creating instances *)

Section module_init_facts.
Context {Ty Val Const Attr PyObj AppID : Type} `{EqDecision Ty}.
Variable type_call : Ty → Const → result Val.
Variable create_const_zero : Ty → Val.

Local Abbreviation Builder := (@ModuleLikeBuilderBase Ty Val Const Attr PyObj).
Local Abbreviation store := (ref → @ModuleDecl Ty).
Local Abbreviation Module_init :=
  (@Module_init Ty Val Const Attr PyObj AppID _ type_call create_const_zero).
Local Abbreviation instantiate := (@instantiate Ty Val Const Attr PyObj _ type_call create_const_zero).

(** X17.  Creating an instance outside any block context fails with an
    [AssertionError] before the inputs are looked at, and changes nothing.
    Inside a block context it reserves a name in that context, also when the
    instantiation then fails: the name is the instance name given, else the
    object's [instance_name] attribute, else the class name, made unique in
    the context (so it is that name itself when the context does not hold
    it yet); the instantiation is made under the reserved name, and an
    instance that is created carries it, together with the [appid]
    given. *)
Theorem Module_init_instance_name (b : Builder) (st : store)
    (instance_name_attr instance_name : option string) (appid : option AppID)
    (inputs : list (string * @py_value Ty Val Const)) (w : @world Val) :
  let wanted := from_option id (from_option id (modcls_name b) instance_name_attr)
                  instance_name in
  match current_block_context w with
  | None =>
      Module_init b st instance_name_attr instance_name appid inputs w =
        Some (w, Raise AssertionError)
  | Some bc =>
      ∃ sym,
        Module_init b st instance_name_attr instance_name appid inputs w =
          Some (mkWorld (Some (BlockContext.mk ({[ sym ]} ∪ BlockContext.symbols bc)))
                  (trace w) (entry_block w) (terminator w),
                match instantiate b st inputs sym with
                | Ok i => Ok (mkModuleInstance i appid)
                | Raise e => Raise e
                end) ∧
        (sym ∉ BlockContext.symbols bc) ∧
        (wanted ∉ BlockContext.symbols bc → sym = wanted) ∧
        (∀ i, instantiate b st inputs sym = Ok i → inst_name i = sym)
  end.
Proof.
  intros wanted. unfold Module_init.
  destruct (current_block_context w) as [bc|]; [|done].
  assert ((match instance_name with
           | Some n => n
           | None => match instance_name_attr with
                     | Some n => n
                     | None => modcls_name b
                     end
           end) = wanted) as ->.
  { subst wanted. by destruct instance_name, instance_name_attr. }
  destruct (uniquify_loop_total (BlockContext.symbols bc) wanted)
    as (n & Hrun & Hout & Hlt).
  exists (BlockContext.candidate wanted n).
  unfold BlockContext.uniquify_symbol. rewrite Hrun. split_and!; [done|done| |].
  - intros Hfree. destruct n as [|n]; [done|]. destruct Hfree. apply (Hlt 0). lia.
  - intros i. unfold instantiate.
    destruct (resolve_inputs _ _ _ _ _); [|done]. simpl.
    destruct (0 <? _); [by destruct (mapM id _)|]. by intros [= <-].
Qed.

End module_init_facts.

(** ** Metadata *)

Section metadata_facts.
Context {Ty Val Const Attr PyObj : Type}.
Variable obj_to_attribute : PyObj → Attr.

Local Abbreviation Builder := (@ModuleLikeBuilderBase Ty Val Const Attr PyObj).
Local Abbreviation add_metadata :=
  (@add_metadata Ty Val Const Attr PyObj obj_to_attribute).

(** The metadata object as [add_metadata] leaves it. *)
Local Abbreviation filled b doc git m :=
  (let m1 := git_fill git
               (mkMetadata (Some (from_option id (modcls_name b) (md_name m)))
                  (md_repo m) (md_commit_hash m) (md_version m)
                  (md_summary m) (md_misc m)) in
   mkMetadata (md_name m1) (md_repo m1) (md_commit_hash m1) (md_version m1)
     (match md_summary m1 with Some s => Some s | None => doc end)
     (md_misc m1)).

Ltac metadata_cases m git doc :=
  destruct m as [[?|] [?|] [?|] ? [?|] ?];
  destruct git as [|[?|] [?|]]; destruct doc as [?|].

Lemma add_metadata_object (b : Builder) doc git symbol (m : @Metadata PyObj) :
  ∃ op,
    add_metadata b doc git symbol (MetaObject m) =
      MetadataAdded (filled b doc git m) op ∧
    op_symbolRef op = symbol ∧
    op_name op = from_option id (modcls_name b) (md_name m) ∧
    op_repo op = md_repo (filled b doc git m) ∧
    op_commitHash op = md_commit_hash (filled b doc git m) ∧
    op_version op = md_version (filled b doc git m) ∧
    op_summary op = md_summary (filled b doc git m).
Proof.
  unfold add_metadata.
  metadata_cases m git doc; eexists; (split; [reflexivity|]); by split_and!.
Qed.

(** X18.  [add_metadata] never replaces a field the metadata object
    already has: the name, the repository, the commit, the version, the
    summary and the other entries stay as given; a missing name becomes the
    class name and a missing summary the docstring of the class (if it has
    one); the version is never filled in; and the operation that is added
    carries the fields of the object as they are afterwards. *)
Theorem add_metadata_fields (b : Builder) doc git symbol (m : @Metadata PyObj) :
  ∃ m' op,
    add_metadata b doc git symbol (MetaObject m) = MetadataAdded m' op ∧
    md_name m' = Some (from_option id (modcls_name b) (md_name m)) ∧
    (is_Some (md_repo m) → md_repo m' = md_repo m) ∧
    (is_Some (md_commit_hash m) → md_commit_hash m' = md_commit_hash m) ∧
    md_version m' = md_version m ∧
    md_summary m' =
      match md_summary m with Some s => Some s | None => doc end ∧
    md_misc m' = md_misc m ∧
    op_symbolRef op = symbol ∧
    Some (op_name op) = md_name m' ∧
    op_repo op = md_repo m' ∧
    op_commitHash op = md_commit_hash m' ∧
    op_version op = md_version m' ∧
    op_summary op = md_summary m'.
Proof.
  destruct (add_metadata_object b doc git symbol m)
    as (op & Hadd & Hsym & Hname & Hrepo & Hcommit & Hversion & Hsummary).
  exists (filled b doc git m), op.
  split; [exact Hadd|].
  rewrite Hsym, Hname, Hrepo, Hcommit, Hversion, Hsummary.
  clear. metadata_cases m git doc; simpl; split_and!;
    try done; by intros [? [=]].
Qed.

(** X19.  The repository and the commit are looked up only for metadata
    that names neither: if either is given, both stay as they are, whatever
    the lookup would find; if neither is given they become what the lookup
    finds, the commit only together with the repository. *)
Theorem add_metadata_git (b : Builder) doc git symbol (m : @Metadata PyObj) :
  ∃ m' op,
    add_metadata b doc git symbol (MetaObject m) = MetadataAdded m' op ∧
    (is_Some (md_repo m) ∨ is_Some (md_commit_hash m) →
       md_repo m' = md_repo m ∧ md_commit_hash m' = md_commit_hash m) ∧
    (md_repo m = None → md_commit_hash m = None →
       match git with
       | GitRepo (Some url) hexsha =>
           md_repo m' = Some url ∧ md_commit_hash m' = hexsha
       | _ => md_repo m' = None ∧ md_commit_hash m' = None
       end).
Proof.
  destruct (add_metadata_object b doc git symbol m) as (op & Hadd & _).
  exists (filled b doc git m), op.
  split; [exact Hadd|].
  clear. metadata_cases m git doc; simpl; split_and!; try done;
    by intros [[? [=]]|[? [=]]].
Qed.

(** X20.  The metadata object is filled in place, and once filled it
    stays as it is: handing it to [add_metadata] again, for the same class
    or for another one that shares the object, under any symbol, leaves
    every field unchanged; in particular the name stays that of the class
    the object was first used for. *)
Theorem add_metadata_stable (b b' : Builder) doc git symbol symbol'
    (m m' : @Metadata PyObj) op :
  add_metadata b doc git symbol (MetaObject m) = MetadataAdded m' op →
  ∃ op',
    add_metadata b' doc git symbol' (MetaObject m') = MetadataAdded m' op' ∧
    op_name op' = op_name op ∧ op_symbolRef op' = symbol'.
Proof.
  intros Hadd.
  destruct (add_metadata_object b doc git symbol m) as (op0 & Hadd0 & _ & Hname0 & _).
  rewrite Hadd in Hadd0. injection Hadd0 as Hm' Hop.
  destruct (add_metadata_object b' doc git symbol' m')
    as (op' & Hadd' & Hsym' & Hname' & _).
  exists op'. rewrite Hadd', Hname', Hsym', Hop, Hname0, Hm'.
  clear. metadata_cases m git doc; simpl; by split_and!.
Qed.

End metadata_facts.

Lemma add_metadata_stable_witness :
  ∃ op',
    add_metadata (λ o : string, o) Examples.Primitive (Some "An adder.")
      (GitRepo (Some "origin") None) "Primitive_1"
      (MetaObject (mkMetadata (Some "Adder") (Some "origin") None (Some "1.0")
                     (Some "An adder.") None)) =
      MetadataAdded (mkMetadata (Some "Adder") (Some "origin") None (Some "1.0")
                       (Some "An adder.") None) op' ∧
    op_name op' = "Adder".
Proof.
  destruct (add_metadata_stable (λ o : string, o)
              Examples.Adder Examples.Primitive (Some "An adder.")
              (GitRepo (Some "origin") None) "Adder" "Primitive_1"
              (mkMetadata None None None (Some "1.0") None None)
              (mkMetadata (Some "Adder") (Some "origin") None (Some "1.0")
                 (Some "An adder.") None)
              (mkSymbolMetadataOp "Adder" "Adder" (Some "origin") None
                 (Some "1.0") (Some "An adder.") []))
    as (op' & Hadd & Hname & _).
  - vm_compute; reflexivity.
  - exists op'. split; [exact Hadd | exact Hname].
Defined.

(** ** Module operations *)

Section create_op_facts.
Context {Ty Val Const Attr PyObj IrTy : Type}.
Variable obj_to_attribute : PyObj → Attr.
Variable unit_attr : Attr.
Variable obj_to_typed_attribute : PyObj → Ty → Attr.
Variable string_attr : string → Attr.
Variable dict_attr : list (string * Attr) → Attr.
Variable output_file_attr : string → Attr.
Variable attr_type : Attr → IrTy.
Variable _type : Ty → IrTy.
Variable val_str : Attr → string.

Local Abbreviation Builder := (@ModuleLikeBuilderBase Ty Val Const Attr PyObj).
Local Abbreviation store := (ref → @ModuleDecl Ty).
Local Abbreviation scan_cls := (@scan_cls Ty Val Const Attr PyObj obj_to_attribute unit_attr).
Local Abbreviation create_op_common :=
  (@create_op_common Ty Val Const Attr PyObj obj_to_attribute
     obj_to_typed_attribute dict_attr).
Local Abbreviation create_op :=
  (@create_op Ty Val Const Attr PyObj IrTy obj_to_attribute
     obj_to_typed_attribute string_attr dict_attr output_file_attr attr_type
     _type val_str).
Local Abbreviation port_list := (@port_list Ty IrTy _type).

(** What [create_op_common] does to the builder: nothing but the one
    attribute it sets for a parameterized definition. *)
Lemma create_op_common_builder (b : Builder) doc git symbol metadata :
  metadata ≠ Some MetaOther →
  ∃ b' meta ops,
    create_op_common b doc git symbol metadata = CommonDone b' meta ops ∧
    modcls_name b' = modcls_name b ∧ ports b' = ports b ∧
    generators b' = generators b ∧ parameters b' = parameters b ∧
    attributes b' =
      match parameters b with
      | Some ps => dict_set (attributes b) "pycde.parameters" (dict_attr ps)
      | None => attributes b
      end.
Proof.
  intros Hmeta. unfold create_op_common.
  destruct (add_metadata _ _ _ _ _ _) as [|meta op] eqn:Hadd.
  { unfold add_metadata in Hadd. by destruct metadata as [[|m|]|]. }
  destruct (parameters b) eqn:Hp; eexists _, _, _;
    (split; [reflexivity|]); by rewrite ?Hp.
Qed.

(** X21.  The operation created for a definition without a generation
    routine is an external module whose only attribute is [output_file],
    set to [external_modules.sv]: the [verilogName] that [create_op] sets
    just before is overwritten together with the attributes the class
    declared and with [pycde.parameters], on the operation as on the
    builder; the parameters of the definition are declared on the operation
    by name and type. *)
Theorem create_op_extern (b : Builder) (st : store) doc git symbol metadata :
  generators b = [] →
  metadata ≠ Some MetaOther →
  ∃ b' meta ops,
    create_op b st doc git symbol metadata =
      Created b' meta ops
        (HWModuleExternOp symbol (port_list (inputs b st))
           (port_list (outputs b st))
           (match parameters b with
            | Some ps => (λ i, (i.1, attr_type i.2)) <$> ps
            | None => []
            end)
           [("output_file", output_file_attr "external_modules.sv")]) ∧
    attributes b' = [("output_file", output_file_attr "external_modules.sv")] ∧
    dict_get (attributes b') "verilogName" = None ∧
    dict_get (attributes b') "pycde.parameters" = None.
Proof.
  intros Hgen Hmeta.
  destruct (create_op_common_builder b doc git symbol metadata Hmeta)
    as (b1 & meta & ops & Hcommon & Hname & Hports & Hgen1 & Hparams & _).
  unfold create_op. rewrite Hcommon, Hgen1, Hgen. simpl.
  eexists _, meta, ops. split.
  - unfold inputs, outputs. simpl. by rewrite Hports, Hparams.
  - simpl. by split_and!.
Qed.

(** The ports of an operation, read off the class dictionary. *)
Lemma writes_port_list (f : decl_class → bool) (st : store) es : ∀ n_in n_out,
  port_list (filter (λ p, f (port_class p) = true) (writes st n_in n_out es).*2) =
  (λ e, (Some e.1, _type (port_type (st e.2)))) <$>
    filter (λ e, f (port_class (st e.2)) = true) es.
Proof.
  unfold port_list.
  induction es as [|[n r] es IH]; intros n_in n_out; simpl; [done|].
  destruct (isinstance_Input (port_class (st r))); simpl;
    rewrite !filter_cons; simpl;
    destruct (decide (f (port_class (st r)) = true)); simpl;
    by rewrite IH.
Qed.

(** X22.  The operation created for a scanned class whose port markers
    are distinct objects has the ports the class declares: its input ports
    are the input markers registered by the scan, in the order of
    declaration, each under the name it is declared under and with the IR
    type of its declared type, and likewise its output ports, whether the
    definition has a generation routine or is external. *)
Theorem create_op_ports (b0 b : Builder) (st0 st : store) doc git symbol
    metadata :
  scan_cls b0 st0 = Ok (b, st) →
  NoDup (registered (cls_dct b0)).*2 →
  metadata ≠ Some MetaOther →
  ∃ b' meta ops op,
    create_op b st doc git symbol metadata = Created b' meta ops op ∧
    op_input_ports op =
      (λ e, (Some e.1, _type (port_type (st0 e.2)))) <$>
        filter (λ e, isinstance_Input (port_class (st0 e.2)) = true)
          (registered (cls_dct b0)) ∧
    op_output_ports op =
      (λ e, (Some e.1, _type (port_type (st0 e.2)))) <$>
        filter (λ e, isinstance_Output (port_class (st0 e.2)) = true)
          (registered (cls_dct b0)).
Proof.
  intros Hscan Hrefs Hmeta.
  destruct (create_op_common_builder b doc git symbol metadata Hmeta)
    as (b1 & meta & ops & Hcommon & Hname & Hports & Hgen1 & Hparams & _).
  pose proof (scan_cls_decls _ _ _ _ _ _ Hscan Hrefs) as HL.
  assert (port_list (inputs b1 st) =
          (λ e, (Some e.1, _type (port_type (st0 e.2)))) <$>
            filter (λ e, isinstance_Input (port_class (st0 e.2)) = true)
              (registered (cls_dct b0))) as Hin.
  { unfold inputs. rewrite Hports, HL. apply writes_port_list. }
  assert (port_list (outputs b1 st) =
          (λ e, (Some e.1, _type (port_type (st0 e.2)))) <$>
            filter (λ e, isinstance_Output (port_class (st0 e.2)) = true)
              (registered (cls_dct b0))) as Hout.
  { unfold outputs. rewrite Hports, HL. apply writes_port_list. }
  unfold create_op. rewrite Hcommon.
  destruct (0 <? length (generators b1)); eexists _, _, _, _;
    (split; [reflexivity|]); simpl; by rewrite <- Hin, <- Hout.
Qed.

End create_op_facts.

Lemma create_op_extern_witness :
  ∃ b' meta ops,
    Designs.create Examples.Primitive =
      Created b' meta ops
        (HWModuleExternOp "Primitive"
           [(Some "clk", 8); (Some "lhs", 8); (Some "rhs", 8)]
           [(Some "sum", 8)] []
           [("output_file", "external_modules.sv")]).
Proof.
  destruct (create_op_extern (λ o : string, o) (λ (o : string) (_ : nat), o)
              (λ s : string, s) (λ _ : list (string * string), "{}")
              (λ n : string, n) (λ _ : string, 0) (λ t : nat, t)
              (λ a : string, a)
              (Examples.scanned_builder Examples.Primitive)
              (Examples.scanned_store Examples.Primitive)
              None GitUnavailable "Primitive" None)
    as (b' & meta & ops & Hcreate & _).
  - vm_compute; reflexivity.
  - discriminate.
  - exists b', meta, ops. etransitivity; [exact Hcreate | reflexivity].
Defined.

Lemma create_op_ports_witness :
  ∃ b' meta ops op,
    Designs.create Examples.Adder = Created b' meta ops op ∧
    op_input_ports op = [(Some "clk", 8); (Some "lhs", 8); (Some "rhs", 8)] ∧
    op_output_ports op = [(Some "sum", 8)].
Proof.
  destruct (create_op_ports (λ o : string, o) "unit"
              (λ (o : string) (_ : nat), o)
              (λ s : string, s) (λ _ : list (string * string), "{}")
              (λ n : string, n) (λ _ : string, 0) (λ t : nat, t)
              (λ a : string, a)
              Examples.Adder (Examples.scanned_builder Examples.Adder)
              Examples.markers (Examples.scanned_store Examples.Adder)
              None GitUnavailable "Adder" None)
    as (b' & meta & ops & op & Hcreate & Hin & Hout).
  - vm_compute; reflexivity.
  - apply (bool_decide_unpack _). vm_compute. reflexivity.
  - discriminate.
  - exists b', meta, ops, op. split_and!; [exact Hcreate | exact Hin | exact Hout].
Defined.

(** ** Imported modules *)

Lemma filter_app_first {A} (P : A → Prop) `{∀ x, Decision (P x)} (l1 l2 : list A) :
  Forall P l1 → Forall (λ x, ¬ P x) l2 → filter P (l1 ++ l2)%list = l1.
Proof.
  intros H1 H2. rewrite filter_app.
  rewrite (filter_none P l2) by by apply Forall_forall.
  rewrite app_nil_r. induction H1 as [|x l Hx _ IH]; [done|].
  by rewrite filter_cons_True, IH.
Qed.

Lemma filter_app_second {A} (P : A → Prop) `{∀ x, Decision (P x)} (l1 l2 : list A) :
  Forall (λ x, ¬ P x) l1 → Forall P l2 → filter P (l1 ++ l2)%list = l2.
Proof.
  intros H1 H2. rewrite filter_app.
  rewrite (filter_none P l1) by by apply Forall_forall.
  simpl. induction H2 as [|x l Hx _ IH]; [done|].
  by rewrite filter_cons_True, IH.
Qed.

Section import_facts.
Context {Ty Val Const Attr PyObj IrTy : Type}.
Variable obj_to_attribute : PyObj → Attr.
Variable unit_attr : Attr.
Variable output_file_attr : string → Attr.
Variable _FromCirctType : IrTy → Ty.

Local Abbreviation Builder := (@ModuleLikeBuilderBase Ty Val Const Attr PyObj).
Local Abbreviation store := (ref → @ModuleDecl Ty).
Local Abbreviation class_dict := (list (string * @class_attr Ty Val Const PyObj)).
Local Abbreviation scan_cls := (@scan_cls Ty Val Const Attr PyObj obj_to_attribute unit_attr).
Local Abbreviation go := (@go Ty Val Const Attr PyObj obj_to_attribute unit_attr).
Local Abbreviation declare_port := (@declare_port Ty Val Const PyObj IrTy _FromCirctType).
Local Abbreviation import_ports := (@import_ports Ty Val Const PyObj IrTy _FromCirctType).
Local Abbreviation import_modattrs := (@import_modattrs Ty Val Const PyObj IrTy _FromCirctType).
Local Abbreviation import_hw_module :=
  (@import_hw_module Ty Val Const Attr PyObj IrTy obj_to_attribute unit_attr
     output_file_attr _FromCirctType).
Local Abbreviation marker cls :=
  (λ nt : string * IrTy, mkDecl cls (_FromCirctType nt.2) None (Some nt.1)).
Local Abbreviation valid := importable_name.

(** A scan that completes is all [go] needs. *)
Lemma go_scanned (b b' : Builder) (st st' : store) :
  scan_cls b st = Ok (b', st') →
  ∃ cls named_outputs, go b st = Ok (b', st', cls, named_outputs).
Proof.
  intros Hscan.
  destruct (inputs_declared b' st' (scan_cls_declared _ _ _ _ _ _ Hscan))
    as [Hin Hout].
  destruct (accessors_loop (outputs b' st') [] Hout) as [named Hnamed].
  unfold go. rewrite Hscan. simpl.
  unfold create_port_proxy. rewrite input_loop by done. simpl.
  rewrite output_loop by done. simpl.
  unfold add_external_port_accessors. rewrite Hnamed. simpl. eauto.
Qed.

(** One of the loops that fill [modattrs], from any state. *)
Lemma declare_ports_spec cls (l : list (string * IrTy)) :
  ∀ (d : class_dict) (st : store) next,
  NoDup (dict_keys d ++ l.*1)%list →
  let acc := fold_left (declare_port cls) l (d, st, next) in
  acc.1.1 = (d ++ zip l.*1 (APort <$> seq next (length l)))%list ∧
  acc.2 = next + length l ∧
  acc.1.2 <$> seq next (length l) = marker cls <$> l ∧
  (∀ r, r < next → acc.1.2 r = st r).
Proof.
  induction l as [|nt l IH]; intros d st next Hnd acc.
  { subst acc. simpl. rewrite app_nil_r. split_and!; [done|lia|done|done]. }
  subst acc. cbn [fold_left].
  rewrite fmap_cons in Hnd.
  assert (nt.1 ∉ dict_keys d) as Hfresh.
  { apply NoDup_app in Hnd as (_ & Hdisj & _). intros Hin.
    apply (Hdisj _ Hin). by left. }
  assert (declare_port cls (d, st, next) nt =
          ((d ++ [(nt.1, APort next)])%list, <[ next := marker cls nt ]> st,
           S next)) as ->.
  { unfold declare_port. cbn [fst snd]. rewrite dict_set_fresh by done.
    do 2 f_equal. lia. }
  cbv beta.
  destruct (IH (d ++ [(nt.1, APort next)])%list
              (<[ next := marker cls nt ]> st) (S next)) as (Hd & Hn & Hst & Hold).
  { unfold dict_keys in *. rewrite fmap_app, <- app_assoc. simpl.
    by rewrite <- Permutation_middle in Hnd |- *. }
  split_and!.
  - etransitivity; [exact Hd|]. by rewrite <- app_assoc.
  - etransitivity; [exact Hn|]. simpl. lia.
  - cbn [length seq]. rewrite !fmap_cons. f_equal; [|exact Hst].
    etransitivity; [exact (Hold next ltac:(lia))|]. by rewrite fn_lookup_insert.
  - intros r Hr. etransitivity; [exact (Hold r ltac:(lia))|].
    rewrite fn_lookup_insert_ne; [done|lia].
Qed.

Ltac ref_lia := unfold ref in *; lia.

Lemma registered_zip (names : list string) : ∀ (refs : list ref),
  Forall valid names →
  registered (zip names (@APort Ty Val Const PyObj <$> refs)) = zip names refs.
Proof.
  induction names as [|n names IH]; intros [|r refs] Hall; try done.
  apply Forall_cons in Hall as [(Hpre & Hattr & _) Hall].
  unfold registered. simpl. rewrite Hpre, decide_False by done.
  f_equal. by apply IH.
Qed.

Lemma scannable_zip (names : list string) : ∀ (refs : list ref),
  Forall valid names →
  scannable (zip names (@APort Ty Val Const PyObj <$> refs)) = true.
Proof.
  induction names as [|n names IH]; intros [|r refs] Hall; try done.
  apply Forall_cons in Hall as [(Hpre & Hattr & _) Hall].
  unfold scannable. simpl. rewrite Hpre, decide_False by done.
  by apply IH.
Qed.

Lemma writes_classes (st : store) es : ∀ n_in n_out,
  port_class <$> (writes st n_in n_out es).*2 = (λ e, port_class (st e.2)) <$> es ∧
  port_type <$> (writes st n_in n_out es).*2 = (λ e, port_type (st e.2)) <$> es.
Proof.
  induction es as [|[n r] es IH]; intros n_in n_out; [done|].
  cbn [writes].
  destruct (isinstance_Input (port_class (st r)));
    rewrite !fmap_cons; cbn [fst snd port_class port_type];
    [destruct (IH (n_in + 1) n_out) as [Hc Ht]
    |destruct (IH n_in (n_out + 1)) as [Hc Ht]];
    by rewrite Hc, Ht.
Qed.

(** X23.  Importing a module whose port names are distinct, do not begin
    with an underscore and are none of [Attributes], [BuilderType] and
    [hw_module] gives a class whose builder, once the metaclass has run
    [go], has the ports of the module: the input ports in the module's
    order, each with its name, the PyCDE type of its IR type and its
    position as index, and likewise the output ports; the class is named
    after the module. *)
Theorem import_hw_module_ports (st : store) (fresh : ref) (m : @HWModule IrTy) :
  length (input_names m) = length (input_types m) →
  length (output_names m) = length (output_types m) →
  NoDup (input_names m ++ output_names m)%list →
  (∀ n, n ∈ (input_names m ++ output_names m)%list → valid n) →
  ∃ b st' cls named_outputs,
    import_hw_module st fresh m = Ok (b, st', cls, named_outputs) ∧
    modcls_name b = hw_name m ∧
    port_name <$> inputs b st' = Some <$> input_names m ∧
    port_type <$> inputs b st' = _FromCirctType <$> input_types m ∧
    port_idx <$> inputs b st' = Some <$> seq 0 (length (input_names m)) ∧
    port_name <$> outputs b st' = Some <$> output_names m ∧
    port_type <$> outputs b st' = _FromCirctType <$> output_types m ∧
    port_idx <$> outputs b st' = Some <$> seq 0 (length (output_names m)).
Proof.
  intros Hlen_in Hlen_out Hnd Hvalid.
  set (ins := zip (input_names m) (input_types m)).
  set (outs := zip (output_names m) (output_types m)).
  assert (ins.*1 = input_names m) as Hins1 by (apply fst_zip; ref_lia).
  assert (outs.*1 = output_names m) as Houts1 by (apply fst_zip; ref_lia).
  assert (ins.*2 = input_types m) as Hins2 by (apply snd_zip; ref_lia).
  assert (outs.*2 = output_types m) as Houts2 by (apply snd_zip; ref_lia).
  assert (length ins = length (input_names m)) as Hlin
    by (rewrite <- Hins1; by rewrite length_fmap).
  assert (length outs = length (output_names m)) as Hlout
    by (rewrite <- Houts1; by rewrite length_fmap).
  (* the two loops *)
  set (refs1 := seq fresh (length ins)).
  set (refs2 := seq (fresh + length ins) (length outs)).
  destruct (declare_ports_spec Input ins [] st fresh) as (Hd1 & Hn1 & Hst1 & Hold1).
  { unfold dict_keys. simpl. rewrite Hins1. by apply NoDup_app in Hnd as (? & _). }
  assert (import_ports st fresh m =
          fold_left (declare_port Output) outs
            (fold_left (declare_port Input) ins ([], st, fresh))) as HP by done.
  destruct (fold_left (declare_port Input) ins ([], st, fresh))
    as [[d1 s1] n1]. cbn [fst snd] in Hd1, Hn1, Hst1, Hold1.
  fold refs1 in Hd1, Hst1. simpl in Hd1. subst d1 n1.
  destruct (declare_ports_spec Output outs (zip ins.*1 (APort <$> refs1)) s1
              (fresh + length ins)) as (Hd2 & Hn2 & Hst2 & Hold2).
  { unfold dict_keys.
    rewrite fst_zip by (unfold refs1; rewrite ?length_fmap, ?length_seq; ref_lia).
    by rewrite Hins1, Houts1. }
  rewrite <- HP in Hd2, Hn2, Hst2, Hold2. clear HP.
  fold refs2 in Hd2, Hst2.
  set (P := import_ports st fresh m) in *.
  set (st0 := P.1.2) in *.
  assert (st0 <$> refs1 = marker Input <$> ins) as Hst01.
  { rewrite <- Hst1. apply list_fmap_ext. intros i r Hr. apply Hold2.
    apply list_elem_of_lookup_2, elem_of_seq in Hr. lia. }
  (* the class dictionary and what the scan registers *)
  set (names := (input_names m ++ output_names m)%list).
  set (refs := (refs1 ++ refs2)%list).
  assert (length refs1 = length (input_names m)) as Hlr1
    by (unfold refs1; rewrite length_seq; ref_lia).
  assert (length refs2 = length (output_names m)) as Hlr2
    by (unfold refs2; rewrite length_seq; ref_lia).
  assert (P.1.1 = zip names (@APort Ty Val Const PyObj <$> refs)) as Hdict.
  { rewrite Hd2, Hins1, Houts1. unfold names, refs.
    rewrite fmap_app, zip_with_app by (rewrite length_fmap; ref_lia). done. }
  assert (Forall valid names) as Hall by by apply Forall_forall.
  assert (length names = length refs) as Hlnr
    by (unfold names, refs; rewrite !length_app; ref_lia).
  assert (dict_keys (zip names (@APort Ty Val Const PyObj <$> refs)) = names) as Hkeys
    by (apply fst_zip; rewrite length_fmap; ref_lia).
  assert (import_modattrs st fresh m =
          (zip names (@APort Ty Val Const PyObj <$> refs)
             ++ [("BuilderType", AOther); ("hw_module", AOther)])%list) as Hattrs.
  { unfold import_modattrs. cbn zeta. fold P. rewrite Hdict.
    rewrite (dict_set_fresh _ "BuilderType").
    2:{ rewrite Hkeys. intros Hin. by destruct (Hvalid _ Hin) as (_ & _ & ? & _). }
    rewrite dict_set_fresh; [by rewrite <- app_assoc|].
    unfold dict_keys. rewrite fmap_app. fold (dict_keys (zip names (@APort Ty Val Const PyObj <$> refs))).
    rewrite Hkeys. simpl. intros Hin. apply elem_of_app in Hin as [Hin|Hin].
    - by destruct (Hvalid _ Hin) as (_ & _ & _ & ?).
    - by apply list_elem_of_singleton in Hin. }
  set (b0 := ModuleLikeBuilderBase_init output_file_attr (hw_name m) None
               (import_modattrs st fresh m)).
  assert (registered (cls_dct b0) = zip names refs) as Hreg.
  { unfold b0. simpl. rewrite Hattrs. unfold registered. rewrite omap_app.
    fold (registered (zip names (@APort Ty Val Const PyObj <$> refs))).
    rewrite registered_zip by done. simpl. by rewrite app_nil_r. }
  assert (scannable (cls_dct b0) = true) as Hscannable.
  { unfold b0. simpl. rewrite Hattrs. unfold scannable. rewrite forallb_app.
    fold (scannable (zip names (@APort Ty Val Const PyObj <$> refs))).
    by rewrite scannable_zip. }
  destruct (scan_cls_total obj_to_attribute unit_attr b0 st0 Hscannable)
    as (b & st' & Hscan).
  destruct (go_scanned _ _ _ _ Hscan) as (cls & named & Hgo).
  exists b, st', cls, named. split; [exact Hgo|].
  assert (NoDup refs) as Hndrefs.
  { unfold refs, refs1, refs2. rewrite <- seq_app. apply NoDup_seq. }
  assert (NoDup (registered (cls_dct b0)).*2) as Hnd2.
  { rewrite Hreg, snd_zip by ref_lia. exact Hndrefs. }
  pose proof (scan_cls_decls _ _ _ _ _ _ Hscan Hnd2) as HL.
  rewrite Hreg in HL.
  set (L := (writes st0 0 0 (zip names refs)).*2) in *.
  (* names, classes and types of the ports, in the order of the list *)
  assert (port_name <$> L = Some <$> names) as HLn.
  { unfold L. rewrite writes_names. by rewrite fst_zip by ref_lia. }
  destruct (writes_classes st0 (zip names refs) 0 0) as [HLc HLt].
  fold L in HLc, HLt.
  assert (∀ {B} (f : @ModuleDecl Ty → B),
            (λ e : string * ref, f (st0 e.2)) <$> zip names refs =
            ((f <$> (marker Input <$> ins)) ++ (f <$> (marker Output <$> outs)))%list) as Hproj.
  { intros B f. transitivity (f <$> (st0 <$> (zip names refs).*2)).
    { by rewrite <- !list_fmap_compose. }
    rewrite snd_zip by ref_lia. unfold refs.
    by rewrite !fmap_app, Hst01, Hst2. }
  rewrite Hproj in HLc. rewrite Hproj in HLt.
  rewrite <- !list_fmap_compose in HLc, HLt.
  (* the inputs come first *)
  set (n_in := length (input_names m)) in *.
  assert (length L = length names) as HlL
    by (rewrite <- (length_fmap port_name L), HLn; by rewrite length_fmap).
  assert (L = take n_in L ++ drop n_in L)%list as Hsplit
    by by rewrite take_drop.
  assert (port_class <$> take n_in L = (λ _, Input) <$> ins) as Hca.
  { rewrite fmap_take, HLc. apply take_app_length'.
    rewrite length_fmap. lia. }
  assert (port_class <$> drop n_in L = (λ _, Output) <$> outs) as Hcb.
  { rewrite fmap_drop, HLc. apply drop_app_length'.
    rewrite length_fmap. lia. }
  assert (Forall (λ p, isinstance_Input (port_class p) = true) (take n_in L)) as Hfa.
  { apply Forall_forall. intros p Hp.
    apply (list_elem_of_fmap_2 port_class) in Hp. rewrite Hca in Hp.
    apply list_elem_of_fmap in Hp as (? & -> & _). done. }
  assert (Forall (λ p, isinstance_Output (port_class p) = true) (drop n_in L)) as Hfb.
  { apply Forall_forall. intros p Hp.
    apply (list_elem_of_fmap_2 port_class) in Hp. rewrite Hcb in Hp.
    apply list_elem_of_fmap in Hp as (? & -> & _). done. }
  assert (inputs b st' = take n_in L) as Hinputs.
  { unfold inputs. rewrite HL. rewrite Hsplit at 1.
    apply filter_app_first; [done|].
    eapply Forall_impl; [exact Hfb|]. intros p Hp. simpl in Hp.
    by destruct (port_class p). }
  assert (outputs b st' = drop n_in L) as Houtputs.
  { unfold outputs. rewrite HL. rewrite Hsplit at 1.
    apply filter_app_second; [|done].
    eapply Forall_impl; [exact Hfa|]. intros p Hp. simpl in Hp.
    by destruct (port_class p). }
  split_and!.
  - unfold scan_cls in Hscan.
    destruct (for_each _ _ _); [|done]. by injection Hscan as <- _.
  - rewrite Hinputs, fmap_take, HLn. unfold names.
    rewrite fmap_app. apply take_app_length'. by rewrite length_fmap.
  - rewrite Hinputs, fmap_take, HLt.
    rewrite take_app_length' by (rewrite length_fmap; ref_lia).
    rewrite <- Hins2. by rewrite <- list_fmap_compose.
  - pose proof (writes_input_idx st0 (zip names refs) 0 0) as Hidx.
    fold L in Hidx. rewrite <- HL in Hidx. fold (inputs b st') in Hidx.
    rewrite Hidx, Hinputs, length_take. do 2 f_equal. unfold names in HlL.
    rewrite length_app in HlL. ref_lia.
  - rewrite Houtputs, fmap_drop, HLn. unfold names.
    rewrite fmap_app. apply drop_app_length'. by rewrite length_fmap.
  - rewrite Houtputs, fmap_drop, HLt.
    rewrite drop_app_length' by (rewrite length_fmap; ref_lia).
    rewrite <- Houts2. by rewrite <- list_fmap_compose.
  - pose proof (writes_output_idx st0 (zip names refs) 0 0) as Hidx.
    fold L in Hidx. rewrite <- HL in Hidx. fold (outputs b st') in Hidx.
    rewrite Hidx, Houtputs, length_drop. do 2 f_equal. unfold names in HlL.
    rewrite length_app in HlL. ref_lia.
Qed.

End import_facts.

Lemma import_hw_module_ports_witness :
  ∃ b st' cls named_outputs,
    Designs.import Designs.Imported = Ok (b, st', cls, named_outputs) ∧
    port_name <$> inputs b st' = [Some "a"; Some "b"] ∧
    port_type <$> inputs b st' = [8; 16] ∧
    port_idx <$> inputs b st' = [Some 0; Some 1] ∧
    port_name <$> outputs b st' = [Some "y"].
Proof.
  destruct (import_hw_module_ports (Val := nat) (Const := nat)
              (λ o : string, o) "unit" (λ n : string, n) (λ t : nat, t)
              Examples.markers 10 Designs.Imported)
    as (b & st' & cls & named & Himport & _ & Hn & Ht & Hi & Hon & _).
  - reflexivity.
  - reflexivity.
  - apply (bool_decide_unpack _). vm_compute. reflexivity.
  - intros n Hn. simpl in Hn. set_unfold.
    destruct Hn as [->|[->|[->|[]]]]; by split_and!.
  - exists b, st', cls, named.
    split_and!; [exact Himport | exact Hn | exact Ht | exact Hi | exact Hon].
Defined.


(** ** Arguments that are no parameters *)

Section private_arguments.
Context {Ty Val Const Attr PyObj : Type} `{Countable Attr}.
Variable obj_to_attribute : list (string * PyObj) → list (string * Attr).

Local Abbreviation py_function := (@py_function Ty Val Const Attr PyObj).
Local Abbreviation cache_state := (@cache_state Ty Val Const Attr PyObj _ _).
Local Abbreviation modparams_call := (@modparams_call Ty Val Const Attr PyObj _ _ obj_to_attribute).
Local Abbreviation call_key := (@call_key Ty Val Const Attr PyObj obj_to_attribute).

(** [bind] gives the arguments in the order of the signature, under the
    names of the parameters. *)
Lemma bind_names (params : list (@sig_parameter PyObj)) : ∀ args kwargs arguments,
  bind params args kwargs = Ok arguments →
  arguments.*1 = param_name <$> params.
Proof.
  induction params as [|p ps IH]; intros args kwargs arguments; simpl.
  { destruct args, kwargs; try done. by intros [= <-]. }
  assert (∀ a k v, (rest ← bind ps a k; Ok ((param_name p, v) :: rest))
                   = Ok arguments →
                   arguments.*1 = param_name p :: (param_name <$> ps)) as Hstep.
  { intros a k v Hb. destruct (bind ps a k) as [rest|] eqn:Hrest; [|done].
    simpl in Hb. injection Hb as <-. rewrite fmap_cons. simpl.
    f_equal. by eapply IH. }
  destruct (kind p), args as [|a args]; try done; try (by apply Hstep);
    try (destruct (default p); [by apply Hstep|done]);
    destruct (dict_get kwargs (param_name p)); try (by apply Hstep);
    destruct (default p); try done; by apply Hstep.
Qed.

Lemma filter_public (a a' : list (string * PyObj)) :
  a.*1 = a'.*1 →
  (∀ i n v v', a !! i = Some (n, v) → a' !! i = Some (n, v') →
     String.prefix "_" n = false → v = v') →
  filter (λ nv, String.prefix "_" nv.1 = false) a =
  filter (λ nv, String.prefix "_" nv.1 = false) a'.
Proof.
  revert a'. induction a as [|[n v] a IH]; intros [|[n' v'] a'] Hnames Hvals;
    try done.
  rewrite !fmap_cons in Hnames. simpl in Hnames.
  injection Hnames as <- Hnames.
  rewrite !filter_cons. simpl.
  rewrite (IH a' Hnames) by (intros i; apply (Hvals (S i))).
  destruct (decide (String.prefix "_" n = false)) as [Hpub|]; [|done].
  by rewrite (Hvals 0 n v v' eq_refl eq_refl Hpub).
Qed.

(** X26.  Arguments whose names begin with an underscore are no
    parameters: once a call of a wrapped function has returned a class,
    every call of it whose bound arguments differ from those of the first
    at most in arguments with such names returns the same class, without
    running the function body and leaving the state as it is. *)
Theorem modparams_ignores_private (f : py_function) (st st1 : cache_state)
    args kwargs args' kwargs' arguments arguments' c :
  bind (sig f) args kwargs = Ok arguments →
  bind (sig f) args' kwargs' = Ok arguments' →
  (∀ i n v v', arguments !! i = Some (n, v) → arguments' !! i = Some (n, v') →
     String.prefix "_" n = false → v = v') →
  modparams_call f st args kwargs = (st1, Ok c) →
  modparams_call f st1 args' kwargs' = (st1, Ok c).
Proof.
  intros Hbind Hbind' Hvals Hcall.
  assert (filter (λ nv, String.prefix "_" nv.1 = false) arguments =
          filter (λ nv, String.prefix "_" nv.1 = false) arguments') as Hpub.
  { apply filter_public; [|done].
    by rewrite (bind_names _ _ _ _ Hbind), (bind_names _ _ _ _ Hbind'). }
  apply modparams_call_hit
    with (_get_module_cache_key obj_to_attribute f
            (inl (filter (λ nv, String.prefix "_" nv.1 = false) arguments))).
  - unfold call_key. by rewrite Hbind', Hpub.
  - eapply modparams_call_cached; [|exact Hcall].
    unfold call_key. by rewrite Hbind.
Qed.

End private_arguments.

Lemma modparams_ignores_private_witness :
  modparams_call Examples.to_attr Examples.make_adder
    (Examples.after [(Examples.make_adder, ["8"], [])]).1
    [] [("_debug", "yes"); ("width", "8")] =
  ((Examples.after [(Examples.make_adder, ["8"], [])]).1, Ok 0).
Proof.
  apply (modparams_ignores_private Examples.to_attr Examples.make_adder
           empty_cache (Examples.after [(Examples.make_adder, ["8"], [])]).1
           ["8"] [] [] [("_debug", "yes"); ("width", "8")]
           [("width", "8"); ("_debug", "no")]
           [("width", "8"); ("_debug", "yes")] 0).
  - vm_compute; reflexivity.
  - vm_compute; reflexivity.
  - intros [|[|i]] n v v' Ha Ha' Hpub; simpl in Ha, Ha'.
    + by simplify_eq.
    + simplify_eq.
    + done.
  - vm_compute; reflexivity.
Defined.
